(** * Lutz one-pass object finder: shallow embedding and checked properties

    The development embeds the two classes of the library,
    [lutzObject] (lutzObject.hpp / lutzObject.cpp) and [lutzOnePass]
    (lutzOnePass.hpp / lutzOnePass.cpp), as executable Rocq functions and
    states the properties of the specification over them.

    Conventions of the embedding
    - [int] is [Z].  Counters ([co], [pstop], [xindx]) are bounded by the
      size of the vectors they index; the two places where inputs are
      multiplied or incremented ([GetPixValue], [init_members]) check for
      signed overflow.
    - [double] is IEEE binary64, i.e. Rocq's primitive [float].
    - [std::vector<T>] is [list T]; [operator[]] is unchecked in C++, so an
      access outside the vector is undefined behaviour: [Undefined OutOfRange].
    - a member function that mutates the object takes the object and returns
      an [outcome] holding the new object. *)

From Stdlib Require Import ZArith Lia Bool Ascii.
From Stdlib Require Import String.
From Stdlib Require Import Floats.PrimFloat Numbers.Cyclic.Int63.Uint63.
From stdpp Require Import gmultiset.
From stdpp Require Import base option list relations.

Local Open Scope Z_scope.
#[local] Set Warnings "-inexact-float,-clear-no-such-hyp".

(** ** Outcomes of a call *)

(** The ways in which the C++ leaves the defined behaviour. *)
Inductive fault : Set :=
  | OutOfRange      (* operator[] or back() outside a vector *)
  | NullPointer     (* m_image[bin] with m_image == nullptr *)
  | IntOverflow.    (* signed overflow of an int expression *)

(** Exceptions of the standard library that the code can raise. *)
Inductive exn : Set :=
  | length_error.   (* std::vector(n, v) with n above max_size() *)

Inductive outcome (A : Type) : Type :=
  | Done (a : A)
  | Throws (e : exn)
  | Undefined (f : fault).
Arguments Done {A} a.
Arguments Throws {A} e.
Arguments Undefined {A} f.

Definition outcome_bind {A B} (f : A -> outcome B) (m : outcome A) : outcome B :=
  match m with
  | Done a => f a
  | Throws e => Throws e
  | Undefined u => Undefined u
  end.

#[global] Instance outcome_mbind : MBind outcome := @outcome_bind.
#[global] Instance outcome_mret : MRet outcome := @Done.

Definition is_done {A} (m : outcome A) : bool :=
  match m with Done _ => true | _ => false end.

(** ** Vectors *)

Definition INT_MAX : Z := 2147483647.
Definition INT_MIN : Z := -2147483648.

(** Result of an [int] expression: signed overflow is undefined. *)
Definition int_result (z : Z) : outcome Z :=
  if (INT_MIN <=? z) && (z <=? INT_MAX) then Done z else Undefined IntOverflow.

(** [v[i]] as an rvalue. *)
Definition at_ {A} (v : list A) (i : Z) : outcome A :=
  if i <? 0 then Undefined OutOfRange
  else match v !! Z.to_nat i with
       | Some a => Done a
       | None => Undefined OutOfRange
       end.

(** [v[i] = a]. *)
Definition assign {A} (v : list A) (i : Z) (a : A) : outcome (list A) :=
  if (i <? 0) || (Z.of_nat (length v) <=? i) then Undefined OutOfRange
  else Done (<[Z.to_nat i := a]> v).

(** [v.back()]. *)
Definition back {A} (v : list A) : outcome A := at_ v (Z.of_nat (length v) - 1).

(** [std::vector<T>(n, a)] called with an [int] count: a negative count is
    converted to a [size_t] above [max_size()] and the constructor throws. *)
Definition vector_n {A} (n : Z) (a : A) : outcome (list A) :=
  if n <? 0 then Throws length_error else Done (replicate (Z.to_nat n) a).

(** Conversion [int -> size_t] (64 bit) of the usual arithmetic conversions. *)
Definition to_size_t (n : Z) : Z := n mod 2 ^ 64.

(** Conversion [int -> double]. *)
Definition int_to_double (z : Z) : float :=
  if z <? 0 then PrimFloat.opp (PrimFloat.of_uint63 (Uint63.of_Z (- z)))
  else PrimFloat.of_uint63 (Uint63.of_Z z).

(** ** lutzObject *)

Module lutzObject.

(** [lutzObject::pixData]. *)
Record pixData : Set := mkPix {
  m_xbin : Z;
  m_ybin : Z;
  m_value : float;
  m_scale : float
}.

(** [pixData(int x=0, int y=0, double val=0.0)]: the scale starts at 1.0. *)
Definition pixData_new (x y : Z) (val : float) : pixData :=
  {| m_xbin := x; m_ybin := y; m_value := val; m_scale := 1%float |}.

Definition set_value (val : float) (p : pixData) : pixData :=
  {| m_xbin := m_xbin p; m_ybin := m_ybin p; m_value := val; m_scale := m_scale p |}.

Definition set_scale (s : float) (p : pixData) : pixData :=
  {| m_xbin := m_xbin p; m_ybin := m_ybin p; m_value := m_value p; m_scale := s |}.

(** [pixData::reset]. *)
Definition reset (p : pixData) : pixData :=
  {| m_xbin := 0; m_ybin := 0; m_value := 0%float; m_scale := 0%float |}.

Definition set_xbin (x : Z) (p : pixData) : pixData :=
  {| m_xbin := x; m_ybin := m_ybin p; m_value := m_value p; m_scale := m_scale p |}.

Definition set_ybin (y : Z) (p : pixData) : pixData :=
  {| m_xbin := m_xbin p; m_ybin := y; m_value := m_value p; m_scale := m_scale p |}.

(** One statement of [swap]: [dst.m = other.m op m], where [dst] is the
    pixel itself or [other].  The pixels live in a vector [v] and are named
    by their index; [this] and [other] may be the same index, as the
    reference parameter of [swap] allows.  The operands are read when the
    statement runs. *)
Definition statement {M : Type} (get : pixData -> M) (set : M -> pixData -> pixData)
    (op : M -> M -> outcome M) (dst this other : Z) (v : list pixData)
    : outcome (list pixData) :=
  o ← at_ v other;
  t ← at_ v this;
  r ← op (get o) (get t);
  d ← at_ v dst;
  assign v dst (set r d).

Definition int_add (a b : Z) : outcome Z := int_result (a + b).
Definition int_sub (a b : Z) : outcome Z := int_result (a - b).
Definition double_add (a b : float) : outcome float := Done (PrimFloat.add a b).
Definition double_sub (a b : float) : outcome float := Done (PrimFloat.sub a b).

(** [pixData::swap], called as [v[this].swap(v[other], value_only)]. *)
Definition swap (this other : Z) (value_only : bool) (v : list pixData)
    : outcome (list pixData) :=
  v ← (if negb value_only then
         v ← statement m_xbin set_xbin int_add other this other v;
         v ← statement m_ybin set_ybin int_add other this other v;
         v ← statement m_xbin set_xbin int_sub this this other v;
         v ← statement m_ybin set_ybin int_sub this this other v;
         v ← statement m_xbin set_xbin int_sub other this other v;
         statement m_ybin set_ybin int_sub other this other v
       else Done v);
  v ← statement m_value set_value double_add other this other v;
  v ← statement m_scale set_scale double_add other this other v;
  v ← statement m_value set_value double_sub this this other v;
  v ← statement m_scale set_scale double_sub this this other v;
  v ← statement m_value set_value double_sub other this other v;
  statement m_scale set_scale double_sub other this other v.

Record t : Set := mk {
  m_xmin : Z;
  m_xmax : Z;
  m_ymin : Z;
  m_ymax : Z;
  m_value_max : float;
  m_value_min : float;
  m_value_sum : float;
  m_pixInfo : list pixData
}.

(** [lutzObject::clear]; the default constructor is [clear] on a fresh
    object. *)
Definition clear : t :=
  {| m_xmin := 10000000; m_xmax := -10000000;
     m_ymin := 10000000; m_ymax := -10000000;
     m_value_max := (-1.0e30)%float; m_value_min := 1.0e30%float;
     m_value_sum := 0%float;
     m_pixInfo := [] |}.

Definition size (o : t) : Z := Z.of_nat (length (m_pixInfo o)).

Definition same_position (p q : pixData) : bool :=
  (m_xbin p =? m_xbin q) && (m_ybin p =? m_ybin q).

(** [lutzObject::contains]. *)
Definition contains (o : t) (pixel : pixData) : bool :=
  existsb (same_position pixel) (m_pixInfo o).

(** [lutzObject::append(const pixData&)]. *)
Definition append (o : t) (pixel : pixData) : t :=
  if contains o pixel then o
  else
    {| m_xmin := if m_xbin pixel <? m_xmin o then m_xbin pixel else m_xmin o;
       m_xmax := if m_xmax o <? m_xbin pixel then m_xbin pixel else m_xmax o;
       m_ymin := if m_ybin pixel <? m_ymin o then m_ybin pixel else m_ymin o;
       m_ymax := if m_ymax o <? m_ybin pixel then m_ybin pixel else m_ymax o;
       m_value_max := if PrimFloat.ltb (m_value_max o) (m_value pixel)
                      then m_value pixel else m_value_max o;
       m_value_min := if PrimFloat.ltb (m_value pixel) (m_value_min o)
                      then m_value pixel else m_value_min o;
       m_value_sum := PrimFloat.add (m_value_sum o) (m_value pixel);
       m_pixInfo := m_pixInfo o ++ [pixel] |}.

(** [lutzObject::append(std::vector<pixData>&)]. *)
Definition append_all (o : t) (pixels : list pixData) : t :=
  fold_left append pixels o.

(** [lutzObject::lutzObject(std::vector<pixData>&)]. *)
Definition of_pixels (pixels : list pixData) : t := append_all clear pixels.

(** [lutzObject::remove]: the value of the pixel (through
    [operator double]) is taken off the sum and the pixel is erased. *)
Definition remove (o : t) (index : Z) : outcome t :=
  p ← at_ (m_pixInfo o) index;
  Done {| m_xmin := m_xmin o; m_xmax := m_xmax o;
          m_ymin := m_ymin o; m_ymax := m_ymax o;
          m_value_max := m_value_max o; m_value_min := m_value_min o;
          m_value_sum := PrimFloat.sub (m_value_sum o) (m_value p);
          m_pixInfo := delete (Z.to_nat index) (m_pixInfo o) |}.

(** [lutzObject::overlaps]. *)
Definition overlaps (o other : t) : bool :=
  existsb (contains o) (m_pixInfo other).

(** The accumulation loop of [centroid]: the running [xcenter], [ycenter]
    and [weight_sum]. *)
Definition centroid_step (weight_bins : bool) (acc : float * float * float)
    (p : pixData) : float * float * float :=
  let '(xcenter, ycenter, weight_sum) := acc in
  let weight := m_scale p in
  let weight := if weight_bins then PrimFloat.mul weight (m_value p) else weight in
  (PrimFloat.add xcenter (PrimFloat.mul weight (int_to_double (m_xbin p))),
   PrimFloat.add ycenter (PrimFloat.mul weight (int_to_double (m_ybin p))),
   PrimFloat.add weight_sum weight).

Definition centroid_sums (o : t) (weight_bins : bool) : float * float * float :=
  fold_left (centroid_step weight_bins) (m_pixInfo o) (0%float, 0%float, 0%float).

(** [lutzObject::centroid].  The C++ function calls itself when the sum of
    weights is not above zero; [fuel] bounds the number of activations,
    and [None] means that [fuel] activations did not reach a return. *)
Fixpoint centroid (fuel : nat) (o : t) (weight_bins : bool) : option (float * float) :=
  match fuel with
  | O => None
  | S fuel' =>
      let '(xcenter, ycenter, weight_sum) := centroid_sums o weight_bins in
      if PrimFloat.ltb 0%float weight_sum
      then Some (PrimFloat.div xcenter weight_sum, PrimFloat.div ycenter weight_sum)
      else centroid fuel' o false
  end.

(** The positions held by an object. *)
Definition position (p : pixData) : Z * Z := (m_xbin p, m_ybin p).
Definition positions (o : t) : list (Z * Z) := position <$> m_pixInfo o.

End lutzObject.

(** ** lutzOnePass *)

Module lutzOnePass.

Inductive LUTZSTATUS : Set := COMPLETE | INCOMPLETE | OBJECT | NONOBJECT.
Inductive LUTZ_STACK_ACTION : Set := PUSH | POP.

Definition status_eqb (a b : LUTZSTATUS) : bool :=
  match a, b with
  | COMPLETE, COMPLETE | INCOMPLETE, INCOMPLETE
  | OBJECT, OBJECT | NONOBJECT, NONOBJECT => true
  | _, _ => false
  end.

(** [typedef std::vector<lutzObject::pixData> Object]. *)
Definition Object : Set := list lutzObject.pixData.

(** The members of the class, followed by the two locals of [run] that
    are handed by reference to every helper ([co], [pstop]) and by one
    ghost counter, [joins], which no function reads: it counts how often
    the joining branch of the 's' marker was taken. *)
Record t : Set := mk {
  m_xpix : Z;
  m_ypix : Z;
  m_npixelmin : Z;
  m_image : option (list float);   (* [None] is the null pointer *)
  m_threshold : float;
  m_pixData : list Object;
  m_MARKER : list ascii;
  m_Objects : list lutzObject.t;
  m_STORE : list Object;
  m_PSSTACK : list LUTZSTATUS;
  m_START : list Z;
  m_END : list Z;
  m_INFO : list Object;
  m_PS : LUTZSTATUS;
  m_CS : LUTZSTATUS;
  co : Z;
  pstop : Z;
  joins : nat
}.

(** [lutzOnePass(double* image, int xpixels, int ypixels)] followed by
    [SetThreshold] and [SetNPixelMin].  The constructor leaves [m_PS] and
    [m_CS] indeterminate; [run] writes both before it reads them. *)
Definition create (image : option (list float)) (xpixels ypixels : Z)
    (threshold : float) (npixelmin : Z) : t :=
  {| m_xpix := xpixels; m_ypix := ypixels; m_npixelmin := npixelmin;
     m_image := image; m_threshold := threshold;
     m_pixData := []; m_MARKER := []; m_Objects := []; m_STORE := [];
     m_PSSTACK := []; m_START := []; m_END := []; m_INFO := [];
     m_PS := COMPLETE; m_CS := NONOBJECT; co := 0; pstop := 0; joins := O |}.

(** [lutzOnePass()]. *)
Definition create_default : t := create None 0 0 0%float 0.

(** Field updates. *)
Definition with_MARKER (v : list ascii) (o : t) : t :=
  mk (m_xpix o) (m_ypix o) (m_npixelmin o) (m_image o) (m_threshold o) (m_pixData o)
     v (m_Objects o) (m_STORE o) (m_PSSTACK o) (m_START o) (m_END o) (m_INFO o)
     (m_PS o) (m_CS o) (co o) (pstop o) (joins o).
Definition with_Objects (v : list lutzObject.t) (o : t) : t :=
  mk (m_xpix o) (m_ypix o) (m_npixelmin o) (m_image o) (m_threshold o) (m_pixData o)
     (m_MARKER o) v (m_STORE o) (m_PSSTACK o) (m_START o) (m_END o) (m_INFO o)
     (m_PS o) (m_CS o) (co o) (pstop o) (joins o).
Definition with_STORE (v : list Object) (o : t) : t :=
  mk (m_xpix o) (m_ypix o) (m_npixelmin o) (m_image o) (m_threshold o) (m_pixData o)
     (m_MARKER o) (m_Objects o) v (m_PSSTACK o) (m_START o) (m_END o) (m_INFO o)
     (m_PS o) (m_CS o) (co o) (pstop o) (joins o).
Definition with_PSSTACK (v : list LUTZSTATUS) (o : t) : t :=
  mk (m_xpix o) (m_ypix o) (m_npixelmin o) (m_image o) (m_threshold o) (m_pixData o)
     (m_MARKER o) (m_Objects o) (m_STORE o) v (m_START o) (m_END o) (m_INFO o)
     (m_PS o) (m_CS o) (co o) (pstop o) (joins o).
Definition with_START (v : list Z) (o : t) : t :=
  mk (m_xpix o) (m_ypix o) (m_npixelmin o) (m_image o) (m_threshold o) (m_pixData o)
     (m_MARKER o) (m_Objects o) (m_STORE o) (m_PSSTACK o) v (m_END o) (m_INFO o)
     (m_PS o) (m_CS o) (co o) (pstop o) (joins o).
Definition with_END (v : list Z) (o : t) : t :=
  mk (m_xpix o) (m_ypix o) (m_npixelmin o) (m_image o) (m_threshold o) (m_pixData o)
     (m_MARKER o) (m_Objects o) (m_STORE o) (m_PSSTACK o) (m_START o) v (m_INFO o)
     (m_PS o) (m_CS o) (co o) (pstop o) (joins o).
Definition with_INFO (v : list Object) (o : t) : t :=
  mk (m_xpix o) (m_ypix o) (m_npixelmin o) (m_image o) (m_threshold o) (m_pixData o)
     (m_MARKER o) (m_Objects o) (m_STORE o) (m_PSSTACK o) (m_START o) (m_END o) v
     (m_PS o) (m_CS o) (co o) (pstop o) (joins o).
Definition with_PS (v : LUTZSTATUS) (o : t) : t :=
  mk (m_xpix o) (m_ypix o) (m_npixelmin o) (m_image o) (m_threshold o) (m_pixData o)
     (m_MARKER o) (m_Objects o) (m_STORE o) (m_PSSTACK o) (m_START o) (m_END o) (m_INFO o)
     v (m_CS o) (co o) (pstop o) (joins o).
Definition with_CS (v : LUTZSTATUS) (o : t) : t :=
  mk (m_xpix o) (m_ypix o) (m_npixelmin o) (m_image o) (m_threshold o) (m_pixData o)
     (m_MARKER o) (m_Objects o) (m_STORE o) (m_PSSTACK o) (m_START o) (m_END o) (m_INFO o)
     (m_PS o) v (co o) (pstop o) (joins o).
Definition with_co (v : Z) (o : t) : t :=
  mk (m_xpix o) (m_ypix o) (m_npixelmin o) (m_image o) (m_threshold o) (m_pixData o)
     (m_MARKER o) (m_Objects o) (m_STORE o) (m_PSSTACK o) (m_START o) (m_END o) (m_INFO o)
     (m_PS o) (m_CS o) v (pstop o) (joins o).
Definition with_pstop (v : Z) (o : t) : t :=
  mk (m_xpix o) (m_ypix o) (m_npixelmin o) (m_image o) (m_threshold o) (m_pixData o)
     (m_MARKER o) (m_Objects o) (m_STORE o) (m_PSSTACK o) (m_START o) (m_END o) (m_INFO o)
     (m_PS o) (m_CS o) (co o) v (joins o).
Definition with_joins (v : nat) (o : t) : t :=
  mk (m_xpix o) (m_ypix o) (m_npixelmin o) (m_image o) (m_threshold o) (m_pixData o)
     (m_MARKER o) (m_Objects o) (m_STORE o) (m_PSSTACK o) (m_START o) (m_END o) (m_INFO o)
     (m_PS o) (m_CS o) (co o) (pstop o) v.

(** [SetImage], [SetXpixels], [SetYpixels], [SetThreshold], [SetNPixelMin]. *)
Definition SetImage (image : option (list float)) (o : t) : t :=
  mk (m_xpix o) (m_ypix o) (m_npixelmin o) image (m_threshold o) (m_pixData o)
     (m_MARKER o) (m_Objects o) (m_STORE o) (m_PSSTACK o) (m_START o) (m_END o) (m_INFO o)
     (m_PS o) (m_CS o) (co o) (pstop o) (joins o).
Definition SetXpixels (xpixels : Z) (o : t) : t :=
  mk xpixels (m_ypix o) (m_npixelmin o) (m_image o) (m_threshold o) (m_pixData o)
     (m_MARKER o) (m_Objects o) (m_STORE o) (m_PSSTACK o) (m_START o) (m_END o) (m_INFO o)
     (m_PS o) (m_CS o) (co o) (pstop o) (joins o).
Definition SetYpixels (ypixels : Z) (o : t) : t :=
  mk (m_xpix o) ypixels (m_npixelmin o) (m_image o) (m_threshold o) (m_pixData o)
     (m_MARKER o) (m_Objects o) (m_STORE o) (m_PSSTACK o) (m_START o) (m_END o) (m_INFO o)
     (m_PS o) (m_CS o) (co o) (pstop o) (joins o).
Definition SetThreshold (threshold : float) (o : t) : t :=
  mk (m_xpix o) (m_ypix o) (m_npixelmin o) (m_image o) threshold (m_pixData o)
     (m_MARKER o) (m_Objects o) (m_STORE o) (m_PSSTACK o) (m_START o) (m_END o) (m_INFO o)
     (m_PS o) (m_CS o) (co o) (pstop o) (joins o).
Definition SetNPixelMin (npixelmin : Z) (o : t) : t :=
  mk (m_xpix o) (m_ypix o) npixelmin (m_image o) (m_threshold o) (m_pixData o)
     (m_MARKER o) (m_Objects o) (m_STORE o) (m_PSSTACK o) (m_START o) (m_END o) (m_INFO o)
     (m_PS o) (m_CS o) (co o) (pstop o) (joins o).

(** The marker characters. *)
Definition NUL : ascii := Ascii.zero.

(** [lutzOnePass::GetPixValue]. *)
Definition GetPixValue (xbin ybin : Z) (o : t) : outcome float :=
  prod ← int_result (m_xpix o * ybin);
  bin ← int_result (prod + xbin);
  match m_image o with
  | None => Undefined NullPointer
  | Some image => at_ image bin
  end.

(** [lutzOnePass::AssessPixel]. *)
Definition AssessPixel (xbin ybin : Z) (o : t) : outcome bool :=
  v ← GetPixValue xbin ybin o;
  Done (PrimFloat.ltb (m_threshold o) v).

(** [lutzOnePass::init_members]. *)
Definition init_members (o : t) : outcome t :=
  n ← int_result (m_xpix o + 1);
  marker ← vector_n n NUL;
  psstack ← vector_n (m_xpix o) COMPLETE;
  start ← vector_n (m_xpix o) (-1);
  end_ ← vector_n (m_xpix o) (-1);
  info ← vector_n (m_xpix o) ([] : Object);
  store ← vector_n (m_xpix o) ([] : Object);
  Done (mk (m_xpix o) (m_ypix o) (m_npixelmin o) (m_image o) (m_threshold o) []
           marker [] store psstack start end_ info
           (m_PS o) (m_CS o) (co o) (pstop o) (joins o)).

(** [lutzOnePass::ModPSSTACK]. *)
Definition ModPSSTACK (status : LUTZ_STACK_ACTION) (o : t) : outcome t :=
  match status with
  | PUSH =>
      stk ← assign (m_PSSTACK o) (pstop o) (m_PS o);
      Done (with_pstop (pstop o + 1) (with_PS COMPLETE (with_PSSTACK stk o)))
  | POP =>
      stk ← assign (m_PSSTACK o) (pstop o) COMPLETE;
      ps ← at_ stk (pstop o - 1);
      Done (with_PS ps (with_pstop (pstop o - 1) (with_PSSTACK stk o)))
  end.

(** [lutzOnePass::ModOBSTACK].  The copy loop of the POP case touches
    [m_START[co]] and [m_STORE] only when [m_INFO[co]] holds a pixel. *)
Definition ModOBSTACK (status : LUTZ_STACK_ACTION) (xbin : Z) (o : t) : outcome t :=
  match status with
  | PUSH =>
      o ← ModPSSTACK PUSH o;
      let o := with_co (co o + 1) o in
      start ← assign (m_START o) (co o) xbin;
      info ← assign (m_INFO o) (co o) [];
      Done (with_INFO info (with_START start o))
  | POP =>
      o ← ModPSSTACK POP o;
      pixels ← at_ (m_INFO o) (co o);
      store ← match pixels with
              | [] => Done (m_STORE o)
              | _ :: _ =>
                  k ← at_ (m_START o) (co o);
                  old ← at_ (m_STORE o) k;
                  assign (m_STORE o) k (old ++ pixels)
              end;
      info ← assign (m_INFO o) (co o) [];
      start ← assign (m_START o) (co o) (-1);
      end_ ← assign (m_END o) (co o) (-1);
      Done (with_co (co o - 1)
             (with_END end_ (with_START start (with_INFO info (with_STORE store o)))))
  end.

(** [lutzOnePass::WriteObject].  [obj.size() >= m_npixelmin] compares a
    [size_t] with an [int], which is first converted to [size_t]. *)
Definition WriteObject (obj : Object) (o : t) : t :=
  if negb (Nat.eqb (length obj) 0) && (to_size_t (m_npixelmin o) <=? Z.of_nat (length obj))
  then with_Objects (m_Objects o ++ [lutzObject.append_all lutzObject.clear obj]) o
  else o.

(** [lutzOnePass::StartSegment]. *)
Definition StartSegment (xindx : Z) (o : t) : outcome t :=
  let o := with_CS OBJECT o in
  if status_eqb (m_PS o) OBJECT then
    k ← at_ (m_START o) (co o);
    if k =? -1 then
      marker ← assign (m_MARKER o) xindx "S"%char;
      start ← assign (m_START o) (co o) xindx;
      Done (with_START start (with_MARKER marker o))
    else
      marker ← assign (m_MARKER o) xindx "s"%char;
      Done (with_MARKER marker o)
  else
    o ← ModOBSTACK PUSH xindx o;
    marker ← assign (m_MARKER o) xindx "S"%char;
    Done (with_MARKER marker o).

(** [lutzOnePass::EndSegment]. *)
Definition EndSegment (xindx : Z) (o : t) : outcome t :=
  let o := with_CS NONOBJECT o in
  if negb (status_eqb (m_PS o) COMPLETE) then
    marker ← assign (m_MARKER o) xindx "f"%char;
    end_ ← assign (m_END o) (co o) xindx;
    Done (with_END end_ (with_MARKER marker o))
  else
    o ← ModOBSTACK POP xindx o;
    marker ← assign (m_MARKER o) xindx "F"%char;
    Done (with_MARKER marker o).

(** [lutzOnePass::ProcessNewMarker].  In the first case the copy loop
    touches [m_INFO[co]] only when [m_STORE[xindx]] holds a pixel. *)
Definition ProcessNewMarker (prev_marker : ascii) (xindx : Z) (o : t) : outcome t :=
  if Ascii.eqb prev_marker "S" then
    o ← ModPSSTACK PUSH o;
    o ← (if status_eqb (m_CS o) NONOBJECT then
           stk ← assign (m_PSSTACK o) (pstop o) COMPLETE;
           let o := with_pstop (pstop o + 1) (with_PSSTACK stk o) in
           cached ← at_ (m_STORE o) xindx;
           let o := with_co (co o + 1) o in
           info ← assign (m_INFO o) (co o) cached;
           start ← assign (m_START o) (co o) (-1);
           store ← assign (m_STORE o) xindx [];
           Done (with_STORE store (with_START start (with_INFO info o)))
         else
           cached ← at_ (m_STORE o) xindx;
           info ← match cached with
                  | [] => Done (m_INFO o)
                  | _ :: _ =>
                      cur ← at_ (m_INFO o) (co o);
                      assign (m_INFO o) (co o) (cur ++ cached)
                  end;
           store ← assign (m_STORE o) xindx [];
           Done (with_STORE store (with_INFO info o)));
    Done (with_PS OBJECT o)
  else if Ascii.eqb prev_marker "s" then
    o ← (if status_eqb (m_CS o) OBJECT && status_eqb (m_PS o) COMPLETE then
           let o := with_joins (S (joins o)) (with_pstop (pstop o - 1) o) in
           k ← at_ (m_START o) (co o);
           let o := with_co (co o - 1) o in
           k' ← at_ (m_START o) (co o);
           if k' =? -1 then
             start ← assign (m_START o) (co o) k;
             Done (with_START start o)
           else
             marker ← assign (m_MARKER o) k "s"%char;
             Done (with_MARKER marker o)
         else Done o);
    Done (with_PS OBJECT o)
  else if Ascii.eqb prev_marker "f" then
    Done (with_PS INCOMPLETE o)
  else if Ascii.eqb prev_marker "F" then
    let o := with_pstop (pstop o - 1) o in
    ps ← at_ (m_PSSTACK o) (pstop o);
    let o := with_PS ps o in
    if status_eqb (m_CS o) NONOBJECT && status_eqb (m_PS o) COMPLETE then
      k ← at_ (m_START o) (co o);
      o ← (if k =? -1 then
             pixels ← at_ (m_INFO o) (co o);
             let o := WriteObject pixels o in
             info ← assign (m_INFO o) (co o) [];
             Done (with_INFO info o)
           else
             e ← at_ (m_END o) (co o);
             marker ← assign (m_MARKER o) e "F"%char;
             let o := with_MARKER marker o in
             pixels ← at_ (m_INFO o) (co o);
             k ← at_ (m_START o) (co o);
             store ← assign (m_STORE o) k pixels;
             Done (with_STORE store o));
      let o := with_pstop (pstop o - 1) (with_co (co o - 1) o) in
      ps ← at_ (m_PSSTACK o) (pstop o);
      Done (with_PS ps o)
    else Done o
  else Done o.

(** [lutzOnePass::StoreClearance]. *)
Definition StoreClearance (o : t) : t :=
  with_STORE (replicate (length (m_STORE o)) [])
    (fold_left (fun o obj => WriteObject obj o) (m_STORE o) o).

(** [for (int i = from; ...; i++) body], run for [n] rounds. *)
Fixpoint for_ {S : Type} (n : nat) (from : Z) (body : Z -> S -> outcome S) (s : S)
    : outcome S :=
  match n with
  | O => Done s
  | S n' => s ← body from s; for_ n' (from + 1) body s
  end.

(** What [run] does at a position that holds no image pixel, inside the
    row and at the position past its end. *)
Definition no_pixel (prev_marker : ascii) (xindx : Z) (o : t) : outcome t :=
  o ← (if Ascii.eqb prev_marker NUL then Done o
       else ProcessNewMarker prev_marker xindx o);
  if status_eqb (m_CS o) OBJECT then EndSegment xindx o else Done o.

(** The body of the inner loop of [run]. *)
Definition scan_pixel (yindx xindx : Z) (o : t) : outcome t :=
  val ← GetPixValue xindx yindx o;
  let pixel := lutzObject.set_value val (lutzObject.pixData_new xindx yindx 0%float) in
  prev_marker ← at_ (m_MARKER o) xindx;
  marker ← assign (m_MARKER o) xindx NUL;
  let o := with_MARKER marker o in
  is_image_pixel ← AssessPixel xindx yindx o;
  if is_image_pixel : bool then
    o ← (if status_eqb (m_CS o) NONOBJECT then StartSegment xindx o else Done o);
    o ← (if Ascii.eqb prev_marker NUL then Done o
         else ProcessNewMarker prev_marker xindx o);
    cur ← at_ (m_INFO o) (co o);
    info ← assign (m_INFO o) (co o) (cur ++ [pixel]);
    Done (with_INFO info o)
  else no_pixel prev_marker xindx o.

(** The body of the outer loop of [run]. *)
Definition scan_row (yindx : Z) (o : t) : outcome t :=
  let o := with_CS NONOBJECT (with_PS COMPLETE o) in
  let n := Z.to_nat (m_xpix o) in
  o ← for_ n 0 (scan_pixel yindx) o;
  let xindx := Z.of_nat n in
  prev_marker ← back (m_MARKER o);
  marker ← assign (m_MARKER o) (Z.of_nat (length (m_MARKER o)) - 1) NUL;
  no_pixel prev_marker xindx (with_MARKER marker o).

(** [lutzOnePass::run]. *)
Definition run (o : t) : outcome t :=
  o ← init_members o;
  let o := with_joins O (with_pstop 0 (with_co 0 o)) in
  o ← for_ (Z.to_nat (m_ypix o)) 0 scan_row o;
  Done (StoreClearance o).

(** [lutzOnePass::NumObjects]. *)
Definition NumObjects (o : t) : Z := Z.of_nat (length (m_Objects o)).

(** [lutzOnePass::GetObject]. *)
Definition GetObject (obj_id : Z) (o : t) : outcome lutzObject.t :=
  at_ (m_Objects o) obj_id.

(** [lutzOnePass::GetObjects]. *)
Definition GetObjects (o : t) : list lutzObject.t := m_Objects o.

End lutzOnePass.

(** ** Vocabulary of the specification *)

(** *** Pictures: test images written as rows of characters *)

Fixpoint picture_row (s : String.string) : list float :=
  match s with
  | String.EmptyString => []
  | String.String c rest =>
      (if Ascii.eqb c "X" then 1%float else 0%float) :: picture_row rest
  end.

(** An ['X'] is a sample of value 1, any other character a sample of value 0. *)
Definition picture (rows : list String.string) : list float :=
  concat (picture_row <$> rows).

(** A configured engine over a picture [xpixels] wide and [ypixels] high,
    threshold 0. *)
Definition scene (xpixels ypixels : Z) (rows : list String.string) (npixelmin : Z)
    : lutzOnePass.t :=
  lutzOnePass.create (Some (picture rows)) xpixels ypixels 0%float npixelmin.

(** *** Connectivity *)

(** Two distinct positions that differ by at most one in each coordinate. *)
Definition adjacent8 (p q : Z * Z) : Prop :=
  p ≠ q ∧ Z.abs (p.1 - q.1) <= 1 ∧ Z.abs (p.2 - q.2) <= 1.

Definition adjacent8b (p q : Z * Z) : bool :=
  negb ((p.1 =? q.1) && (p.2 =? q.2))
  && (Z.abs (p.1 - q.1) <=? 1) && (Z.abs (p.2 - q.2) <=? 1).

(** One step between adjacent positions of [l]. *)
Definition link8 (l : list (Z * Z)) (p q : Z * Z) : Prop :=
  p ∈ l ∧ q ∈ l ∧ adjacent8 p q.

(** [l] is 8-connected: any two of its positions are joined by a chain of
    adjacent positions of [l]. *)
Definition connected8 (l : list (Z * Z)) : Prop :=
  ∀ p q, p ∈ l → q ∈ l → rtc (link8 l) p q.

Definition mem_pos (p : Z * Z) (l : list (Z * Z)) : bool :=
  existsb (fun q => (p.1 =? q.1) && (p.2 =? q.2)) l.

(** The positions of [l] that are in [s] or next to a position of [s]. *)
Definition flood_step (l s : list (Z * Z)) : list (Z * Z) :=
  List.filter (fun q => mem_pos q s || existsb (fun p => adjacent8b p q) s) l.

Fixpoint flood (n : nat) (l s : list (Z * Z)) : list (Z * Z) :=
  match n with
  | O => s
  | S n' => flood n' l (flood_step l s)
  end.

(** Decision procedure for [connected8] by flooding from the first position. *)
Definition connected8b (l : list (Z * Z)) : bool :=
  match l with
  | [] => true
  | p :: _ => forallb (fun q => mem_pos q (flood (length l) l [p])) l
  end.

(** Two objects share a position. *)
Definition share_position (a b : lutzObject.t) : Prop :=
  ∃ p, p ∈ lutzObject.positions a ∧ p ∈ lutzObject.positions b.

(** *** The foreground of a configured engine *)

Definition all_positions (w h : Z) : list (Z * Z) :=
  y ← seqZ 0 h; (fun x => (x, y)) <$> seqZ 0 w.

Definition is_foreground (o : lutzOnePass.t) (p : Z * Z) : bool :=
  match lutzOnePass.AssessPixel p.1 p.2 o with
  | Done b => b
  | _ => false
  end.

Definition foreground (o : lutzOnePass.t) : list (Z * Z) :=
  List.filter (is_foreground o) (all_positions (lutzOnePass.m_xpix o) (lutzOnePass.m_ypix o)).

(** *** Summary fields of an object *)

(** The bounding box is exact: each bound is attained by a stored pixel and
    bounds all of them. *)
Definition least (f : lutzObject.pixData -> Z) (l : list lutzObject.pixData) (m : Z) : Prop :=
  (∃ p, p ∈ l ∧ f p = m) ∧ ∀ p, p ∈ l → m <= f p.
Definition greatest (f : lutzObject.pixData -> Z) (l : list lutzObject.pixData) (m : Z) : Prop :=
  (∃ p, p ∈ l ∧ f p = m) ∧ ∀ p, p ∈ l → f p <= m.

Definition bounding_box_exact (o : lutzObject.t) : Prop :=
  lutzObject.m_pixInfo o ≠ [] →
  least lutzObject.m_xbin (lutzObject.m_pixInfo o) (lutzObject.m_xmin o) ∧
  greatest lutzObject.m_xbin (lutzObject.m_pixInfo o) (lutzObject.m_xmax o) ∧
  least lutzObject.m_ybin (lutzObject.m_pixInfo o) (lutzObject.m_ymin o) ∧
  greatest lutzObject.m_ybin (lutzObject.m_pixInfo o) (lutzObject.m_ymax o).

(** The sum of the stored values, added in storage order. *)
Definition value_total (l : list lutzObject.pixData) : float :=
  fold_left (fun s p => PrimFloat.add s (lutzObject.m_value p)) l 0%float.

(** The operations of the object interface that change an object. *)
Inductive object_op : Set :=
  | op_append (p : lutzObject.pixData)
  | op_remove (index : Z)
  | op_clear.

Definition apply_op (o : lutzObject.t) (op : object_op) : outcome lutzObject.t :=
  match op with
  | op_append p => Done (lutzObject.append o p)
  | op_remove i => lutzObject.remove o i
  | op_clear => Done lutzObject.clear
  end.

Fixpoint apply_ops (o : lutzObject.t) (ops : list object_op) : outcome lutzObject.t :=
  match ops with
  | [] => Done o
  | op :: rest => o' ← apply_op o op; apply_ops o' rest
  end.

(** Coordinates strictly inside the sentinels that [clear] stores. *)
Definition in_sentinels (p : lutzObject.pixData) : Prop :=
  -10000000 < lutzObject.m_xbin p < 10000000 ∧
  -10000000 < lutzObject.m_ybin p < 10000000.

(** *** Centroid *)

(** The sum of weights that [centroid] accumulates in the given mode. *)
Definition weight_sum (o : lutzObject.t) (weight_bins : bool) : float :=
  (lutzObject.centroid_sums o weight_bins).2.

(** What an average position is, stated without the loop of [centroid].
    The sum of a list of doubles is taken in list order, starting at 0.0. *)
Definition sum_doubles (l : list float) : float :=
  fold_left PrimFloat.add l 0%float.

(** The weight of a pixel: its scale times its value, or its scale alone. *)
Definition value_weight (p : lutzObject.pixData) : float :=
  PrimFloat.mul (lutzObject.m_scale p) (lutzObject.m_value p).
Definition scale_weight (p : lutzObject.pixData) : float := lutzObject.m_scale p.

Definition mode_weight (weight_bins : bool) : lutzObject.pixData → float :=
  if weight_bins then value_weight else scale_weight.

(** The denominator of the average under the weights [w]: the sum of the
    weights of the pixels. *)
Definition weight_total (w : lutzObject.pixData → float) (o : lutzObject.t) : float :=
  sum_doubles (w <$> lutzObject.m_pixInfo o).

(** The numerators: the sums of weight times coordinate. *)
Definition weighted_x_total (w : lutzObject.pixData → float) (o : lutzObject.t) : float :=
  sum_doubles ((λ p, PrimFloat.mul (w p) (int_to_double (lutzObject.m_xbin p)))
                 <$> lutzObject.m_pixInfo o).
Definition weighted_y_total (w : lutzObject.pixData → float) (o : lutzObject.t) : float :=
  sum_doubles ((λ p, PrimFloat.mul (w p) (int_to_double (lutzObject.m_ybin p)))
                 <$> lutzObject.m_pixInfo o).

(** The average position under the weights [w]: per axis, the sum of
    weight times coordinate divided by the sum of the weights. *)
Definition average_position (w : lutzObject.pixData → float) (o : lutzObject.t)
    : float * float :=
  (PrimFloat.div (weighted_x_total w o) (weight_total w o),
   PrimFloat.div (weighted_y_total w o) (weight_total w o)).

(** [centroid] returns [r] after at most [calls] activations. *)
Definition returns_within (calls : nat) (o : lutzObject.t) (weight_bins : bool)
    (r : float * float) : Prop :=
  lutzObject.centroid calls o weight_bins = Some r.

(** [centroid] never returns: every bound on the activations is exceeded. *)
Definition diverges (o : lutzObject.t) (weight_bins : bool) : Prop :=
  ∀ fuel, lutzObject.centroid fuel o weight_bins = None.

(** What [append] and [clear] maintain: an object without pixels carries
    the sentinels, the bounding box is exact, and the sum is the total of
    the stored values in storage order. *)
Definition summary_kept (o : lutzObject.t) : Prop :=
  (lutzObject.m_pixInfo o = [] → o = lutzObject.clear) ∧
  bounding_box_exact o ∧
  lutzObject.m_value_sum o = value_total (lutzObject.m_pixInfo o) ∧
  Forall in_sentinels (lutzObject.m_pixInfo o).

(** Two pixels are appended to an empty object and the second is removed. *)
Definition append_append_remove : list object_op :=
  [op_append (lutzObject.pixData_new 0 0 1%float);
   op_append (lutzObject.pixData_new 5 7 2%float);
   op_remove 1].

(** *** Concrete objects and scenes used below *)

(** Two pixels of negative value, as found with a negative threshold. *)
Definition negative_pair : lutzObject.t :=
  lutzObject.of_pixels
    [lutzObject.pixData_new 0 1 (-1)%float; lutzObject.pixData_new 4 1 (-3)%float].

(** Two pixels of different value that differ in both coordinates. *)
Definition uneven_pair : lutzObject.t :=
  lutzObject.of_pixels
    [lutzObject.pixData_new 0 1 1%float; lutzObject.pixData_new 4 3 3%float].

(** A 3x3 block of value 1 on positions (1..3, 1..3). *)
Definition block3 : lutzObject.t :=
  lutzObject.of_pixels
    ((fun p : Z * Z => lutzObject.pixData_new p.1 p.2 1%float)
       <$> [(1,1); (2,1); (3,1); (1,2); (2,2); (3,2); (1,3); (2,3); (3,3)]).

(** Two pixels of value 1, the second with its public [m_scale] set to -2. *)
Definition mixed_scales : lutzObject.t :=
  lutzObject.of_pixels
    [lutzObject.pixData_new 0 0 1%float;
     lutzObject.set_scale (-2)%float (lutzObject.pixData_new 1 0 1%float)].

(** One foreground pixel in a 1x1 image. *)
Definition single_pixel : lutzOnePass.t := scene 1 1 ["X"%string] 0.

(** A ring that is open at the bottom left: the segment of the last row
    starts in the gap under the ring and runs into its right arm. *)
Definition hook_rows : list String.string :=
  ["XXXX"; "X..X"; "..XX"]%string.
Definition hook (npixelmin : Z) : lutzOnePass.t := scene 4 3 hook_rows npixelmin.

(** The same with one more pixel below, which touches only the pixel (2,2). *)
Definition hook_tail : lutzOnePass.t :=
  scene 4 4 ["XXXX"; "X..X"; "..XX"; ".X.."]%string 0.

(** The smallest U: two bars of height one joined by the row beneath. *)
Definition small_U : lutzOnePass.t := scene 3 2 ["X.X"; "XXX"]%string 0.

(** Two blobs with a background column between them. *)
Definition two_blobs : lutzOnePass.t :=
  scene 5 3 ["XX..X"; "X...X"; "....."]%string 0.

(** What [run] leaves in the result list, as lists of positions. *)
Definition found (o : lutzOnePass.t) : outcome (list (list (Z * Z))) :=
  o' ← lutzOnePass.run o; Done (lutzObject.positions <$> lutzOnePass.GetObjects o').

(** *** The engine at the start of the row loop *)

(** The object as [init_members] and the declarations [co(0)], [pstop(0)]
    leave it, for a width that is not negative. *)
Definition initialised (o : lutzOnePass.t) : lutzOnePass.t :=
  let w := Z.to_nat (lutzOnePass.m_xpix o) in
  lutzOnePass.mk (lutzOnePass.m_xpix o) (lutzOnePass.m_ypix o)
    (lutzOnePass.m_npixelmin o) (lutzOnePass.m_image o) (lutzOnePass.m_threshold o)
    [] (replicate (Z.to_nat (lutzOnePass.m_xpix o + 1)) lutzOnePass.NUL) []
    (replicate w []) (replicate w lutzOnePass.COMPLETE)
    (replicate w (-1)) (replicate w (-1)) (replicate w [])
    (lutzOnePass.m_PS o) (lutzOnePass.m_CS o) 0 0 O.

(** *** The size filter *)

(** The test of [WriteObject]: the vector holds a pixel and is not shorter
    than the minimum. *)
Definition kept (npixelmin : Z) (obj : lutzOnePass.Object) : bool :=
  negb (Nat.eqb (length obj) 0) && (to_size_t npixelmin <=? Z.of_nat (length obj)).

(** *** Vectors given by their contents *)

(** The vector of length [n] whose element [i] is [f i]. *)
Definition tab {A} (f : Z -> A) (n : Z) : list A := f <$> seqZ 0 n.

(** [f] with the value at [x] replaced by [v]. *)
Definition upd {A} (f : Z -> A) (x : Z) (v : A) : Z -> A :=
  fun i => if i =? x then v else f i.

(** An engine of width [w] whose vectors are given by their contents. *)
Definition engine (w h npixelmin : Z) (image : option (list float)) (threshold : float)
    (marker : Z -> ascii) (objects : list lutzObject.t)
    (store : Z -> lutzOnePass.Object) (psstack : Z -> lutzOnePass.LUTZSTATUS)
    (start end_ : Z -> Z) (info : Z -> lutzOnePass.Object)
    (ps cs : lutzOnePass.LUTZSTATUS) (co pstop : Z) : lutzOnePass.t :=
  lutzOnePass.mk w h npixelmin image threshold []
    (tab marker (w + 1)) objects (tab store w) (tab psstack w)
    (tab start w) (tab end_ w) (tab info w) ps cs co pstop O.

(** One round of the inner loop of [run], or, at [xindx = w], the visit of
    the position past the end of the row. *)
Definition scan_position (w yindx xindx : Z) (o : lutzOnePass.t) : outcome lutzOnePass.t :=
  if xindx <? w then lutzOnePass.scan_pixel yindx xindx o
  else
    prev_marker ← back (lutzOnePass.m_MARKER o);
    marker ← assign (lutzOnePass.m_MARKER o)
               (Z.of_nat (length (lutzOnePass.m_MARKER o)) - 1) lutzOnePass.NUL;
    lutzOnePass.no_pixel prev_marker w (lutzOnePass.with_MARKER marker o).

(** The positions [from .. to - 1] of row [y], visited in turn. *)
Definition span (w y from to : Z) (o : lutzOnePass.t) : outcome lutzOnePass.t :=
  lutzOnePass.for_ (Z.to_nat (to - from)) from (scan_position w y) o.

(** *** U shapes *)

(** A U: a bar in column [a] from row [t1], a bar in column [c] from row
    [t2], both ending on row [b], where the row from [a] to [c] joins them. *)
Definition in_U (a c t1 t2 b : Z) (p : Z * Z) : bool :=
  ((p.1 =? a) && (t1 <=? p.2) && (p.2 <=? b))
  || ((p.1 =? c) && (t2 <=? p.2) && (p.2 <=? b))
  || ((p.2 =? b) && (a <=? p.1) && (p.1 <=? c)).

(** The sample at a position of an image [w] wide. *)
Definition sample (image : list float) (w : Z) (x y : Z) : float :=
  default 0%float (image !! Z.to_nat (w * y + x)).

(** The pixel record that [run] builds at a position. *)
Definition pixel_at (image : list float) (w : Z) (x y : Z) : lutzObject.pixData :=
  lutzObject.mkPix x y (sample image w x y) 1%float.

(** [n] pixels down column [x] from row [y]; [n] pixels along row [y] from
    column [x]. *)
Definition column_pixels (image : list float) (w : Z) (x y n : Z) : list lutzObject.pixData :=
  (fun y' => pixel_at image w x y') <$> seqZ y n.
Definition row_pixels (image : list float) (w : Z) (y x n : Z) : list lutzObject.pixData :=
  (fun x' => pixel_at image w x' y) <$> seqZ x n.

(** The pixels of a U in the order in which they reach the object: the
    left bar, the joining row up to the right bar, the right bar, and the
    foot of the right bar. *)
Definition U_pixels (image : list float) (w : Z) (a c t1 t2 b : Z) : list lutzObject.pixData :=
  column_pixels image w a t1 (b - t1) ++ row_pixels image w b a (c - a)
  ++ column_pixels image w c t2 (b - t2) ++ [pixel_at image w c b].

(** The places [a], [c], [t1], [t2], [b] describe a U inside a [w] by [h]
    grid: two distinct bars with at least one column between them, each
    at least one pixel high above the joining row. *)
Definition U_fits (w h a c t1 t2 b : Z) : Prop :=
  0 <= a ∧ a + 2 <= c ∧ c < w ∧ 0 <= t1 < b ∧ 0 <= t2 < b ∧ b < h.

(** The markers that the scan of row [y] of a U leaves behind. *)
Definition U_marker (a c t1 t2 b y : Z) : Z -> ascii := fun i =>
  if y <? b then
    if (i =? a) && (t1 <=? y) then "S"%char
    else if (i =? a + 1) && (t1 <=? y) then "F"%char
    else if (i =? c) && (t2 <=? y) then "S"%char
    else if (i =? c + 1) && (t2 <=? y) then "F"%char
    else lutzOnePass.NUL
  else if y =? b then
    if i =? a then "S"%char else if i =? c + 1 then "F"%char else lutzOnePass.NUL
  else lutzOnePass.NUL.

(** The pending buffer after the scan of row [y] of a U. *)
Definition U_store (image : list float) (w a c t1 t2 b y : Z) : Z -> lutzOnePass.Object :=
  fun i =>
  if y <? b then
    if (i =? a) && (t1 <=? y) then column_pixels image w a t1 (y + 1 - t1)
    else if (i =? c) && (t2 <=? y) then column_pixels image w c t2 (y + 1 - t2)
    else []
  else if y =? b then
    if i =? a then U_pixels image w a c t1 t2 b else []
  else [].

(** The result list after the scan of row [y] of a U. *)
Definition U_objects (image : list float) (w a c t1 t2 b y : Z) : list lutzObject.t :=
  if b <? y then [lutzObject.of_pixels (U_pixels image w a c t1 t2 b)] else [].

(** The run joined two open slots through the 's' marker at least once. *)
Definition joined_under_s (o : lutzOnePass.t) : Prop := (0 < lutzOnePass.joins o)%nat.
(** ** Vocabulary of the further properties *)

(** The bounding box holds every stored pixel. *)
Definition box_encloses (o : lutzObject.t) : Prop :=
  Forall (fun p => lutzObject.m_xmin o <= lutzObject.m_xbin p <= lutzObject.m_xmax o ∧
                   lutzObject.m_ymin o <= lutzObject.m_ybin p <= lutzObject.m_ymax o)
         (lutzObject.m_pixInfo o).

(** The coordinates of a pixel are values of type [int]. *)
Definition int_position (p : lutzObject.pixData) : Prop :=
  INT_MIN <= lutzObject.m_xbin p <= INT_MAX ∧ INT_MIN <= lutzObject.m_ybin p <= INT_MAX.

(** The members of an engine that its caller sets. *)
Definition configuration (o : lutzOnePass.t)
    : Z * Z * Z * option (list float) * float :=
  (lutzOnePass.m_xpix o, lutzOnePass.m_ypix o, lutzOnePass.m_npixelmin o,
   lutzOnePass.m_image o, lutzOnePass.m_threshold o).

(** What [run] followed by [GetObjects] hands to the caller. *)
Definition objects_found (o : lutzOnePass.t) : outcome (list lutzObject.t) :=
  o' ← lutzOnePass.run o; Done (lutzOnePass.GetObjects o').

(** [p] is a pixel of the image of [o]: it lies in the grid, carries the
    value that the image has at its position, this value is above the
    threshold, and its scale is the initial 1.0. *)
Definition image_pixel (o : lutzOnePass.t) (p : lutzObject.pixData) : Prop :=
  0 <= lutzObject.m_xbin p < lutzOnePass.m_xpix o ∧
  0 <= lutzObject.m_ybin p < lutzOnePass.m_ypix o ∧
  lutzOnePass.GetPixValue (lutzObject.m_xbin p) (lutzObject.m_ybin p) o
    = Done (lutzObject.m_value p) ∧
  PrimFloat.ltb (lutzOnePass.m_threshold o) (lutzObject.m_value p) = true ∧
  lutzObject.m_scale p = 1%float.

(** An object built from a vector of image pixels that is not empty. *)
Definition emitted_from (o : lutzOnePass.t) (obj : lutzObject.t) : Prop :=
  ∃ pixels, pixels ≠ [] ∧ Forall (image_pixel o) pixels ∧
            obj = lutzObject.of_pixels pixels.

(** The engine [s] still has the configuration of [o0], and every pixel it
    holds, pending or in a result, is an image pixel of [o0]. *)
Definition sound (o0 s : lutzOnePass.t) : Prop :=
  configuration s = configuration o0 ∧
  Forall (Forall (image_pixel o0)) (lutzOnePass.m_INFO s) ∧
  Forall (Forall (image_pixel o0)) (lutzOnePass.m_STORE s) ∧
  Forall (emitted_from o0) (lutzOnePass.m_Objects s).

(** An operation that keeps the summary fields right: [remove] does not,
    and [append] does for coordinates strictly inside the sentinels. *)
Definition keeps_summary (op : object_op) : Prop :=
  match op with
  | op_append p => in_sentinels p
  | op_remove _ => False
  | op_clear => True
  end.

(** The pixels that the engine holds: those of the objects in the result
    list, those of the slots 0 .. [co] of [m_INFO], and those of
    [m_STORE]. *)
Definition reported (s : lutzOnePass.t) : list lutzObject.pixData :=
  concat (lutzObject.m_pixInfo <$> lutzOnePass.m_Objects s).

Definition pending (s : lutzOnePass.t) : list lutzObject.pixData :=
  concat (take (Z.to_nat (lutzOnePass.co s + 1)) (lutzOnePass.m_INFO s))
  ++ concat (lutzOnePass.m_STORE s).

Definition held (s : lutzOnePass.t) : list lutzObject.pixData :=
  reported s ++ pending s.

(** The position [p] comes before column [x] of row [y] in scan order. *)
Definition scanned_before (y x : Z) (p : Z * Z) : Prop :=
  p.2 < y ∨ (p.2 = y ∧ p.1 < x).

(** When the scan is about to visit column [x] of row [y]: no position is
    held twice, every held pixel has been scanned, and every object of the
    result list passed the size filter with the pixels it holds. *)
Definition tidy (y x : Z) (s : lutzOnePass.t) : Prop :=
  NoDup (lutzObject.position <$> held s) ∧
  Forall (scanned_before y x) (lutzObject.position <$> held s) ∧
  Forall (fun obj => kept (lutzOnePass.m_npixelmin s) (lutzObject.m_pixInfo obj) = true)
         (lutzOnePass.m_Objects s).

(** The positions of a vector of pixels, counted with multiplicity. *)
Definition bag (l : list lutzObject.pixData) : gmultiset (Z * Z) :=
  list_to_set_disj (lutzObject.position <$> l).

(** The engine between two positions of an image of [o] that holds no
    marker and no open segment. *)
Definition quiet (o s : lutzOnePass.t) : Prop :=
  configuration s = configuration o ∧
  lutzOnePass.m_MARKER s = replicate (Z.to_nat (lutzOnePass.m_xpix o + 1)) lutzOnePass.NUL ∧
  lutzOnePass.m_CS s = lutzOnePass.NONOBJECT.

(** *** Filled rectangles *)

(** The rectangle of the columns [a .. b] and the rows [t .. u]. *)
Definition in_block (a b t u : Z) (p : Z * Z) : bool :=
  (a <=? p.1) && (p.1 <=? b) && (t <=? p.2) && (p.2 <=? u).

(** The pixels of [n] rows from row [t] between the columns [a] and [b],
    row by row: the order in which they reach the object. *)
Definition block_pixels (image : list float) (w a b t n : Z) : list lutzObject.pixData :=
  y ← seqZ t n; row_pixels image w y a (b + 1 - a).

(** The rectangle lies inside a [w] by [h] grid of three columns or more. *)
Definition block_fits (w h a b t u : Z) : Prop :=
  2 < w ∧ 0 <= a <= b ∧ b < w ∧ 0 <= t <= u ∧ u < h.

(** The markers that the scan of row [y] of a rectangle leaves behind. *)
Definition block_marker (a b t u y : Z) : Z -> ascii := fun i =>
  if (t <=? y) && (y <=? u) then
    if i =? a then "S"%char else if i =? b + 1 then "F"%char else lutzOnePass.NUL
  else lutzOnePass.NUL.

(** The pending buffer after the scan of row [y] of a rectangle. *)
Definition block_store (image : list float) (w a b t u y : Z) : Z -> lutzOnePass.Object :=
  fun i =>
  if (t <=? y) && (y <=? u) && (i =? a) then block_pixels image w a b t (y + 1 - t)
  else [].

(** The result list after the scan of row [y] of a rectangle. *)
Definition block_objects (image : list float) (w a b t u y : Z) : list lutzObject.t :=
  if u <? y then [lutzObject.of_pixels (block_pixels image w a b t (u + 1 - t))] else [].

(** *** Scenes after the scan *)

(** The engine that [run] leaves; the engine itself where [run] fails. *)
Definition scanned (o : lutzOnePass.t) : lutzOnePass.t :=
  match lutzOnePass.run o with
  | Done o' => o'
  | _ => o
  end.

(** [two_blobs] with another minimum size. *)
Definition two_blobs_of_size (npixelmin : Z) : lutzOnePass.t :=
  scene 5 3 ["XX..X"; "X...X"; "....."]%string npixelmin.

Definition two_blobs_scanned : lutzOnePass.t := Eval vm_compute in scanned two_blobs.
Definition two_blobs_of_size_3_scanned : lutzOnePass.t :=
  Eval vm_compute in scanned (two_blobs_of_size 3).
Definition two_blobs_of_size_minus_1_scanned : lutzOnePass.t :=
  Eval vm_compute in scanned (two_blobs_of_size (-1)).

(** *** The minimum size as a filter *)

(** The object holds at least [npixelmin] pixels. *)
Definition at_least (npixelmin : Z) (obj : lutzObject.t) : bool :=
  npixelmin <=? lutzObject.size obj.

(** The engine [s] of a scan with minimum size 0, as the scan with the
    minimum [npixelmin] has it: the result list holds the objects of at
    least that size, and everything else is the same. *)
Definition with_minimum (npixelmin : Z) (s : lutzOnePass.t) : lutzOnePass.t :=
  lutzOnePass.with_Objects
    (List.filter (at_least npixelmin) (lutzOnePass.m_Objects s))
    (lutzOnePass.SetNPixelMin npixelmin s).

(** ** Facts about outcomes and vectors *)

Lemma at_lookup {A} (v : list A) (i : Z) (a : A) :
  0 <= i → v !! Z.to_nat i = Some a → at_ v i = Done a.
Proof.
  intros Hi Hv. unfold at_.
  destruct (Z.ltb_spec i 0) as [Hneg|_]; [lia|]. by rewrite Hv.
Qed.

Lemma at_outside {A} (v : list A) (i : Z) :
  i < 0 ∨ Z.of_nat (length v) <= i → at_ v i = Undefined OutOfRange.
Proof.
  intros Hi. unfold at_.
  destruct (Z.ltb_spec i 0) as [Hneg|Hpos]; [done|].
  rewrite lookup_ge_None_2; [done | lia].
Qed.

Lemma at_inside {A} (v : list A) (i : Z) :
  0 <= i < Z.of_nat (length v) → ∃ a, v !! Z.to_nat i = Some a ∧ at_ v i = Done a.
Proof.
  intros Hi.
  destruct (lookup_lt_is_Some_2 v (Z.to_nat i)) as [a Ha]; [lia|].
  exists a. split; [done|]. apply at_lookup; [lia | done].
Qed.

Lemma assign_inside {A} (v : list A) (i : Z) (a : A) :
  0 <= i < Z.of_nat (length v) → assign v i a = Done (<[Z.to_nat i := a]> v).
Proof.
  intros Hi. unfold assign.
  destruct (Z.ltb_spec i 0); [lia|].
  destruct (Z.leb_spec (Z.of_nat (length v)) i); [lia | done].
Qed.

Lemma assign_outside {A} (v : list A) (i : Z) (a : A) :
  i < 0 ∨ Z.of_nat (length v) <= i → assign v i a = Undefined OutOfRange.
Proof.
  intros Hi. unfold assign.
  destruct (Z.ltb_spec i 0); [done|].
  destruct (Z.leb_spec (Z.of_nat (length v)) i); [done | lia].
Qed.

Lemma at_replicate {A} (n : nat) (a : A) (i : Z) :
  0 <= i < Z.of_nat n → at_ (replicate n a) i = Done a.
Proof.
  intros Hi. apply at_lookup; [lia|].
  apply lookup_replicate_2. lia.
Qed.

Lemma at_insert_same {A} (v : list A) (i : Z) (a : A) :
  0 <= i < Z.of_nat (length v) → at_ (<[Z.to_nat i := a]> v) i = Done a.
Proof.
  intros Hi. apply at_lookup; [lia|].
  apply list_lookup_insert_eq. lia.
Qed.

Lemma at_insert_other {A} (v : list A) (i j : Z) (a : A) :
  0 <= i → 0 <= j → i ≠ j → at_ (<[Z.to_nat i := a]> v) j = at_ v j.
Proof.
  intros Hi Hj Hij. unfold at_.
  rewrite list_lookup_insert_ne; [done | lia].
Qed.

Lemma insert_replicate_same {A} (n : nat) (a : A) (i : nat) :
  <[i := a]> (replicate n a) = replicate n a.
Proof.
  destruct (decide (i < n)%nat) as [Hi|Hi].
  - apply list_insert_id. by apply lookup_replicate_2.
  - apply list_insert_ge. rewrite length_replicate. lia.
Qed.

(** ** Facts about lutzObject *)

Lemma contains_position (o : lutzObject.t) (p : lutzObject.pixData) :
  lutzObject.contains o p = true ↔ lutzObject.position p ∈ lutzObject.positions o.
Proof.
  unfold lutzObject.contains, lutzObject.positions. rewrite existsb_exists.
  split.
  - intros (q & Hq & Hsame). apply list_elem_of_fmap. exists q.
    apply list_elem_of_In in Hq. split; [|done].
    unfold lutzObject.same_position in Hsame.
    apply andb_true_iff in Hsame as [Hx Hy].
    apply Z.eqb_eq in Hx, Hy. unfold lutzObject.position. congruence.
  - intros (q & Heq & Hq)%list_elem_of_fmap. exists q.
    split; [by apply list_elem_of_In|].
    unfold lutzObject.position in Heq. injection Heq as Hx Hy.
    unfold lutzObject.same_position. rewrite Hx, Hy, !Z.eqb_refl. done.
Qed.

(** Appending a pixel whose position is already held changes nothing. *)
Lemma append_duplicate (o : lutzObject.t) (p : lutzObject.pixData) :
  lutzObject.position p ∈ lutzObject.positions o → lutzObject.append o p = o.
Proof.
  intros Hin. apply contains_position in Hin.
  unfold lutzObject.append. by rewrite Hin.
Qed.

Lemma append_fresh_pixels (o : lutzObject.t) (p : lutzObject.pixData) :
  lutzObject.position p ∉ lutzObject.positions o →
  lutzObject.m_pixInfo (lutzObject.append o p) = lutzObject.m_pixInfo o ++ [p].
Proof.
  intros Hnin. unfold lutzObject.append.
  destruct (lutzObject.contains o p) eqn:Hc; [|done].
  by apply contains_position in Hc.
Qed.

(** After [append] the position of the pixel is held, whichever branch ran. *)
Lemma append_holds (o : lutzObject.t) (p : lutzObject.pixData) :
  lutzObject.position p ∈ lutzObject.positions (lutzObject.append o p).
Proof.
  unfold lutzObject.append.
  destruct (lutzObject.contains o p) eqn:Hc.
  - by apply contains_position.
  - unfold lutzObject.positions. simpl. rewrite fmap_app. set_solver.
Qed.

Lemma append_keeps (o : lutzObject.t) (p : lutzObject.pixData) (q : Z * Z) :
  q ∈ lutzObject.positions o → q ∈ lutzObject.positions (lutzObject.append o p).
Proof.
  intros Hq. unfold lutzObject.append.
  destruct (lutzObject.contains o p); [done|].
  unfold lutzObject.positions in *. simpl. rewrite fmap_app. set_solver.
Qed.

Lemma append_positions (o : lutzObject.t) (p : lutzObject.pixData) (q : Z * Z) :
  q ∈ lutzObject.positions (lutzObject.append o p) →
  q ∈ lutzObject.positions o ∨ q = lutzObject.position p.
Proof.
  unfold lutzObject.append.
  destruct (lutzObject.contains o p); [by left|].
  unfold lutzObject.positions. simpl. rewrite fmap_app. set_solver.
Qed.

Lemma append_all_positions (pixels : list lutzObject.pixData) (o : lutzObject.t) (q : Z * Z) :
  q ∈ lutzObject.positions (lutzObject.append_all o pixels) ↔
  q ∈ lutzObject.positions o ∨ q ∈ lutzObject.position <$> pixels.
Proof.
  unfold lutzObject.append_all.
  revert o. induction pixels as [|p pixels IH]; intros o; simpl.
  - set_solver.
  - rewrite IH. split.
    + intros [H|H]; [|set_solver].
      apply append_positions in H. set_solver.
    + intros [H|[->|H]%elem_of_cons]; [left; by apply append_keeps | left; apply append_holds | by right].
Qed.

(** *** Summary fields under [append] and [clear] *)

Lemma value_total_snoc (l : list lutzObject.pixData) (p : lutzObject.pixData) :
  value_total (l ++ [p]) = PrimFloat.add (value_total l) (lutzObject.m_value p).
Proof. unfold value_total. by rewrite fold_left_app. Qed.

Lemma least_first (f : lutzObject.pixData -> Z) (p : lutzObject.pixData) :
  least f [p] (f p).
Proof.
  split; [exists p; set_solver|].
  intros q ->%list_elem_of_singleton. lia.
Qed.

Lemma greatest_first (f : lutzObject.pixData -> Z) (p : lutzObject.pixData) :
  greatest f [p] (f p).
Proof.
  split; [exists p; set_solver|].
  intros q ->%list_elem_of_singleton. lia.
Qed.

Lemma least_snoc (f : lutzObject.pixData -> Z) l p m :
  least f l m → least f (l ++ [p]) (if f p <? m then f p else m).
Proof.
  intros [(q & Hq & Hfq) Hall].
  destruct (Z.ltb_spec (f p) m) as [Hlt|Hge]; split.
  - exists p. set_solver.
  - intros r [Hr| ->%list_elem_of_singleton]%elem_of_app; [|lia].
    specialize (Hall r Hr). lia.
  - exists q. set_solver.
  - intros r [Hr| ->%list_elem_of_singleton]%elem_of_app; [|lia].
    by apply Hall.
Qed.

Lemma greatest_snoc (f : lutzObject.pixData -> Z) l p m :
  greatest f l m → greatest f (l ++ [p]) (if m <? f p then f p else m).
Proof.
  intros [(q & Hq & Hfq) Hall].
  destruct (Z.ltb_spec m (f p)) as [Hlt|Hge]; split.
  - exists p. set_solver.
  - intros r [Hr| ->%list_elem_of_singleton]%elem_of_app; [|lia].
    specialize (Hall r Hr). lia.
  - exists q. set_solver.
  - intros r [Hr| ->%list_elem_of_singleton]%elem_of_app; [|lia].
    by apply Hall.
Qed.

Lemma summary_kept_clear : summary_kept lutzObject.clear.
Proof.
  split; [done|]. split; [intros H; by contradict H|]. split; [done|]. constructor.
Qed.

Lemma summary_kept_append (o : lutzObject.t) (p : lutzObject.pixData) :
  in_sentinels p → summary_kept o → summary_kept (lutzObject.append o p).
Proof.
  intros [Hx Hy] (Hempty & Hbox & Hsum & Hin).
  unfold lutzObject.append.
  destruct (lutzObject.contains o p); [done|].
  split; [|split; [|split]].
  - simpl. by intros ?%app_nil_r_inv.
  - intros _. simpl.
    destruct (decide (lutzObject.m_pixInfo o = [])) as [Hl|Hl].
    + rewrite (Hempty Hl). simpl.
      destruct (Z.ltb_spec (lutzObject.m_xbin p) 10000000); [|lia].
      destruct (Z.ltb_spec (-10000000) (lutzObject.m_xbin p)); [|lia].
      destruct (Z.ltb_spec (lutzObject.m_ybin p) 10000000); [|lia].
      destruct (Z.ltb_spec (-10000000) (lutzObject.m_ybin p)); [|lia].
      auto using least_first, greatest_first.
    + destruct (Hbox Hl) as (H1 & H2 & H3 & H4).
      auto using least_snoc, greatest_snoc.
  - simpl. by rewrite value_total_snoc, Hsum.
  - simpl. apply Forall_app. split; [done|]. apply Forall_singleton. by split.
Qed.

(** Sequences of [append] (of pixels inside the sentinels) and [clear],
    from any object built that way, keep the bounding box exact and the
    sum equal to the total of the stored values. *)
Lemma summary_kept_without_remove (ops : list object_op) (o : lutzObject.t) :
  Forall (fun op => match op with
                    | op_append p => in_sentinels p
                    | op_remove _ => False
                    | op_clear => True
                    end) ops →
  summary_kept o →
  ∃ o', apply_ops o ops = Done o' ∧ summary_kept o'.
Proof.
  intros Hops. revert o.
  induction Hops as [|op ops Hop _ IH]; intros o Ho; simpl.
  - by exists o.
  - destruct op as [p|i|]; simpl; [|done|].
    + apply IH. by apply summary_kept_append.
    + apply IH. apply summary_kept_clear.
Qed.

(** ** C6: summary fields of an object *)

(** C6 (the code departs from the claim).  The claim: after every sequence
    of append, remove and clear the summary fields equal the aggregates
    over the stored pixels.  [remove] takes the value off the sum and
    erases the pixel, but leaves the bounds as they were: after appending
    (0,0) and (5,7) and removing the latter, the object holds the single
    position (0,0) while [m_xmax] is still 5, [m_ymax] still 7 and
    [m_value_max] still 2, so the bounding box is not exact. *)
Theorem remove_keeps_stale_bounds :
  ∃ o, apply_ops lutzObject.clear append_append_remove = Done o ∧
       lutzObject.positions o = [(0, 0)] ∧
       lutzObject.m_xmax o = 5 ∧ lutzObject.m_ymax o = 7 ∧
       lutzObject.m_value_max o = 2%float ∧
       ¬ bounding_box_exact o.
Proof.
  eexists. split; [vm_compute; reflexivity|].
  repeat split; try reflexivity.
  intros Hbox. unfold bounding_box_exact in Hbox. simpl in Hbox.
  destruct Hbox as (_ & [(p & Hp & Hfp) _] & _); [done|].
  apply list_elem_of_singleton in Hp. subst p. simpl in Hfp. lia.
Qed.

(** ** C9: the weighted centroid and its fallback *)

Lemma centroid_unfold (fuel : nat) (o : lutzObject.t) (weight_bins : bool) :
  lutzObject.centroid (S fuel) o weight_bins =
  if PrimFloat.ltb 0%float (weight_sum o weight_bins)
  then Some (PrimFloat.div (lutzObject.centroid_sums o weight_bins).1.1
                           (weight_sum o weight_bins),
             PrimFloat.div (lutzObject.centroid_sums o weight_bins).1.2
                           (weight_sum o weight_bins))
  else lutzObject.centroid fuel o false.
Proof.
  unfold weight_sum. simpl.
  destruct (lutzObject.centroid_sums o weight_bins) as [[xc yc] ws]. done.
Qed.

(** The loop of [centroid] and the three sums it stands for.  The running
    triple of the loop, started anywhere, is the triple of the three sums
    started at the same place. *)
Lemma centroid_loop_sums (weight_bins : bool) (pixels : list lutzObject.pixData)
    (x y ws : float) :
  fold_left (lutzObject.centroid_step weight_bins) pixels (x, y, ws) =
  (fold_left PrimFloat.add
     ((λ p, PrimFloat.mul (mode_weight weight_bins p)
                          (int_to_double (lutzObject.m_xbin p))) <$> pixels) x,
   fold_left PrimFloat.add
     ((λ p, PrimFloat.mul (mode_weight weight_bins p)
                          (int_to_double (lutzObject.m_ybin p))) <$> pixels) y,
   fold_left PrimFloat.add (mode_weight weight_bins <$> pixels) ws).
Proof.
  revert x y ws. induction pixels as [|p pixels IH]; intros x y ws; [done|].
  rewrite !fmap_cons. cbn [fold_left]. rewrite <- IH.
  f_equal. by destruct weight_bins.
Qed.

Lemma centroid_sums_totals (o : lutzObject.t) (weight_bins : bool) :
  lutzObject.centroid_sums o weight_bins =
  (weighted_x_total (mode_weight weight_bins) o,
   weighted_y_total (mode_weight weight_bins) o,
   weight_total (mode_weight weight_bins) o).
Proof. apply centroid_loop_sums. Qed.

(** What one activation of [centroid] does, in terms of the average
    position. *)
Lemma centroid_average (fuel : nat) (o : lutzObject.t) (weight_bins : bool) :
  lutzObject.centroid (S fuel) o weight_bins =
  if PrimFloat.ltb 0%float (weight_total (mode_weight weight_bins) o)
  then Some (average_position (mode_weight weight_bins) o)
  else lutzObject.centroid fuel o false.
Proof.
  rewrite centroid_unfold. unfold weight_sum, average_position.
  by rewrite centroid_sums_totals.
Qed.

(** C9 (as stated, refuted).  For the object [negative_pair] the weighted
    denominator is -4, which is not zero, and the value-weighted average is
    (3,1); [centroid] with [weight_bins = true] returns the unweighted
    (2,1) instead, however many activations it is given. *)
Lemma centroid_negative_denominator :
  weight_total value_weight negative_pair = (-4)%float ∧
  PrimFloat.eqb (weight_total value_weight negative_pair) 0%float = false ∧
  average_position value_weight negative_pair = (3%float, 1%float) ∧
  lutzObject.centroid 2 negative_pair true = Some (2%float, 1%float) ∧
  ∀ fuel, lutzObject.centroid fuel negative_pair true
          ≠ Some (average_position value_weight negative_pair).
Proof.
  split; [reflexivity|]. split; [reflexivity|].
  split; [reflexivity|]. split; [reflexivity|].
  intros [|[|fuel]]; [discriminate | discriminate |].
  vm_compute. discriminate.
Qed.

(** C9 (amended).  With [weight_bins = true], [centroid] returns the
    value-weighted average position (per axis, the sum of
    scale*value*coordinate divided by the sum of scale*value, the sums
    taken in storage order) whenever the weighted denominator is strictly
    above zero, and otherwise (zero, negative or not a number) it returns
    exactly what the unweighted computation returns.  The unweighted
    computation weighs by the scale alone: it returns the sum of
    scale*coordinate divided by the sum of the scales whenever that sum is
    strictly above zero. *)
Theorem centroid_weighted_or_fallback (o : lutzObject.t) (fuel : nat) :
  (PrimFloat.ltb 0%float (weight_total value_weight o) = true →
   lutzObject.centroid (S fuel) o true = Some (average_position value_weight o)) ∧
  (PrimFloat.ltb 0%float (weight_total value_weight o) = false →
   lutzObject.centroid (S fuel) o true = lutzObject.centroid fuel o false) ∧
  (PrimFloat.ltb 0%float (weight_total scale_weight o) = true →
   lutzObject.centroid (S fuel) o false = Some (average_position scale_weight o)).
Proof.
  rewrite !centroid_average. cbn [mode_weight].
  split; [|split]; intros ->; reflexivity.
Qed.

Lemma centroid_weighted_or_fallback_witness :
  lutzObject.centroid 1 uneven_pair true = Some (3%float, 2.5%float) ∧
  lutzObject.centroid 2 negative_pair true = lutzObject.centroid 1 negative_pair false ∧
  lutzObject.centroid 1 uneven_pair false = Some (2%float, 2%float).
Proof.
  split; [|split].
  - apply (proj1 (centroid_weighted_or_fallback uneven_pair 0)). reflexivity.
  - apply (proj1 (proj2 (centroid_weighted_or_fallback negative_pair 1))). reflexivity.
  - apply (proj2 (proj2 (centroid_weighted_or_fallback uneven_pair 0))). reflexivity.
Defined.

(** ** C10: termination of the centroid *)

(** C10 (as stated, refuted).  [mixed_scales] holds a pixel whose scale is
    strictly positive, yet its scales sum to -1, so the unweighted
    computation falls back to itself for ever, and so does the weighted
    one. *)
Lemma centroid_mixed_scales_diverges :
  (∃ p, p ∈ lutzObject.m_pixInfo mixed_scales ∧
        PrimFloat.ltb 0%float (lutzObject.m_scale p) = true) ∧
  diverges mixed_scales true ∧ diverges mixed_scales false.
Proof.
  split.
  - exists (lutzObject.pixData_new 0 0 1%float). split; [|reflexivity].
    vm_compute. apply list_elem_of_here.
  - assert (Hfalse : diverges mixed_scales false).
    { intros fuel. induction fuel as [|fuel IH]; [done|].
      rewrite centroid_unfold. exact IH. }
    split; [|done].
    intros [|fuel]; [done|]. rewrite centroid_unfold. apply Hfalse.
Qed.

(** C10 (amended).  For every object whose weight-scales add up, in storage
    order, to a value strictly above zero, [centroid] returns in both
    modes, and it falls back from the weighted to the unweighted
    computation at most once: two activations always suffice, and more
    change nothing. *)
Theorem centroid_returns (o : lutzObject.t) (weight_bins : bool) :
  PrimFloat.ltb 0%float (weight_sum o false) = true →
  ∃ r, returns_within 2 o weight_bins r ∧
       ∀ fuel, (2 <= fuel)%nat → lutzObject.centroid fuel o weight_bins = Some r.
Proof.
  intros Hpos. unfold returns_within.
  destruct (PrimFloat.ltb 0%float (weight_sum o weight_bins)) eqn:Hw.
  - eexists. split.
    + by rewrite centroid_unfold, Hw.
    + intros [|fuel] Hfuel; [lia|]. by rewrite centroid_unfold, Hw.
  - eexists. split.
    + by rewrite centroid_unfold, Hw, centroid_unfold, Hpos.
    + intros [|[|fuel]] Hfuel; [lia | lia |].
      by rewrite centroid_unfold, Hw, centroid_unfold, Hpos.
Qed.

Lemma centroid_returns_witness :
  PrimFloat.ltb 0%float (weight_sum negative_pair false) = true ∧
  ∃ r, returns_within 2 negative_pair true r ∧
       ∀ fuel, (2 <= fuel)%nat → lutzObject.centroid fuel negative_pair true = Some r.
Proof.
  split; [reflexivity|].
  apply (centroid_returns negative_pair true). reflexivity.
Defined.

(** ** The embedding at work *)

Example found_two_blobs :
  found two_blobs = Done [[(0,0); (1,0); (0,1)]; [(4,0); (4,1)]].
Proof. reflexivity. Qed.

Example found_small_U :
  found small_U = Done [[(0,0); (0,1); (1,1); (2,0); (2,1)]].
Proof. reflexivity. Qed.

Example found_hook :
  found (hook 0) = Done [[(0,0); (1,0); (2,0); (3,0); (0,1); (3,1); (3,2)]].
Proof. reflexivity. Qed.

Example block3_summary :
  (lutzObject.m_xmin block3, lutzObject.m_xmax block3,
   lutzObject.m_ymin block3, lutzObject.m_ymax block3) = (1, 3, 1, 3) ∧
  lutzObject.m_value_sum block3 = 9%float ∧
  lutzObject.centroid 1 block3 true = Some (2%float, 2%float) ∧
  lutzObject.centroid 1 block3 false = Some (2%float, 2%float).
Proof. repeat split; reflexivity. Qed.

(** ** Facts about the engine *)

Lemma init_members_Done (o : lutzOnePass.t) :
  0 <= lutzOnePass.m_xpix o < INT_MAX →
  lutzOnePass.run o =
  (o' ← lutzOnePass.for_ (Z.to_nat (lutzOnePass.m_ypix o)) 0 lutzOnePass.scan_row (initialised o);
   Done (lutzOnePass.StoreClearance o')).
Proof.
  intros Hw. unfold lutzOnePass.run, lutzOnePass.init_members, int_result, vector_n, INT_MIN, INT_MAX in *.
  destruct (Z.leb_spec (-2147483648) (lutzOnePass.m_xpix o + 1)); [|lia].
  destruct (Z.leb_spec (lutzOnePass.m_xpix o + 1) 2147483647); [|lia].
  simpl.
  destruct (Z.ltb_spec (lutzOnePass.m_xpix o + 1) 0); [lia|].
  destruct (Z.ltb_spec (lutzOnePass.m_xpix o) 0); [lia|].
  reflexivity.
Qed.

Lemma init_members_Throws (o : lutzOnePass.t) :
  INT_MIN <= lutzOnePass.m_xpix o < 0 →
  lutzOnePass.run o = Throws length_error.
Proof.
  intros Hw. unfold lutzOnePass.run, lutzOnePass.init_members, int_result, vector_n, INT_MIN, INT_MAX in *.
  destruct (Z.leb_spec (-2147483648) (lutzOnePass.m_xpix o + 1)); [|lia].
  destruct (Z.leb_spec (lutzOnePass.m_xpix o + 1) 2147483647); [|lia].
  simpl.
  destruct (Z.ltb_spec (lutzOnePass.m_xpix o + 1) 0); [done|].
  simpl.
  destruct (Z.ltb_spec (lutzOnePass.m_xpix o) 0); [done|lia].
Qed.

Lemma WriteObject_empty (o : lutzOnePass.t) : lutzOnePass.WriteObject [] o = o.
Proof. reflexivity. Qed.

Lemma WriteObject_all_empty (n : nat) (o : lutzOnePass.t) :
  fold_left (fun o obj => lutzOnePass.WriteObject obj o) (replicate n []) o = o.
Proof. induction n as [|n IH]; [done|]. simpl. exact IH. Qed.

(** [WriteObject] appends the object built from the vector when the vector
    passes the size filter, and otherwise changes nothing. *)
Lemma WriteObject_kept (obj : lutzOnePass.Object) (o : lutzOnePass.t) :
  lutzOnePass.WriteObject obj o =
  if kept (lutzOnePass.m_npixelmin o) obj
  then lutzOnePass.with_Objects (lutzOnePass.m_Objects o ++ [lutzObject.of_pixels obj]) o
  else o.
Proof. reflexivity. Qed.

(** For a minimum that is not negative the filter compares the length of
    the vector with the minimum itself. *)
Lemma kept_spec (npixelmin : Z) (obj : lutzOnePass.Object) :
  0 <= npixelmin < 2 ^ 64 →
  kept npixelmin obj = true ↔ obj ≠ [] ∧ npixelmin <= Z.of_nat (length obj).
Proof.
  intros Hm. unfold kept, to_size_t. rewrite Z.mod_small by done.
  rewrite andb_true_iff, negb_true_iff, Nat.eqb_neq, Z.leb_le.
  destruct obj; simpl; split; intros [H1 H2]; split; done || lia.
Qed.

(** The final flush writes every vector of the pending buffer that passes
    the size filter, in the order of the columns, and empties the buffer. *)
Lemma StoreClearance_flushes (o : lutzOnePass.t) :
  lutzOnePass.m_Objects (lutzOnePass.StoreClearance o) =
  lutzOnePass.m_Objects o
  ++ (lutzObject.of_pixels <$> List.filter (kept (lutzOnePass.m_npixelmin o)) (lutzOnePass.m_STORE o)) ∧
  Forall (fun obj => obj = []) (lutzOnePass.m_STORE (lutzOnePass.StoreClearance o)).
Proof.
  split.
  - unfold lutzOnePass.StoreClearance. simpl.
    generalize (lutzOnePass.m_STORE o). intros l. revert o.
    induction l as [|obj l IH]; intros o; simpl.
    + by rewrite app_nil_r.
    + rewrite IH, WriteObject_kept.
      destruct (kept (lutzOnePass.m_npixelmin o) obj); simpl; [|done].
      by rewrite <- app_assoc.
  - unfold lutzOnePass.StoreClearance. simpl.
    apply Forall_forall. by intros obj [-> _]%elem_of_replicate.
Qed.

(** A row of width zero: only the position past the end is visited. *)
Lemma scan_row_width_zero (yindx : Z) (o : lutzOnePass.t) :
  lutzOnePass.m_xpix o = 0 → lutzOnePass.m_MARKER o = [lutzOnePass.NUL] →
  lutzOnePass.scan_row yindx o =
  Done (lutzOnePass.with_MARKER [lutzOnePass.NUL]
          (lutzOnePass.with_CS lutzOnePass.NONOBJECT
             (lutzOnePass.with_PS lutzOnePass.COMPLETE o))).
Proof.
  intros Hw Hm. unfold lutzOnePass.scan_row. simpl. rewrite Hw. simpl.
  rewrite Hm. reflexivity.
Qed.

Lemma rows_width_zero (n : nat) (yindx : Z) (o : lutzOnePass.t) :
  lutzOnePass.m_xpix o = 0 → lutzOnePass.m_MARKER o = [lutzOnePass.NUL] →
  ∃ o', lutzOnePass.for_ n yindx lutzOnePass.scan_row o = Done o' ∧
        lutzOnePass.m_Objects o' = lutzOnePass.m_Objects o ∧
        lutzOnePass.m_STORE o' = lutzOnePass.m_STORE o.
Proof.
  revert yindx o. induction n as [|n IH]; intros yindx o Hw Hm; simpl.
  - by exists o.
  - rewrite scan_row_width_zero by done. simpl.
    destruct (IH (yindx + 1)
                (lutzOnePass.with_MARKER [lutzOnePass.NUL]
                   (lutzOnePass.with_CS lutzOnePass.NONOBJECT
                      (lutzOnePass.with_PS lutzOnePass.COMPLETE o))))
      as (o' & Hrun & Hobj & Hstore); [done | done |].
    exists o'. by rewrite Hrun.
Qed.

(** ** C7: configurations without a grid *)

(** C7 (as stated, refuted).  The default-constructed engine has width 0,
    height 0 and a null image; [run] returns normally with an empty result
    list and raises nothing. *)
Lemma run_default_returns :
  (∃ o, lutzOnePass.run lutzOnePass.create_default = Done o ∧
        lutzOnePass.m_Objects o = []) ∧
  ∀ e, lutzOnePass.run lutzOnePass.create_default ≠ Throws e.
Proof.
  split; [eexists; split; reflexivity|]. intros e. discriminate.
Qed.

(** C7 (amended).  [run] validates nothing.  With a width of zero, or a
    height that is not positive over a width that is not negative, it
    returns normally and the result list is empty.  With a negative width
    the allocation in [init_members] throws [std::length_error] before any
    position is scanned.  With a null image and positive dimensions the
    first pixel read dereferences the null pointer, which is undefined
    behaviour and not a reported error.  In none of these cases does the
    result list hold an object. *)
Theorem run_without_validation (o : lutzOnePass.t) :
  INT_MIN <= lutzOnePass.m_xpix o < INT_MAX →
  (lutzOnePass.m_xpix o = 0 ∨ (0 <= lutzOnePass.m_xpix o ∧ lutzOnePass.m_ypix o <= 0) →
   ∃ o', lutzOnePass.run o = Done o' ∧ lutzOnePass.m_Objects o' = []) ∧
  (lutzOnePass.m_xpix o < 0 → lutzOnePass.run o = Throws length_error) ∧
  (lutzOnePass.m_image o = None → 0 < lutzOnePass.m_xpix o → 0 < lutzOnePass.m_ypix o →
   lutzOnePass.run o = Undefined NullPointer).
Proof.
  intros Hint. split; [|split].
  - intros Hcfg. rewrite init_members_Done by lia.
    assert (∃ o', lutzOnePass.for_ (Z.to_nat (lutzOnePass.m_ypix o)) 0
                    lutzOnePass.scan_row (initialised o) = Done o' ∧
                  lutzOnePass.m_Objects o' = [] ∧
                  lutzOnePass.m_STORE o' = replicate (Z.to_nat (lutzOnePass.m_xpix o)) [])
      as (o' & Hrun & Hobj & Hstore).
    { destruct (decide (lutzOnePass.m_xpix o = 0)) as [Hw|Hw].
      - apply rows_width_zero; simpl; [done|]. by rewrite Hw.
      - replace (Z.to_nat (lutzOnePass.m_ypix o)) with O by lia.
        by eexists. }
    rewrite Hrun. simpl. eexists. split; [done|].
    unfold lutzOnePass.StoreClearance. simpl.
    rewrite Hstore, WriteObject_all_empty. done.
  - intros Hneg. apply init_members_Throws. lia.
  - intros Himg Hw Hh. rewrite init_members_Done by lia.
    destruct (Z.to_nat (lutzOnePass.m_ypix o)) as [|n] eqn:Hn; [lia|].
    simpl. unfold lutzOnePass.scan_row. simpl.
    destruct (Z.to_nat (lutzOnePass.m_xpix o)) as [|m] eqn:Hm; [lia|].
    simpl. unfold lutzOnePass.scan_pixel, lutzOnePass.GetPixValue, int_result.
    simpl. rewrite Z.mul_0_r. simpl. rewrite Himg. reflexivity.
Qed.

Lemma run_without_validation_witness :
  (∃ o', lutzOnePass.run (scene 0 3 [] 0) = Done o' ∧ lutzOnePass.m_Objects o' = []) ∧
  lutzOnePass.run (scene (-2) 3 [] 0) = Throws length_error ∧
  lutzOnePass.run (lutzOnePass.create None 2 2 0%float 0) = Undefined NullPointer.
Proof.
  split; [|split].
  - apply (run_without_validation (scene 0 3 [] 0)); [vm_compute; split; [discriminate | reflexivity]|].
    left. reflexivity.
  - apply (run_without_validation (scene (-2) 3 [] 0)); [vm_compute; split; [discriminate | reflexivity]|].
    reflexivity.
  - apply (run_without_validation (lutzOnePass.create None 2 2 0%float 0));
      [vm_compute; split; [discriminate | reflexivity] | reflexivity | reflexivity | reflexivity].
Defined.

(** ** C8: access to a found object *)

(** C8 (as stated, refuted).  On an engine without objects [GetObject(0)]
    is an unchecked access outside the vector: undefined behaviour, and no
    error is reported. *)
Lemma GetObject_unchecked :
  lutzOnePass.NumObjects lutzOnePass.create_default = 0 ∧
  lutzOnePass.GetObject 0 lutzOnePass.create_default = Undefined OutOfRange ∧
  ∀ e, lutzOnePass.GetObject 0 lutzOnePass.create_default ≠ Throws e.
Proof. split; [done|]. split; [done|]. intros e. discriminate. Qed.

(** C8 (amended).  [GetObject(i)] indexes the result list without a bounds
    check: for [i] in [0, NumObjects()) it returns the i-th stored object,
    and for every other [i] the access is undefined behaviour; no index
    error is reported. *)
Theorem GetObject_in_range (o : lutzOnePass.t) (i : Z) :
  (0 <= i < lutzOnePass.NumObjects o →
   ∃ obj, lutzOnePass.GetObjects o !! Z.to_nat i = Some obj ∧
          lutzOnePass.GetObject i o = Done obj) ∧
  (i < 0 ∨ lutzOnePass.NumObjects o <= i →
   lutzOnePass.GetObject i o = Undefined OutOfRange).
Proof.
  unfold lutzOnePass.NumObjects, lutzOnePass.GetObject, lutzOnePass.GetObjects.
  split; [apply at_inside | apply at_outside].
Qed.

Lemma GetObject_in_range_witness :
  (∃ obj, lutzOnePass.GetObjects (lutzOnePass.with_Objects [block3] lutzOnePass.create_default)
            !! Z.to_nat 0 = Some obj ∧
          lutzOnePass.GetObject 0 (lutzOnePass.with_Objects [block3] lutzOnePass.create_default)
          = Done obj) ∧
  lutzOnePass.GetObject 1 (lutzOnePass.with_Objects [block3] lutzOnePass.create_default)
  = Undefined OutOfRange.
Proof.
  split.
  - apply (proj1 (GetObject_in_range
                    (lutzOnePass.with_Objects [block3] lutzOnePass.create_default) 0)).
    vm_compute. split; [discriminate | reflexivity].
  - apply (proj2 (GetObject_in_range
                    (lutzOnePass.with_Objects [block3] lutzOnePass.create_default) 1)).
    right. vm_compute. discriminate.
Defined.

(** ** Connectivity: the flood decides [connected8] *)

Lemma mem_pos_elem (p : Z * Z) (l : list (Z * Z)) : mem_pos p l = true ↔ p ∈ l.
Proof.
  unfold mem_pos. rewrite existsb_exists. split.
  - intros (q & Hq & Heq). apply andb_true_iff in Heq as [Hx Hy].
    apply Z.eqb_eq in Hx, Hy. apply list_elem_of_In in Hq.
    destruct p, q; simpl in *; by subst.
  - intros Hp. exists p. split; [by apply list_elem_of_In|].
    by rewrite !Z.eqb_refl.
Qed.

Lemma adjacent8b_spec (p q : Z * Z) : adjacent8b p q = true ↔ adjacent8 p q.
Proof.
  unfold adjacent8b, adjacent8. destruct p as [px py], q as [qx qy]; simpl.
  rewrite !andb_true_iff, negb_true_iff, andb_false_iff, !Z.leb_le, !Z.eqb_neq.
  split.
  - intros [[Hne Hx] Hy]. split; [|done]. intros [= -> ->]. lia.
  - intros (Hne & Hx & Hy). split; [split|]; [|done|done].
    destruct (decide (px = qx)) as [->|]; [|by left].
    right. intros ->. done.
Qed.

Lemma adjacent8_sym (p q : Z * Z) : adjacent8 p q → adjacent8 q p.
Proof. unfold adjacent8. intros (Hne & Hx & Hy). split; [done|]. lia. Qed.

Lemma link8_sym (l : list (Z * Z)) (p q : Z * Z) : link8 l p q → link8 l q p.
Proof. intros (Hp & Hq & Hadj). split; [done|]. split; [done|]. by apply adjacent8_sym. Qed.

Lemma link8_rtc_sym (l : list (Z * Z)) (p q : Z * Z) :
  rtc (link8 l) p q → rtc (link8 l) q p.
Proof.
  induction 1 as [|p r q Hpr _ IH]; [done|].
  eapply rtc_r; [exact IH | by apply link8_sym].
Qed.

Lemma flood_step_reached (l s : list (Z * Z)) (p : Z * Z) :
  (∀ q, q ∈ s → q ∈ l ∧ rtc (link8 l) p q) →
  ∀ q, q ∈ flood_step l s → q ∈ l ∧ rtc (link8 l) p q.
Proof.
  intros Hs q Hq. unfold flood_step in Hq.
  apply list_elem_of_In, filter_In in Hq as [Hql Hq].
  apply list_elem_of_In in Hql. split; [done|].
  apply orb_true_iff in Hq as [Hq|Hq].
  - apply mem_pos_elem in Hq. by apply Hs.
  - apply existsb_exists in Hq as (r & Hr & Hadj).
    apply list_elem_of_In in Hr. apply adjacent8b_spec in Hadj.
    destruct (Hs r Hr) as [Hrl Hpr].
    eapply rtc_r; [exact Hpr | done].
Qed.

Lemma flood_reached (n : nat) (l s : list (Z * Z)) (p : Z * Z) :
  (∀ q, q ∈ s → q ∈ l ∧ rtc (link8 l) p q) →
  ∀ q, q ∈ flood n l s → q ∈ l ∧ rtc (link8 l) p q.
Proof.
  revert s. induction n as [|n IH]; intros s Hs; simpl; [done|].
  apply IH. by apply flood_step_reached.
Qed.

Lemma connected8b_sound (l : list (Z * Z)) : connected8b l = true → connected8 l.
Proof.
  destruct l as [|p0 l']; [intros _ p q Hp; by apply elem_of_nil in Hp|].
  unfold connected8b. rewrite forallb_forall. intros Hall.
  set (l := p0 :: l') in *.
  assert (Hreach : ∀ q, q ∈ l → rtc (link8 l) p0 q).
  { intros q Hq. apply list_elem_of_In, Hall, mem_pos_elem in Hq.
    eapply flood_reached; [|exact Hq].
    intros r ->%list_elem_of_singleton. split; [apply list_elem_of_here | done]. }
  intros p q Hp Hq. etrans; [apply link8_rtc_sym|]; by apply Hreach.
Qed.

(** A position of [l] without a neighbour in [l] cuts [l] apart as soon as
    [l] holds another position. *)
Lemma isolated_not_connected8 (l : list (Z * Z)) (p q : Z * Z) :
  p ∈ l → q ∈ l → p ≠ q →
  forallb (fun r => negb (adjacent8b p r)) l = true →
  ¬ connected8 l.
Proof.
  intros Hp Hq Hne Hiso Hconn.
  destruct (Hconn p q Hp Hq) as [|p r q (_ & Hr & Hadj) _]; [done|].
  rewrite forallb_forall in Hiso.
  apply list_elem_of_In, Hiso, negb_true_iff in Hr.
  apply adjacent8b_spec in Hadj. congruence.
Qed.

(** ** C5: the index ranges of the auxiliary vectors *)

(** C5 (the code departs from the claim).  The claim: for every grid of
    width [w >= 1] all accesses to the width-sized vectors stay in bounds.
    Slots are numbered from 1: the first foreground pixel makes
    [ModOBSTACK(PUSH)] raise [co] to 1 and write [m_START[1]].  In a grid
    of width 1 the vector has the single index 0, so the write is outside
    it and [run] has undefined behaviour. *)
Theorem single_pixel_out_of_range :
  let row_start :=
    lutzOnePass.with_CS lutzOnePass.NONOBJECT
      (lutzOnePass.with_PS lutzOnePass.COMPLETE (initialised single_pixel)) in
  length (lutzOnePass.m_START row_start) = 1%nat ∧
  (∃ o, lutzOnePass.ModPSSTACK lutzOnePass.PUSH
          (lutzOnePass.with_CS lutzOnePass.OBJECT row_start) = Done o ∧
        lutzOnePass.co o + 1 = 1 ∧
        assign (lutzOnePass.m_START o) (lutzOnePass.co o + 1) 0 = Undefined OutOfRange) ∧
  lutzOnePass.StartSegment 0 row_start = Undefined OutOfRange ∧
  lutzOnePass.run single_pixel = Undefined OutOfRange.
Proof.
  split; [reflexivity|]. split; [|split; reflexivity].
  eexists. split; [reflexivity|]. split; reflexivity.
Qed.

(** ** C1, C3, C4: the join of two open objects *)

(** The 's' case of [ProcessNewMarker] joins slot [co] to slot [co - 1]: it
    drops one saved status and hands over the start column, but the pixels
    gathered in [m_INFO[co]] are not copied to [m_INFO[co - 1]].  They stay
    behind in the abandoned slot and reach no object. *)

(** C1 (the code departs from the claim).  The foreground of [hook_tail]
    is one 8-connected component of nine pixels.  [run] emits one object
    of eight pixels: (2,2) is missing, and without it the pixel (1,3) has
    no neighbour in the object, so the emitted pixel set is not
    8-connected. *)
Theorem hook_tail_object_not_connected :
  length (foreground hook_tail) = 9%nat ∧
  connected8 (foreground hook_tail) ∧
  ∃ o obj, lutzOnePass.run hook_tail = Done o ∧
           lutzOnePass.GetObjects o = [obj] ∧
           lutzObject.positions obj =
             [(1,3); (0,0); (1,0); (2,0); (3,0); (0,1); (3,1); (3,2)] ∧
           ¬ connected8 (lutzObject.positions obj).
Proof.
  split; [reflexivity|]. split; [apply connected8b_sound; reflexivity|].
  eexists. eexists. split; [vm_compute; reflexivity|].
  split; [reflexivity|]. split; [reflexivity|].
  apply (isolated_not_connected8 _ (1,3) (0,0)).
  - apply mem_pos_elem. reflexivity.
  - apply mem_pos_elem. reflexivity.
  - discriminate.
  - reflexivity.
Qed.

(** C3 (the code departs from the claim).  The foreground of [hook 0] is
    one component that touches row 0, column 0, the last row and the last
    column.  After [run] its pixel (2,2) is in no emitted object: it is
    still in the internal buffer [m_INFO[2]], which the final flush of
    the pending buffer does not visit. *)
Theorem hook_pixel_left_in_buffer :
  connected8 (foreground (hook 0)) ∧
  is_foreground (hook 0) (2, 2) = true ∧
  ∃ o obj, lutzOnePass.run (hook 0) = Done o ∧
           lutzOnePass.GetObjects o = [obj] ∧
           ((2, 2) ∉ lutzObject.positions obj) ∧
           lutzObject.position <$> default [] ((lutzOnePass.m_INFO o) !! 2%nat) = [(2, 2)].
Proof.
  split; [apply connected8b_sound; reflexivity|]. split; [reflexivity|].
  eexists. eexists. split; [vm_compute; reflexivity|].
  split; [reflexivity|]. split; [|reflexivity].
  intros Hin. apply mem_pos_elem in Hin. discriminate.
Qed.

(** C4 (the code departs from the claim).  The foreground of [hook 8] is
    one component of exactly eight pixels and the minimum size is eight,
    so the component is to appear.  Only seven of its pixels reach the
    buffer that [WriteObject] measures, and the result list is empty. *)
Theorem hook_at_minimum_is_dropped :
  lutzOnePass.m_npixelmin (hook 8) = 8 ∧
  length (foreground (hook 8)) = 8%nat ∧
  connected8 (foreground (hook 8)) ∧
  ∃ o, lutzOnePass.run (hook 8) = Done o ∧ lutzOnePass.GetObjects o = [].
Proof.
  split; [reflexivity|]. split; [reflexivity|].
  split; [apply connected8b_sound; reflexivity|].
  eexists. split; [vm_compute; reflexivity | reflexivity].
Qed.

(** ** Vectors given by their contents: access and update *)

Lemma length_tab {A} (f : Z -> A) (n : Z) : length (tab f n) = Z.to_nat n.
Proof. unfold tab. by rewrite length_fmap, length_seqZ. Qed.

Lemma lookup_tab {A} (f : Z -> A) (n i : Z) :
  0 <= i < n → tab f n !! Z.to_nat i = Some (f i).
Proof.
  intros Hi. unfold tab. rewrite list_lookup_fmap.
  rewrite (lookup_seqZ_lt 0 n (Z.to_nat i)) by lia. simpl. f_equal. f_equal. lia.
Qed.

Lemma at_tab {A} (f : Z -> A) (n i : Z) :
  0 <= i < n → at_ (tab f n) i = Done (f i).
Proof. intros Hi. apply at_lookup; [lia|]. by apply lookup_tab. Qed.

Lemma tab_ext {A} (f g : Z -> A) (n : Z) :
  (∀ i, 0 <= i < n → f i = g i) → tab f n = tab g n.
Proof.
  intros Hfg. unfold tab. apply list_fmap_ext.
  intros k i Hk. apply lookup_seqZ in Hk. apply Hfg. lia.
Qed.

Lemma insert_tab {A} (f : Z -> A) (n i : Z) (v : A) :
  0 <= i < n → <[Z.to_nat i := v]> (tab f n) = tab (upd f i v) n.
Proof.
  intros Hi. apply list_eq. intros k.
  destruct (decide (k < Z.to_nat n)%nat) as [Hk|Hk].
  - assert (∃ j, 0 <= j ∧ k = Z.to_nat j) as (j & Hj & ->)
      by (exists (Z.of_nat k); lia).
    rewrite (lookup_tab (upd f i v)) by lia.
    destruct (decide (j = i)) as [->|Hne].
    + rewrite list_lookup_insert_eq by (rewrite length_tab; lia).
      unfold upd. by rewrite Z.eqb_refl.
    + rewrite list_lookup_insert_ne by lia.
      rewrite lookup_tab by lia.
      unfold upd. destruct (Z.eqb_spec j i); [lia|done].
  - rewrite !lookup_ge_None_2; [done | | ]; rewrite ?length_insert, length_tab; lia.
Qed.

Lemma assign_tab {A} (f : Z -> A) (n i : Z) (v : A) :
  0 <= i < n → assign (tab f n) i v = Done (tab (upd f i v) n).
Proof.
  intros Hi. rewrite assign_inside by (rewrite length_tab; lia).
  by rewrite insert_tab.
Qed.

Lemma replicate_tab {A} (n : Z) (v : A) :
  replicate (Z.to_nat n) v = tab (fun _ => v) n.
Proof.
  unfold tab. rewrite <- (length_seqZ 0 n) at 1.
  generalize (seqZ 0 n). intros l. induction l as [|x l IH]; [done|].
  simpl. by rewrite IH.
Qed.

Lemma upd_same {A} (f : Z -> A) (x : Z) (v : A) : upd f x v x = v.
Proof. unfold upd. by rewrite Z.eqb_refl. Qed.

Lemma upd_other {A} (f : Z -> A) (x i : Z) (v : A) : i ≠ x → upd f x v i = f i.
Proof. intros Hne. unfold upd. by destruct (Z.eqb_spec i x). Qed.

(** ** Tactics for engines given by their contents *)

(** Setters and projections applied to an explicit engine. *)
Ltac engine_norm :=
  cbv [engine
       lutzOnePass.with_MARKER lutzOnePass.with_Objects lutzOnePass.with_STORE
       lutzOnePass.with_PSSTACK lutzOnePass.with_START lutzOnePass.with_END
       lutzOnePass.with_INFO lutzOnePass.with_PS lutzOnePass.with_CS
       lutzOnePass.with_co lutzOnePass.with_pstop lutzOnePass.with_joins
       lutzOnePass.m_xpix lutzOnePass.m_ypix lutzOnePass.m_npixelmin
       lutzOnePass.m_image lutzOnePass.m_threshold lutzOnePass.m_pixData
       lutzOnePass.m_MARKER lutzOnePass.m_Objects lutzOnePass.m_STORE
       lutzOnePass.m_PSSTACK lutzOnePass.m_START lutzOnePass.m_END
       lutzOnePass.m_INFO lutzOnePass.m_PS lutzOnePass.m_CS
       lutzOnePass.co lutzOnePass.pstop lutzOnePass.joins].

Ltac engine_fold :=
  repeat match goal with
  | |- context [lutzOnePass.mk ?w ?h ?m ?img ?thr [] (tab ?fM (?w + 1)) ?objs (tab ?fS ?w)
                  (tab ?fP ?w) (tab ?fSt ?w) (tab ?fEn ?w) (tab ?fI ?w) ?ps ?cs ?co ?pstop O] =>
      change (lutzOnePass.mk w h m img thr [] (tab fM (w + 1)) objs (tab fS w)
                (tab fP w) (tab fSt w) (tab fEn w) (tab fI w) ps cs co pstop O)
        with (engine w h m img thr fM objs fS fP fSt fEn fI ps cs co pstop)
  end.

Ltac run_vectors :=
  repeat first
    [ rewrite at_tab by lia
    | rewrite assign_tab by lia
    | progress engine_norm
    | progress simpl ].

(** Two engines are equal when their vectors agree at every index. *)
Ltac same_engine :=
  unfold engine;
  lazymatch goal with
  | |- Done _ = Done _ => apply (f_equal Done)
  | |- _ => idtac
  end;
  f_equal; try reflexivity;
  apply tab_ext; intros ? ?; unfold upd;
  repeat match goal with
         | |- context [Z.eqb ?i ?j] => destruct (Z.eqb_spec i j); try lia; subst
         end;
  rewrite ?app_nil_l, ?app_nil_r; try done.


(** ** The functions of the engine on vectors given by their contents *)

Section Engine.
Variables (w h : Z) (image : list float) (threshold : float).
Local Abbreviation E := (engine w h 0 (Some image) threshold).
Local Abbreviation COMPLETE := lutzOnePass.COMPLETE.
Local Abbreviation OBJECT := lutzOnePass.OBJECT.
Local Abbreviation NONOBJECT := lutzOnePass.NONOBJECT.
Local Abbreviation NUL := lutzOnePass.NUL.
#[local] Arguments tab : simpl never.
#[local] Arguments upd : simpl never.
#[local] Arguments lutzOnePass.ModPSSTACK : simpl never.
#[local] Arguments lutzOnePass.ModOBSTACK : simpl never.
#[local] Arguments lutzOnePass.StartSegment : simpl never.
#[local] Arguments lutzOnePass.EndSegment : simpl never.
#[local] Arguments lutzOnePass.ProcessNewMarker : simpl never.
#[local] Arguments lutzOnePass.WriteObject : simpl never.
#[local] Arguments lutzOnePass.no_pixel : simpl never.
#[local] Arguments lutzOnePass.scan_pixel : simpl never.
#[local] Arguments lutzOnePass.GetPixValue : simpl never.
#[local] Arguments lutzOnePass.AssessPixel : simpl never.

Lemma ModPSSTACK_PUSH_E fM objs fS fP fSt fEn fI ps cs co pstop :
  0 <= pstop < w →
  lutzOnePass.ModPSSTACK lutzOnePass.PUSH (E fM objs fS fP fSt fEn fI ps cs co pstop) =
  Done (E fM objs fS (upd fP pstop ps) fSt fEn fI COMPLETE cs co (pstop + 1)).
Proof.
  intros Hp. unfold lutzOnePass.ModPSSTACK, engine. by run_vectors.
Qed.

Lemma ModPSSTACK_POP_E fM objs fS fP fSt fEn fI ps cs co pstop :
  1 <= pstop < w →
  lutzOnePass.ModPSSTACK lutzOnePass.POP (E fM objs fS fP fSt fEn fI ps cs co pstop) =
  Done (E fM objs fS (upd fP pstop COMPLETE) fSt fEn fI (fP (pstop - 1)) cs co (pstop - 1)).
Proof.
  intros Hp. unfold lutzOnePass.ModPSSTACK, engine. run_vectors.
  by rewrite upd_other by lia.
Qed.

Lemma ModOBSTACK_PUSH_E fM objs fS fP fSt fEn fI ps cs co pstop xbin :
  0 <= pstop < w → 0 <= co + 1 < w →
  lutzOnePass.ModOBSTACK lutzOnePass.PUSH xbin (E fM objs fS fP fSt fEn fI ps cs co pstop) =
  Done (E fM objs fS (upd fP pstop ps) (upd fSt (co + 1) xbin) fEn (upd fI (co + 1) [])
          COMPLETE cs (co + 1) (pstop + 1)).
Proof.
  intros Hp Hco. unfold lutzOnePass.ModOBSTACK. rewrite ModPSSTACK_PUSH_E by done.
  unfold engine. by run_vectors.
Qed.

Lemma ModOBSTACK_POP_E fM objs fS fP fSt fEn fI ps cs co pstop xbin :
  1 <= pstop < w → 0 <= co < w → fI co ≠ [] → 0 <= fSt co < w →
  lutzOnePass.ModOBSTACK lutzOnePass.POP xbin (E fM objs fS fP fSt fEn fI ps cs co pstop) =
  Done (E fM objs (upd fS (fSt co) (fS (fSt co) ++ fI co)) (upd fP pstop COMPLETE)
          (upd fSt co (-1)) (upd fEn co (-1)) (upd fI co [])
          (fP (pstop - 1)) cs (co - 1) (pstop - 1)).
Proof.
  intros Hp Hco Hpix Hk. unfold lutzOnePass.ModOBSTACK. rewrite ModPSSTACK_POP_E by done.
  unfold engine. run_vectors.
  destruct (fI co) as [|p pixels] eqn:Hinfo; [done|]. by run_vectors.
Qed.

Lemma StartSegment_new_E fM objs fS fP fSt fEn fI ps cs co pstop xindx :
  ps ≠ OBJECT → 0 <= xindx <= w → 0 <= pstop < w → 0 <= co + 1 < w →
  lutzOnePass.StartSegment xindx (E fM objs fS fP fSt fEn fI ps cs co pstop) =
  Done (E (upd fM xindx "S"%char) objs fS (upd fP pstop ps) (upd fSt (co + 1) xindx) fEn
          (upd fI (co + 1) []) COMPLETE OBJECT (co + 1) (pstop + 1)).
Proof.
  intros Hps Hx Hp Hco. unfold lutzOnePass.StartSegment. engine_norm.
  destruct ps; try done; simpl; engine_fold; rewrite ModOBSTACK_PUSH_E by done;
    by run_vectors.
Qed.

Lemma EndSegment_last_E fM objs fS fP fSt fEn fI cs co pstop xindx :
  0 <= xindx <= w → 1 <= pstop < w → 0 <= co < w → fI co ≠ [] → 0 <= fSt co < w →
  lutzOnePass.EndSegment xindx (E fM objs fS fP fSt fEn fI COMPLETE cs co pstop) =
  Done (E (upd fM xindx "F"%char) objs (upd fS (fSt co) (fS (fSt co) ++ fI co))
          (upd fP pstop COMPLETE) (upd fSt co (-1)) (upd fEn co (-1)) (upd fI co [])
          (fP (pstop - 1)) NONOBJECT (co - 1) (pstop - 1)).
Proof.
  intros Hx Hp Hco Hpix Hk. unfold lutzOnePass.EndSegment. engine_norm. simpl.
  engine_fold. rewrite ModOBSTACK_POP_E by done.
  by run_vectors.
Qed.

Lemma WriteObject_E fM objs fS fP fSt fEn fI ps cs co pstop pixels :
  pixels ≠ [] →
  lutzOnePass.WriteObject pixels (E fM objs fS fP fSt fEn fI ps cs co pstop) =
  E fM (objs ++ [lutzObject.of_pixels pixels]) fS fP fSt fEn fI ps cs co pstop.
Proof.
  intros Hpix. unfold lutzOnePass.WriteObject. engine_norm.
  destruct pixels as [|p pixels]; [done|]. reflexivity.
Qed.

(** Marker 'S' above a position outside a segment: the object of the row
    above is taken out of the pending buffer into a new slot. *)
Lemma ProcessNewMarker_S_outside fM objs fS fP fSt fEn fI ps co pstop xindx :
  0 <= pstop → pstop + 1 < w → 0 <= xindx < w → 0 <= co + 1 < w →
  lutzOnePass.ProcessNewMarker "S" xindx (E fM objs fS fP fSt fEn fI ps NONOBJECT co pstop) =
  Done (E fM objs (upd fS xindx []) (upd (upd fP pstop ps) (pstop + 1) COMPLETE)
          (upd fSt (co + 1) (-1)) fEn (upd fI (co + 1) (fS xindx))
          OBJECT NONOBJECT (co + 1) (pstop + 1 + 1)).
Proof.
  intros Hp Hp' Hx Hco. unfold lutzOnePass.ProcessNewMarker. simpl.
  rewrite ModPSSTACK_PUSH_E by lia. by run_vectors.
Qed.

(** Marker 'S' above a position inside a segment: the object of the row
    above is appended to the open slot. *)
Lemma ProcessNewMarker_S_inside fM objs fS fP fSt fEn fI ps co pstop xindx :
  0 <= pstop < w → 0 <= xindx < w → 0 <= co < w →
  lutzOnePass.ProcessNewMarker "S" xindx (E fM objs fS fP fSt fEn fI ps OBJECT co pstop) =
  Done (E fM objs (upd fS xindx []) (upd fP pstop ps) fSt fEn
          (upd fI co (fI co ++ fS xindx)) OBJECT OBJECT co (pstop + 1)).
Proof.
  intros Hp Hx Hco. unfold lutzOnePass.ProcessNewMarker. simpl.
  rewrite ModPSSTACK_PUSH_E by lia. run_vectors.
  destruct (fS xindx) as [|p pixels] eqn:Hstore; run_vectors; [|done].
  do 2 f_equal. apply tab_ext. intros i Hi.
  unfold upd. destruct (Z.eqb_spec i co) as [->|]; [|done]. by rewrite app_nil_r.
Qed.

(** Marker 'F' above a position inside a segment. *)
Lemma ProcessNewMarker_F_inside fM objs fS fP fSt fEn fI ps co pstop xindx :
  1 <= pstop <= w →
  lutzOnePass.ProcessNewMarker "F" xindx (E fM objs fS fP fSt fEn fI ps OBJECT co pstop) =
  Done (E fM objs fS fP fSt fEn fI (fP (pstop - 1)) OBJECT co (pstop - 1)).
Proof.
  intros Hp. unfold lutzOnePass.ProcessNewMarker. simpl. run_vectors.
  by destruct (fP (pstop - 1)).
Qed.

(** Marker 'F' above a position outside a segment, when the object that
    ends there was not met on this row: it is written to the result. *)
Lemma ProcessNewMarker_F_write fM objs fS fP fSt fEn fI ps co pstop xindx :
  2 <= pstop <= w → 0 <= co < w →
  fP (pstop - 1) = COMPLETE → fSt co = -1 → fI co ≠ [] →
  lutzOnePass.ProcessNewMarker "F" xindx (E fM objs fS fP fSt fEn fI ps NONOBJECT co pstop) =
  Done (E fM (objs ++ [lutzObject.of_pixels (fI co)]) fS fP fSt fEn (upd fI co [])
          (fP (pstop - 1 - 1)) NONOBJECT (co - 1) (pstop - 1 - 1)).
Proof.
  intros Hp Hco Hps Hk Hpix. unfold lutzOnePass.ProcessNewMarker. simpl. run_vectors.
  rewrite Hps. simpl. run_vectors. rewrite Hk. simpl.
  engine_fold. rewrite WriteObject_E by done. by run_vectors.
Qed.

Lemma upd_id {A} (f : Z -> A) (x : Z) (v : A) (n : Z) :
  f x = v → tab (upd f x v) n = tab f n.
Proof.
  intros Hfx. apply tab_ext. intros i _. unfold upd.
  by destruct (Z.eqb_spec i x) as [->|].
Qed.

(** *** Reading the image *)

Hypothesis width_positive : 0 < w.
Hypothesis area_is_int : w * h <= INT_MAX.
Hypothesis image_covers : w * h <= Z.of_nat (length image).

Lemma GetPixValue_E fM objs fS fP fSt fEn fI ps cs co pstop x y :
  0 <= x < w → 0 <= y < h →
  lutzOnePass.GetPixValue x y (E fM objs fS fP fSt fEn fI ps cs co pstop) =
  Done (sample image w x y).
Proof.
  intros Hx Hy. unfold lutzOnePass.GetPixValue, int_result, INT_MIN, INT_MAX in *.
  engine_norm.
  assert (0 <= w * y ∧ w * y + x < w * h) as [Hlo Hhi] by nia.
  destruct (Z.leb_spec (-2147483648) (w * y)); [|lia].
  destruct (Z.leb_spec (w * y) 2147483647); [|lia]. simpl.
  destruct (Z.leb_spec (-2147483648) (w * y + x)); [|lia].
  destruct (Z.leb_spec (w * y + x) 2147483647); [|lia]. simpl.
  destruct (at_inside image (w * y + x)) as (v & Hv & ->); [lia|].
  unfold sample. by rewrite Hv.
Qed.

Lemma AssessPixel_E fM objs fS fP fSt fEn fI ps cs co pstop x y :
  0 <= x < w → 0 <= y < h →
  lutzOnePass.AssessPixel x y (E fM objs fS fP fSt fEn fI ps cs co pstop) =
  Done (PrimFloat.ltb threshold (sample image w x y)).
Proof.
  intros Hx Hy. unfold lutzOnePass.AssessPixel. by rewrite GetPixValue_E.
Qed.

(** *** One position *)

(** A position without an image pixel: inside the row below the threshold,
    or past the end of the row. *)
Lemma scan_position_no_pixel fM objs fS fP fSt fEn fI ps cs co pstop x y :
  0 <= y < h → 0 <= x <= w →
  (x < w → PrimFloat.ltb threshold (sample image w x y) = false) →
  scan_position w y x (E fM objs fS fP fSt fEn fI ps cs co pstop) =
  lutzOnePass.no_pixel (fM x) x (E (upd fM x NUL) objs fS fP fSt fEn fI ps cs co pstop).
Proof.
  intros Hy Hx Hbg. unfold scan_position.
  destruct (Z.ltb_spec x w) as [Hlt|Hge].
  - unfold lutzOnePass.scan_pixel. rewrite GetPixValue_E by lia. run_vectors.
    engine_fold. rewrite AssessPixel_E by lia. rewrite Hbg by done. done.
  - assert (x = w) as -> by lia. unfold back. engine_norm.
    rewrite length_tab. replace (Z.of_nat (Z.to_nat (w + 1)) - 1) with w by lia.
    by run_vectors.
Qed.

(** A position with an image pixel. *)
Lemma scan_position_pixel fM objs fS fP fSt fEn fI ps cs co pstop x y :
  0 <= y < h → 0 <= x < w →
  PrimFloat.ltb threshold (sample image w x y) = true →
  scan_position w y x (E fM objs fS fP fSt fEn fI ps cs co pstop) =
  (o ← (if lutzOnePass.status_eqb cs NONOBJECT
        then lutzOnePass.StartSegment x (E (upd fM x NUL) objs fS fP fSt fEn fI ps cs co pstop)
        else Done (E (upd fM x NUL) objs fS fP fSt fEn fI ps cs co pstop));
   o ← (if Ascii.eqb (fM x) NUL then Done o
        else lutzOnePass.ProcessNewMarker (fM x) x o);
   cur ← at_ (lutzOnePass.m_INFO o) (lutzOnePass.co o);
   info ← assign (lutzOnePass.m_INFO o) (lutzOnePass.co o) (cur ++ [pixel_at image w x y]);
   Done (lutzOnePass.with_INFO info o)).
Proof.
  intros Hy Hx Hfg. unfold scan_position.
  destruct (Z.ltb_spec x w) as [Hlt|Hge]; [|lia].
  unfold lutzOnePass.scan_pixel. rewrite GetPixValue_E by lia. run_vectors.
  engine_fold. rewrite AssessPixel_E by lia. rewrite Hfg. done.
Qed.
End Engine.

(** ** Loops *)

Lemma bind_Done_r {A} (m : outcome A) : (m ≫= Done) = m.
Proof. by destruct m. Qed.

Lemma bind_Done_l {A B} (a : A) (f : A -> outcome B) : (Done a ≫= f) = f a.
Proof. done. Qed.

Lemma for_app {S} (n m : nat) (from : Z) (body : Z -> S -> outcome S) (s : S) :
  lutzOnePass.for_ (n + m) from body s =
  (s' ← lutzOnePass.for_ n from body s; lutzOnePass.for_ m (from + Z.of_nat n) body s').
Proof.
  revert from s. induction n as [|n IH]; intros from s.
  - simpl. by rewrite Z.add_0_r.
  - simpl. destruct (body from s) as [s'| |]; simpl; [|done|done].
    rewrite IH. do 2 f_equal. lia.
Qed.

Lemma for_ext {S} (n : nat) (from : Z) (body body' : Z -> S -> outcome S) (s : S) :
  (∀ i s, from <= i < from + Z.of_nat n → body i s = body' i s) →
  lutzOnePass.for_ n from body s = lutzOnePass.for_ n from body' s.
Proof.
  revert from s. induction n as [|n IH]; intros from s Hext; [done|].
  simpl. rewrite Hext by lia. destruct (body' from s) as [s'| |]; simpl; [|done|done].
  apply IH. intros i s'' Hi. apply Hext. lia.
Qed.

Lemma span_split (w y from mid to : Z) (o : lutzOnePass.t) :
  from <= mid <= to →
  span w y from to o = (o' ← span w y from mid o; span w y mid to o').
Proof.
  intros Hmid. unfold span.
  replace (Z.to_nat (to - from)) with (Z.to_nat (mid - from) + Z.to_nat (to - mid))%nat by lia.
  rewrite for_app. do 2 f_equal. lia.
Qed.

Lemma span_one (w y x : Z) (o : lutzOnePass.t) :
  span w y x (x + 1) o = scan_position w y x o.
Proof.
  unfold span. replace (Z.to_nat (x + 1 - x)) with 1%nat by lia.
  simpl. apply bind_Done_r.
Qed.

Lemma span_none (w y x : Z) (o : lutzOnePass.t) : span w y x x o = Done o.
Proof. unfold span. by rewrite Z.sub_diag. Qed.

(** ** Rows of a scene with open slot 1 at most *)

Section Rows.
Variables (w h : Z) (image : list float) (threshold : float).
Hypothesis width_two : 2 < w.
Hypothesis area_is_int : w * h <= INT_MAX.
Hypothesis image_covers : w * h <= Z.of_nat (length image).

Local Abbreviation E := (engine w h 0 (Some image) threshold).
Local Abbreviation COMPLETE := lutzOnePass.COMPLETE.
Local Abbreviation OBJECT := lutzOnePass.OBJECT.
Local Abbreviation NONOBJECT := lutzOnePass.NONOBJECT.
Local Abbreviation NUL := lutzOnePass.NUL.
Local Abbreviation pix := (pixel_at image w).
Local Abbreviation above x y := (PrimFloat.ltb threshold (sample image w x y)).

(** No slot is open. *)
Local Abbreviation idle fM objs fS :=
  (E fM objs fS (fun _ => COMPLETE) (fun _ => -1) (fun _ => -1) (fun _ => [])
     COMPLETE NONOBJECT 0 0).

(** Slot 1 is open with start column [k] and the pixels [pixels]. *)
Local Abbreviation opened fM objs fS k pixels ps cs pstop :=
  (E fM objs fS (fun _ => COMPLETE) (upd (fun _ => -1) 1 k) (fun _ => -1)
     (upd (fun _ => []) 1 pixels) ps cs 1 pstop).

#[local] Arguments tab : simpl never.
#[local] Arguments upd : simpl never.
#[local] Arguments lutzOnePass.StartSegment : simpl never.
#[local] Arguments lutzOnePass.EndSegment : simpl never.
#[local] Arguments lutzOnePass.ProcessNewMarker : simpl never.
#[local] Arguments lutzOnePass.no_pixel : simpl never.

Lemma skip_position fM objs fS fP fSt fEn fI ps co pstop x y :
  0 <= y < h → 0 <= x <= w → (x < w → above x y = false) → fM x = NUL →
  scan_position w y x (E fM objs fS fP fSt fEn fI ps NONOBJECT co pstop) =
  Done (E fM objs fS fP fSt fEn fI ps NONOBJECT co pstop).
Proof.
  intros Hy Hx Hbg Hm. rewrite scan_position_no_pixel by (done || lia).
  rewrite Hm. unfold lutzOnePass.no_pixel. simpl. same_engine.
Qed.

Lemma skip_span fM objs fS fP fSt fEn fI ps co pstop y from to :
  0 <= y < h → 0 <= from → to <= w + 1 →
  (∀ x, from <= x < to → fM x = NUL ∧ (x < w → above x y = false)) →
  span w y from to (E fM objs fS fP fSt fEn fI ps NONOBJECT co pstop) =
  Done (E fM objs fS fP fSt fEn fI ps NONOBJECT co pstop).
Proof.
  intros Hy Hfrom Hto Hblank.
  destruct (decide (to <= from)) as [Hle|Hlt].
  { unfold span. by replace (Z.to_nat (to - from)) with O by lia. }
  unfold span.
  assert (∃ n, Z.to_nat (to - from) = n ∧ from + Z.of_nat n <= to) as (n & -> & Hn)
    by (eexists; split; [done|lia]).
  clear Hlt. revert from Hfrom Hn Hblank.
  induction n as [|n IH]; intros from Hfrom Hn Hblank; [done|].
  simpl. destruct (Hblank from) as [Hm Hbg]; [lia|].
  rewrite skip_position by (done || lia). simpl.
  apply IH; [lia | lia |]. intros x Hx. apply Hblank. lia.
Qed.

(** *** A segment of one row under and over slot 1 *)

(** A segment starts where the row above left no marker. *)
Lemma open_fresh fM objs fS x y :
  0 <= y < h → 0 <= x < w → above x y = true → fM x = NUL →
  scan_position w y x (idle fM objs fS) =
  Done (opened (upd fM x "S"%char) objs fS x [pix x y] COMPLETE OBJECT 1).
Proof.
  intros Hy Hx Hfg Hm. rewrite scan_position_pixel by (done || lia).
  simpl. rewrite StartSegment_new_E by (done || lia). simpl.
  rewrite Hm. simpl. run_vectors. rewrite ?upd_same. same_engine.
Qed.

(** A segment starts under the 'S' of an object of the row above. *)
Lemma open_under_S fM objs fS x y :
  0 <= y < h → 0 <= x < w → above x y = true → fM x = "S"%char →
  scan_position w y x (idle fM objs fS) =
  Done (opened (upd fM x "S"%char) objs (upd fS x []) x (fS x ++ [pix x y]) OBJECT OBJECT 2).
Proof.
  intros Hy Hx Hfg Hm. rewrite scan_position_pixel by (done || lia).
  simpl. rewrite StartSegment_new_E by (done || lia). simpl.
  rewrite Hm. simpl. rewrite ProcessNewMarker_S_inside by lia. simpl.
  run_vectors. rewrite ?upd_same. same_engine.
Qed.

(** A segment ends where the row above left no marker, and nothing of the
    row above was met. *)
Lemma close_fresh fM objs fS k pixels x y :
  0 <= y < h → 0 <= x <= w → (x < w → above x y = false) → fM x = NUL →
  0 <= k < w → pixels ≠ [] →
  scan_position w y x (opened fM objs fS k pixels COMPLETE OBJECT 1) =
  Done (idle (upd fM x "F"%char) objs (upd fS k (fS k ++ pixels))).
Proof.
  intros Hy Hx Hbg Hm Hk Hpix. rewrite scan_position_no_pixel by (done || lia).
  rewrite Hm. unfold lutzOnePass.no_pixel. simpl.
  rewrite EndSegment_last_E by (rewrite ?upd_same; done || lia).
  rewrite ?upd_same. same_engine.
Qed.

(** A segment ends under the 'F' of the object it met. *)
Lemma close_under_F fM objs fS k pixels x y :
  0 <= y < h → 0 <= x <= w → (x < w → above x y = false) → fM x = "F"%char →
  0 <= k < w → pixels ≠ [] →
  scan_position w y x (opened fM objs fS k pixels OBJECT OBJECT 2) =
  Done (idle (upd fM x "F"%char) objs (upd fS k (fS k ++ pixels))).
Proof.
  intros Hy Hx Hbg Hm Hk Hpix. rewrite scan_position_no_pixel by (done || lia).
  rewrite Hm. unfold lutzOnePass.no_pixel. simpl.
  rewrite ProcessNewMarker_F_inside by lia. simpl.
  rewrite EndSegment_last_E by (rewrite ?upd_same; done || lia).
  rewrite ?upd_same. same_engine.
Qed.

(** A pixel inside a segment where the row above left no marker. *)
Lemma inside_plain fM objs fS k pixels ps pstop x y :
  0 <= y < h → 0 <= x < w → above x y = true → fM x = NUL →
  scan_position w y x (opened fM objs fS k pixels ps OBJECT pstop) =
  Done (opened fM objs fS k (pixels ++ [pix x y]) ps OBJECT pstop).
Proof.
  intros Hy Hx Hfg Hm. rewrite scan_position_pixel by (done || lia).
  simpl. rewrite Hm. simpl. run_vectors. rewrite ?upd_same. same_engine.
Qed.

(** A pixel inside a segment under the 'F' of the object it met. *)
Lemma inside_under_F fM objs fS k pixels x y :
  0 <= y < h → 0 <= x < w → above x y = true → fM x = "F"%char →
  scan_position w y x (opened fM objs fS k pixels OBJECT OBJECT 2) =
  Done (opened (upd fM x NUL) objs fS k (pixels ++ [pix x y]) COMPLETE OBJECT 1).
Proof.
  intros Hy Hx Hfg Hm. rewrite scan_position_pixel by (done || lia).
  simpl. rewrite Hm. simpl. rewrite ProcessNewMarker_F_inside by lia. simpl.
  run_vectors. rewrite ?upd_same. same_engine.
Qed.

(** A pixel inside a segment under the 'S' of a further object of the row
    above: that object is appended to slot 1. *)
Lemma inside_under_S fM objs fS k pixels x y :
  0 <= y < h → 0 <= x < w → above x y = true → fM x = "S"%char →
  scan_position w y x (opened fM objs fS k pixels COMPLETE OBJECT 1) =
  Done (opened (upd fM x NUL) objs (upd fS x []) k (pixels ++ fS x ++ [pix x y])
          OBJECT OBJECT 2).
Proof.
  intros Hy Hx Hfg Hm. rewrite scan_position_pixel by (done || lia).
  simpl. rewrite Hm. simpl. rewrite ProcessNewMarker_S_inside by lia. simpl.
  run_vectors. rewrite ?upd_same. same_engine. by rewrite app_assoc.
Qed.

(** No pixel under the 'S' of an object of the row above: the object moves
    from the pending buffer to slot 1. *)
Lemma under_S fM objs fS x y :
  0 <= y < h → 0 <= x < w → above x y = false → fM x = "S"%char →
  scan_position w y x (idle fM objs fS) =
  Done (opened (upd fM x NUL) objs (upd fS x []) (-1) (fS x) OBJECT NONOBJECT 2).
Proof.
  intros Hy Hx Hbg Hm. rewrite scan_position_no_pixel by (done || lia).
  rewrite Hm. unfold lutzOnePass.no_pixel. simpl.
  rewrite ProcessNewMarker_S_outside by lia. simpl. same_engine.
Qed.

(** No pixel under the 'F' of the object in slot 1, which was not met on
    this row: the object is written to the result list. *)
Lemma under_F fM objs fS pixels x y :
  0 <= y < h → 0 <= x <= w → (x < w → above x y = false) → fM x = "F"%char →
  pixels ≠ [] →
  scan_position w y x (opened fM objs fS (-1) pixels OBJECT NONOBJECT 2) =
  Done (idle (upd fM x NUL) (objs ++ [lutzObject.of_pixels pixels]) fS).
Proof.
  intros Hy Hx Hbg Hm Hpix. rewrite scan_position_no_pixel by (done || lia).
  rewrite Hm. unfold lutzOnePass.no_pixel. simpl.
  rewrite ProcessNewMarker_F_write by (rewrite ?upd_same; done || lia).
  simpl. rewrite ?upd_same. same_engine.
Qed.
End Rows.

(** ** Pixels of a U *)

Lemma in_U_spec (a c t1 t2 b : Z) (p : Z * Z) :
  in_U a c t1 t2 b p = true ↔
  (p.1 = a ∧ t1 <= p.2 <= b) ∨ (p.1 = c ∧ t2 <= p.2 <= b) ∨ (p.2 = b ∧ a <= p.1 <= c).
Proof.
  unfold in_U. rewrite !orb_true_iff, !andb_true_iff, !Z.eqb_eq, !Z.leb_le. tauto.
Qed.

Lemma in_U_false (a c t1 t2 b : Z) (p : Z * Z) :
  ¬ ((p.1 = a ∧ t1 <= p.2 <= b) ∨ (p.1 = c ∧ t2 <= p.2 <= b) ∨ (p.2 = b ∧ a <= p.1 <= c)) →
  in_U a c t1 t2 b p = false.
Proof. intros Hn. apply not_true_iff_false. by rewrite in_U_spec. Qed.

Lemma column_pixels_snoc (image : list float) (w x y n : Z) :
  0 <= n →
  column_pixels image w x y (n + 1) = column_pixels image w x y n ++ [pixel_at image w x (y + n)].
Proof.
  intros Hn. unfold column_pixels. rewrite seqZ_app by lia. by rewrite fmap_app.
Qed.

Lemma column_pixels_none (image : list float) (w x y : Z) :
  column_pixels image w x y 0 = [].
Proof. done. Qed.

Lemma row_pixels_snoc (image : list float) (w y x n : Z) :
  0 <= n →
  row_pixels image w y x (n + 1) = row_pixels image w y x n ++ [pixel_at image w (x + n) y].
Proof.
  intros Hn. unfold row_pixels. rewrite seqZ_app by lia. by rewrite fmap_app.
Qed.

Lemma row_pixels_cons (image : list float) (w y x n : Z) :
  0 < n →
  row_pixels image w y x n = pixel_at image w x y :: row_pixels image w y (x + 1) (n - 1).
Proof.
  intros Hn. unfold row_pixels. rewrite (seqZ_cons x n) by lia.
  rewrite fmap_cons. do 3 f_equal; lia.
Qed.

Lemma column_pixels_positions (image : list float) (w x y n : Z) (p : Z * Z) :
  p ∈ lutzObject.position <$> column_pixels image w x y n ↔ p.1 = x ∧ y <= p.2 < y + n.
Proof.
  unfold column_pixels. rewrite <- list_fmap_compose, list_elem_of_fmap.
  split.
  - intros (y' & -> & Hy'%elem_of_seqZ). simpl. lia.
  - intros [Hx Hy]. exists p.2. split; [destruct p; simpl in *; by subst|].
    apply elem_of_seqZ. lia.
Qed.

Lemma row_pixels_positions (image : list float) (w y x n : Z) (p : Z * Z) :
  p ∈ lutzObject.position <$> row_pixels image w y x n ↔ p.2 = y ∧ x <= p.1 < x + n.
Proof.
  unfold row_pixels. rewrite <- list_fmap_compose, list_elem_of_fmap.
  split.
  - intros (x' & -> & Hx'%elem_of_seqZ). simpl. lia.
  - intros [Hy Hx]. exists p.1. split; [destruct p; simpl in *; by subst|].
    apply elem_of_seqZ. lia.
Qed.

(** The pixels of a U are at the positions of the U, and at no other. *)
Lemma U_pixels_positions (image : list float) (w h a c t1 t2 b : Z) (p : Z * Z) :
  U_fits w h a c t1 t2 b →
  p ∈ lutzObject.position <$> U_pixels image w a c t1 t2 b ↔ in_U a c t1 t2 b p = true.
Proof.
  intros (Ha & Hc & Hcw & Ht1 & Ht2 & Hb).
  unfold U_pixels. rewrite !fmap_app, !elem_of_app.
  rewrite !column_pixels_positions, row_pixels_positions, in_U_spec.
  rewrite list_fmap_singleton, list_elem_of_singleton.
  unfold pixel_at, lutzObject.position. simpl.
  destruct p as [x y]; simpl. split.
  - intros [H|[H|[H|H]]]; [lia | lia | lia |]. injection H as -> ->. lia.
  - intros [H|[H|H]].
    + destruct (decide (y = b)) as [->|]; [right; left; lia | left; lia].
    + destruct (decide (y = b)) as [->|]; [| right; right; left; lia].
      do 3 right. f_equal; lia.
    + destruct (decide (x = c)) as [->|]; [| right; left; lia].
      do 3 right. f_equal; lia.
Qed.

Lemma U_pixels_not_empty (image : list float) (w a c t1 t2 b : Z) :
  U_pixels image w a c t1 t2 b ≠ [].
Proof.
  unfold U_pixels. intros H.
  apply app_eq_nil in H as [_ H]. apply app_eq_nil in H as [_ H].
  by apply app_eq_nil in H as [_ H].
Qed.

Lemma column_pixels_grows (image : list float) (w x t y : Z) :
  t <= y - 1 →
  column_pixels image w x t (y - 1 + 1 - t) ++ [pixel_at image w x y] =
  column_pixels image w x t (y + 1 - t).
Proof.
  intros Ht. replace (y + 1 - t) with (y - 1 + 1 - t + 1) by lia.
  rewrite column_pixels_snoc by lia. do 3 f_equal. lia.
Qed.

Lemma column_pixels_begins (image : list float) (w x t y : Z) :
  t = y → [pixel_at image w x y] = column_pixels image w x t (y + 1 - t).
Proof.
  intros ->. replace (y + 1 - y) with (0 + 1) by lia.
  rewrite column_pixels_snoc by lia. rewrite column_pixels_none. simpl.
  do 3 f_equal. lia.
Qed.

(** The pixels of a U as the joining row gathers them. *)
Lemma U_pixels_gathered (image : list float) (w a c t1 t2 b : Z) :
  a + 2 <= c →
  (((column_pixels image w a t1 (b - 1 + 1 - t1) ++ [pixel_at image w a b])
    ++ [pixel_at image w (a + 1) b])
   ++ row_pixels image w b (a + 1 + 1) (c - (a + 1 + 1)))
  ++ column_pixels image w c t2 (b - 1 + 1 - t2) ++ [pixel_at image w c b] =
  U_pixels image w a c t1 t2 b.
Proof.
  intros Hgap. unfold U_pixels.
  replace (b - 1 + 1 - t1) with (b - t1) by lia.
  replace (b - 1 + 1 - t2) with (b - t2) by lia.
  rewrite (row_pixels_cons image w b a (c - a)) by lia.
  rewrite (row_pixels_cons image w b (a + 1) (c - a - 1)) by lia.
  replace (c - a - 1 - 1) with (c - (a + 1 + 1)) by lia.
  rewrite <- !app_assoc. simpl. reflexivity.
Qed.

(** ** Rows, the final flush and the configuration *)

Lemma scan_row_span (w h : Z) (image : list float) (threshold : float)
    fM objs fS fP fSt fEn fI ps cs co pstop (y : Z) :
  0 <= w →
  lutzOnePass.scan_row y (engine w h 0 (Some image) threshold fM objs fS fP fSt fEn fI ps cs co pstop) =
  span w y 0 (w + 1)
    (engine w h 0 (Some image) threshold fM objs fS fP fSt fEn fI
       lutzOnePass.COMPLETE lutzOnePass.NONOBJECT co pstop).
Proof.
  intros Hw. unfold lutzOnePass.scan_row, span. engine_norm. engine_fold.
  replace (Z.to_nat (w + 1 - 0)) with (Z.to_nat w + 1)%nat by lia.
  rewrite for_app.
  rewrite (for_ext (Z.to_nat w) 0 (scan_position w y) (lutzOnePass.scan_pixel y)).
  2:{ intros i s Hi. unfold scan_position.
      destruct (Z.ltb_spec i w); [done|lia]. }
  destruct (lutzOnePass.for_ _ 0 _ _) as [o| |]; simpl; [|done|done].
  rewrite bind_Done_r. unfold scan_position.
  replace (0 + Z.of_nat (Z.to_nat w)) with w by lia.
  replace (Z.of_nat (Z.to_nat w)) with w by lia.
  destruct (Z.ltb_spec w w); [lia|done].
Qed.

Lemma WriteObject_empties (l : list lutzOnePass.Object) (o : lutzOnePass.t) :
  Forall (fun obj => obj = []) l →
  fold_left (fun o obj => lutzOnePass.WriteObject obj o) l o = o.
Proof.
  intros Hl. revert o. induction Hl as [|obj l -> _ IH]; intros o; [done|].
  simpl. apply IH.
Qed.

(** At the end of the scan the pending buffer holds one object at most. *)
Lemma WriteObject_single (f : Z -> lutzOnePass.Object) (n k : Z) (o : lutzOnePass.t) :
  0 <= k < n → (∀ i, 0 <= i < n → i ≠ k → f i = []) →
  fold_left (fun o obj => lutzOnePass.WriteObject obj o) (tab f n) o =
  lutzOnePass.WriteObject (f k) o.
Proof.
  intros Hk Hempty.
  assert (Hall : ∀ j obj, tab f n !! j = Some obj → j ≠ Z.to_nat k → obj = []).
  { intros j obj Hj Hne.
    assert (j < Z.to_nat n)%nat
      by (apply lookup_lt_Some in Hj; by rewrite length_tab in Hj).
    replace j with (Z.to_nat (Z.of_nat j)) in Hj by lia.
    rewrite lookup_tab in Hj by lia. injection Hj as <-. apply Hempty; lia. }
  rewrite <- (take_drop_middle (tab f n) (Z.to_nat k) (f k)) by (by apply lookup_tab).
  rewrite fold_left_app. simpl.
  rewrite (WriteObject_empties (take _ _)).
  2:{ apply Forall_forall. intros obj (j & Hj)%list_elem_of_lookup.
      apply lookup_take_Some in Hj as [Hj Hlt]. apply (Hall j); [done|lia]. }
  apply WriteObject_empties.
  apply Forall_forall. intros obj (j & Hj)%list_elem_of_lookup.
  rewrite lookup_drop in Hj. apply (Hall _ _ Hj). lia.
Qed.

Lemma WriteObject_none (f : Z -> lutzOnePass.Object) (n : Z) (o : lutzOnePass.t) :
  (∀ i, 0 <= i < n → f i = []) →
  fold_left (fun o obj => lutzOnePass.WriteObject obj o) (tab f n) o = o.
Proof.
  intros Hempty. apply WriteObject_empties.
  apply Forall_forall. intros obj (j & Hj)%list_elem_of_lookup.
  assert (j < Z.to_nat n)%nat
    by (apply lookup_lt_Some in Hj; by rewrite length_tab in Hj).
  replace j with (Z.to_nat (Z.of_nat j)) in Hj by lia.
  rewrite lookup_tab in Hj by lia. injection Hj as <-. apply Hempty; lia.
Qed.

Lemma AssessPixel_configuration (o o' : lutzOnePass.t) (x y : Z) :
  lutzOnePass.m_xpix o = lutzOnePass.m_xpix o' →
  lutzOnePass.m_image o = lutzOnePass.m_image o' →
  lutzOnePass.m_threshold o = lutzOnePass.m_threshold o' →
  lutzOnePass.AssessPixel x y o = lutzOnePass.AssessPixel x y o'.
Proof.
  intros Hw Himg Hthr. unfold lutzOnePass.AssessPixel, lutzOnePass.GetPixValue.
  by rewrite Hw, Himg, Hthr.
Qed.

Lemma initialised_engine (o : lutzOnePass.t) (image : list float) :
  0 <= lutzOnePass.m_xpix o → lutzOnePass.m_npixelmin o = 0 →
  lutzOnePass.m_image o = Some image →
  initialised o =
  engine (lutzOnePass.m_xpix o) (lutzOnePass.m_ypix o) 0 (Some image)
    (lutzOnePass.m_threshold o)
    (fun _ => lutzOnePass.NUL) [] (fun _ => []) (fun _ => lutzOnePass.COMPLETE)
    (fun _ => -1) (fun _ => -1) (fun _ => [])
    (lutzOnePass.m_PS o) (lutzOnePass.m_CS o) 0 0.
Proof.
  intros Hw Hmin Himg. unfold initialised, engine.
  by rewrite Hmin, Himg, !replicate_tab.
Qed.

(** ** The rows of a U *)

(** Goals about the markers and the buffer of a U at a given index. *)
Ltac by_cases :=
  unfold U_marker, U_store, U_objects, upd;
  repeat match goal with
         | |- context [Z.eqb ?i ?j] => destruct (Z.eqb_spec i j); try lia
         | |- context [Z.ltb ?i ?j] => destruct (Z.ltb_spec i j); try lia
         | |- context [Z.leb ?i ?j] => destruct (Z.leb_spec i j); try lia
         end;
  simpl; try done.

(** Side conditions of the lemmas about single positions. *)
Ltac side :=
  rewrite ?upd_same, ?upd_other by lia;
  first [ done | lia | discriminate
        | let H := fresh in
          intros H; apply (f_equal length) in H;
          rewrite ?length_app in H; simpl in H; lia ].

Section UShape.
Variables (w h : Z) (image : list float) (threshold : float).
Variables (a c t1 t2 b : Z).
Hypothesis a_in : 0 <= a.
Hypothesis gap : a + 2 <= c.
Hypothesis c_in : c < w.
Hypothesis left_bar : 0 <= t1 < b.
Hypothesis right_bar : 0 <= t2 < b.
Hypothesis b_in : b < h.
Hypothesis area_is_int : w * h <= INT_MAX.
Hypothesis image_covers : w * h <= Z.of_nat (length image).
Hypothesis shape :
  ∀ x y, 0 <= x < w → 0 <= y < h →
         PrimFloat.ltb threshold (sample image w x y) = in_U a c t1 t2 b (x, y).

Local Abbreviation E := (engine w h 0 (Some image) threshold).
Local Abbreviation COMPLETE := lutzOnePass.COMPLETE.
Local Abbreviation OBJECT := lutzOnePass.OBJECT.
Local Abbreviation NONOBJECT := lutzOnePass.NONOBJECT.
Local Abbreviation NUL := lutzOnePass.NUL.
Local Abbreviation pix := (pixel_at image w).
Local Abbreviation above x y := (PrimFloat.ltb threshold (sample image w x y)).
Local Abbreviation idle fM objs fS :=
  (E fM objs fS (fun _ => COMPLETE) (fun _ => -1) (fun _ => -1) (fun _ => [])
     COMPLETE NONOBJECT 0 0).
Local Abbreviation opened fM objs fS k pixels ps cs pstop :=
  (E fM objs fS (fun _ => COMPLETE) (upd (fun _ => -1) 1 k) (fun _ => -1)
     (upd (fun _ => []) 1 pixels) ps cs 1 pstop).
Local Abbreviation marker_after := (U_marker a c t1 t2 b).
Local Abbreviation store_after := (U_store image w a c t1 t2 b).
Local Abbreviation objects_after := (U_objects image w a c t1 t2 b).

Lemma width_two : 2 < w.
Proof. lia. Qed.

Lemma above_U x y : 0 <= x < w → 0 <= y < h →
  above x y = true ↔ (x = a ∧ t1 <= y <= b) ∨ (x = c ∧ t2 <= y <= b) ∨ (y = b ∧ a <= x <= c).
Proof. intros Hx Hy. rewrite shape by done. by rewrite in_U_spec. Qed.

Lemma below_U x y : 0 <= x < w → 0 <= y < h →
  ¬ ((x = a ∧ t1 <= y <= b) ∨ (x = c ∧ t2 <= y <= b) ∨ (y = b ∧ a <= x <= c)) →
  above x y = false.
Proof. intros Hx Hy Hn. rewrite shape by done. by apply in_U_false. Qed.

(** The two positions of a bar and of the gap after it, in a row above
    the joining row: the pixel of the bar, if the bar has begun, joins
    the pixels of the bar in the pending buffer. *)
Lemma bar_span fM objs fS x y (present : bool) :
  0 <= y < h → 0 <= x → x + 1 <= w →
  above x y = present → (x + 1 < w → above (x + 1) y = false) →
  (fM x = NUL ∧ fM (x + 1) = NUL) ∨ (present = true ∧ fM x = "S"%char ∧ fM (x + 1) = "F"%char) →
  span w y x (x + 2) (idle fM objs fS) =
  Done (idle (if present then upd (upd fM x "S"%char) (x + 1) "F"%char else fM) objs
             (if present then upd fS x (fS x ++ [pix x y]) else fS)).
Proof.
  intros Hy Hx Hx' Hfg Hbg Hm.
  replace (x + 2) with (x + 1 + 1) by lia.
  rewrite (span_split w y x (x + 1) (x + 1 + 1)) by lia. rewrite !span_one.
  destruct present.
  - destruct Hm as [[Hm Hm']|(_ & Hm & Hm')].
    + rewrite (open_fresh w h image threshold width_two) by (done || lia). rewrite bind_Done_l, ?span_one.
      rewrite (close_fresh w h image threshold width_two)
        by side.
      done.
    + rewrite (open_under_S w h image threshold width_two) by (done || lia). rewrite bind_Done_l, ?span_one.
      rewrite (close_under_F w h image threshold width_two)
        by side.
      rewrite upd_same. same_engine.
  - destruct Hm as [[Hm Hm']|(? & _)]; [|done].
    rewrite (skip_position w h image threshold width_two) by (done || lia). rewrite bind_Done_l, ?span_one.
    by rewrite (skip_position w h image threshold width_two) by (done || lia).
Qed.

(** Pixels along a row inside the open segment, where the row above left
    no marker. *)
Lemma inside_span fM objs fS k pixels ps pstop y from to :
  0 <= y < h → 0 <= from → to <= w →
  (∀ x, from <= x < to → fM x = NUL ∧ above x y = true) →
  span w y from to (opened fM objs fS k pixels ps OBJECT pstop) =
  Done (opened fM objs fS k (pixels ++ row_pixels image w y from (to - from)) ps OBJECT pstop).
Proof.
  intros Hy Hfrom Hto Hin.
  destruct (decide (to <= from)) as [Hle|Hlt].
  { unfold span, row_pixels. replace (Z.to_nat (to - from)) with O by lia.
    rewrite seqZ_nil by lia. simpl. by rewrite app_nil_r. }
  assert (∃ n : nat, to = from + Z.of_nat n) as (n & ->)
    by (exists (Z.to_nat (to - from)); lia).
  clear Hlt. induction n as [|n IH].
  - rewrite Z.add_0_r, span_none, Z.sub_diag. unfold row_pixels. simpl.
    by rewrite app_nil_r.
  - rewrite (span_split w y from (from + Z.of_nat n) (from + Z.of_nat (S n))) by lia.
    rewrite IH by (try lia; intros x Hx; apply Hin; lia). rewrite bind_Done_l.
    replace (from + Z.of_nat (S n)) with (from + Z.of_nat n + 1) by lia.
    rewrite span_one.
    destruct (Hin (from + Z.of_nat n)) as [Hm Hfg]; [lia|].
    rewrite (inside_plain w h image threshold width_two) by (done || lia).
    replace (from + Z.of_nat n + 1 - from) with (from + Z.of_nat n - from + 1) by lia.
    rewrite row_pixels_snoc by lia.
    replace (from + (from + Z.of_nat n - from)) with (from + Z.of_nat n) by lia.
    by rewrite app_assoc.
Qed.

(** A row above the joining row. *)
Lemma row_above y :
  0 <= y < b →
  span w y 0 (w + 1)
    (idle (marker_after (y - 1)) (objects_after (y - 1)) (store_after (y - 1))) =
  Done (idle (marker_after y) (objects_after y) (store_after y)).
Proof.
  intros Hy.
  rewrite (span_split w y 0 a (w + 1)) by lia.
  rewrite (skip_span w h image threshold width_two)
    by (first [lia | intros x Hx; split; [by_cases | intros; apply below_U; lia]]).
  rewrite bind_Done_l.
  rewrite (span_split w y a (a + 2) (w + 1)) by lia.
  rewrite (bar_span _ _ _ a y (t1 <=? y)); try lia.
  2:{ destruct (Z.leb_spec t1 y); [apply above_U | apply below_U]; lia. }
  2:{ intros. apply below_U; lia. }
  2:{ destruct (Z.leb_spec t1 (y - 1)); [right | left]; by_cases.
      all: repeat split; by_cases. }
  rewrite bind_Done_l.
  rewrite (span_split w y (a + 2) c (w + 1)) by lia.
  rewrite (skip_span w h image threshold width_two)
    by (first [lia | intros x Hx; split; [by_cases | intros; apply below_U; lia]]).
  rewrite bind_Done_l.
  rewrite (span_split w y c (c + 2) (w + 1)) by lia.
  rewrite (bar_span _ _ _ c y (t2 <=? y)); try lia.
  2:{ destruct (Z.leb_spec t2 y); [apply above_U | apply below_U]; lia. }
  2:{ intros. apply below_U; lia. }
  2:{ destruct (Z.leb_spec t2 (y - 1)); [right | left]; by_cases.
      all: repeat split; by_cases. }
  rewrite bind_Done_l.
  rewrite (skip_span w h image threshold width_two)
    by (first [lia | intros x Hx; split; [by_cases | intros; apply below_U; lia]]).
  unfold engine. apply (f_equal Done). f_equal.
  - apply tab_ext. intros i Hi. by_cases.
  - by_cases.
  - apply tab_ext. intros i Hi. by_cases.
    all: first [apply column_pixels_grows; lia | apply column_pixels_begins; lia].
Qed.

(** The joining row: the segment from [a] to [c] takes up both bars. *)
Lemma row_joining :
  span w b 0 (w + 1)
    (idle (marker_after (b - 1)) (objects_after (b - 1)) (store_after (b - 1))) =
  Done (idle (marker_after b) (objects_after b) (store_after b)).
Proof.
  rewrite (span_split w b 0 a (w + 1)) by lia.
  rewrite (skip_span w h image threshold width_two)
    by (first [lia | intros x Hx; split; [by_cases | intros; apply below_U; lia]]).
  rewrite bind_Done_l.
  rewrite (span_split w b a (a + 1) (w + 1)) by lia. rewrite span_one.
  rewrite (open_under_S w h image threshold width_two);
    [| lia | lia | lia | lia | apply above_U; lia | by_cases].
  rewrite bind_Done_l.
  rewrite (span_split w b (a + 1) (a + 1 + 1) (w + 1)) by lia. rewrite span_one.
  rewrite (inside_under_F w h image threshold width_two);
    [| lia | lia | lia | lia | apply above_U; lia | by_cases].
  rewrite bind_Done_l.
  rewrite (span_split w b (a + 1 + 1) c (w + 1)) by lia.
  rewrite (inside_span _ _ _ _ _ _ _ b (a + 1 + 1) c);
    [| lia | lia | lia | intros x Hx; split; [by_cases | apply above_U; lia]].
  rewrite bind_Done_l.
  rewrite (span_split w b c (c + 1) (w + 1)) by lia. rewrite span_one.
  rewrite (inside_under_S w h image threshold width_two);
    [| lia | lia | lia | lia | apply above_U; lia | by_cases].
  rewrite bind_Done_l.
  rewrite (span_split w b (c + 1) (c + 1 + 1) (w + 1)) by lia. rewrite span_one.
  rewrite (close_under_F w h image threshold width_two);
    [| lia | lia | lia | lia | intros; apply below_U; lia | by_cases | lia | side].
  rewrite bind_Done_l.
  rewrite (skip_span w h image threshold width_two)
    by (first [lia | intros x Hx; split; [by_cases | intros; apply below_U; lia]]).
  unfold engine. apply (f_equal Done). f_equal.
  - apply tab_ext. intros i Hi. by_cases.
  - by_cases.
  - apply tab_ext. intros i Hi. by_cases.
    by apply U_pixels_gathered.
Qed.

(** The row under the joining row: the U, which was not met again, is
    written to the result list. *)
Lemma row_below :
  b + 1 < h →
  span w (b + 1) 0 (w + 1)
    (idle (marker_after (b + 1 - 1)) (objects_after (b + 1 - 1)) (store_after (b + 1 - 1))) =
  Done (idle (marker_after (b + 1)) (objects_after (b + 1)) (store_after (b + 1))).
Proof.
  intros Hb.
  rewrite (span_split w (b + 1) 0 a (w + 1)) by lia.
  rewrite (skip_span w h image threshold width_two)
    by (first [lia | intros x Hx; split; [by_cases | intros; apply below_U; lia]]).
  rewrite bind_Done_l.
  rewrite (span_split w (b + 1) a (a + 1) (w + 1)) by lia. rewrite span_one.
  rewrite (under_S w h image threshold width_two);
    [| lia | lia | lia | lia | apply below_U; lia | by_cases].
  rewrite bind_Done_l.
  rewrite (span_split w (b + 1) (a + 1) (c + 1) (w + 1)) by lia.
  rewrite (skip_span w h image threshold width_two)
    by (first [lia | intros x Hx; split; [by_cases | intros; apply below_U; lia]]).
  rewrite bind_Done_l.
  rewrite (span_split w (b + 1) (c + 1) (c + 1 + 1) (w + 1)) by lia. rewrite span_one.
  rewrite (under_F w h image threshold width_two);
    [| lia | lia | lia | lia | intros; apply below_U; lia | by_cases | ].
  2:{ by_cases. apply U_pixels_not_empty. }
  rewrite bind_Done_l.
  rewrite (skip_span w h image threshold width_two)
    by (first [lia | intros x Hx; split; [by_cases | intros; apply below_U; lia]]).
  unfold engine. apply (f_equal Done). f_equal.
  - apply tab_ext. intros i Hi. by_cases.
  - by_cases.
  - apply tab_ext. intros i Hi. by_cases.
Qed.

(** The rows further down find nothing. *)
Lemma row_after y :
  b + 1 < y < h →
  span w y 0 (w + 1)
    (idle (marker_after (y - 1)) (objects_after (y - 1)) (store_after (y - 1))) =
  Done (idle (marker_after y) (objects_after y) (store_after y)).
Proof.
  intros Hy.
  rewrite (skip_span w h image threshold width_two)
    by (first [lia | intros x Hx; split; [by_cases | intros; apply below_U; lia]]).
  unfold engine. apply (f_equal Done). f_equal.
  - apply tab_ext. intros i Hi. by_cases.
  - by_cases.
  - apply tab_ext. intros i Hi. by_cases.
Qed.

(** Every row takes the engine from the state after the row above to the
    state after the row itself. *)
Lemma row_step y :
  0 <= y < h →
  span w y 0 (w + 1)
    (idle (marker_after (y - 1)) (objects_after (y - 1)) (store_after (y - 1))) =
  Done (idle (marker_after y) (objects_after y) (store_after y)).
Proof.
  intros Hy.
  destruct (Z.lt_trichotomy y b) as [Hlt|[->|Hgt]]; [apply row_above; lia | apply row_joining |].
  destruct (decide (y = b + 1)) as [->|Hne]; [apply row_below; lia | apply row_after; lia].
Qed.

(** The state after the first [n] rows. *)
Lemma rows_scanned (n : nat) ps cs :
  (1 <= n)%nat → Z.of_nat n <= h →
  lutzOnePass.for_ n 0 lutzOnePass.scan_row
    (E (fun _ => NUL) [] (fun _ => []) (fun _ => COMPLETE) (fun _ => -1) (fun _ => -1)
       (fun _ => []) ps cs 0 0) =
  Done (idle (marker_after (Z.of_nat n - 1)) (objects_after (Z.of_nat n - 1))
             (store_after (Z.of_nat n - 1))).
Proof.
  intros Hn Hh. induction n as [|n IH]; [lia|].
  replace (S n) with (n + 1)%nat by lia. rewrite for_app.
  assert (Hrow : ∀ y fM objs fS,
             0 <= y < h → y = Z.of_nat (n + 1) - 1 →
             (∀ i, fM i = marker_after (y - 1) i) → objs = objects_after (y - 1) →
             (∀ i, fS i = store_after (y - 1) i) →
             lutzOnePass.scan_row y (idle fM objs fS) =
             Done (idle (marker_after (Z.of_nat (n + 1) - 1))
                        (objects_after (Z.of_nat (n + 1) - 1))
                        (store_after (Z.of_nat (n + 1) - 1)))).
  { intros y fM objs fS Hy -> HfM -> HfS. rewrite scan_row_span by lia.
    rewrite <- row_step by done.
    f_equal. unfold engine. f_equal; apply tab_ext; intros i Hi; [apply HfM | apply HfS]. }
  destruct n as [|n].
  - simpl lutzOnePass.for_. rewrite bind_Done_l, bind_Done_r.
    rewrite scan_row_span by lia.
    rewrite <- (scan_row_span w h image threshold _ _ _ _ _ _ _ COMPLETE NONOBJECT) by lia.
    apply Hrow; [lia | lia | intros i; by_cases | by_cases | intros i; by_cases].
  - rewrite IH by lia. rewrite bind_Done_l.
    simpl lutzOnePass.for_. rewrite bind_Done_r.
    apply Hrow; [lia | lia | intros i; f_equal; lia | f_equal; lia | intros i; f_equal; lia].
Qed.

(** The scan of a U ends with the U as the only object of the result
    list, and the joining branch of the 's' marker was never taken. *)
Lemma U_scan ps cs :
  ∃ o, (o' ← lutzOnePass.for_ (Z.to_nat h) 0 lutzOnePass.scan_row
              (E (fun _ => NUL) [] (fun _ => []) (fun _ => COMPLETE) (fun _ => -1)
                 (fun _ => -1) (fun _ => []) ps cs 0 0);
        Done (lutzOnePass.StoreClearance o')) = Done o ∧
       lutzOnePass.m_Objects o = [lutzObject.of_pixels (U_pixels image w a c t1 t2 b)] ∧
       lutzOnePass.joins o = O.
Proof.
  rewrite rows_scanned by lia. rewrite bind_Done_l.
  eexists. split; [reflexivity|].
  unfold lutzOnePass.StoreClearance. engine_norm. simpl.
  replace (Z.of_nat (Z.to_nat h) - 1) with (h - 1) by lia.
  destruct (decide (h - 1 = b)) as [Hlast|Hlast].
  - rewrite (WriteObject_single _ _ a) by (first [lia | intros i Hi Hne; by_cases]).
    engine_fold. rewrite WriteObject_E by (by_cases; apply U_pixels_not_empty).
    engine_norm. split; [|done]. by_cases.
  - rewrite WriteObject_none by (intros i Hi; by_cases).
    split; [|done]. by_cases.
Qed.
End UShape.

(** ** C2: a U is found as one object *)

Lemma of_pixels_positions (pixels : list lutzObject.pixData) (p : Z * Z) :
  p ∈ lutzObject.positions (lutzObject.of_pixels pixels) ↔ p ∈ lutzObject.position <$> pixels.
Proof.
  unfold lutzObject.of_pixels. rewrite append_all_positions.
  unfold lutzObject.positions. simpl. set_solver.
Qed.




(** * Further properties of the object class *)

(** ** Overlap *)

(** X11: [overlaps] answers whether the two objects hold a common position,
    and the answer does not depend on which of the two is asked. *)
Theorem overlaps_shares_position (a b : lutzObject.t) :
  (lutzObject.overlaps a b = true ↔ share_position a b) ∧
  lutzObject.overlaps a b = lutzObject.overlaps b a.
Proof.
  assert (Hiff : ∀ a b, lutzObject.overlaps a b = true ↔ share_position a b).
  { intros o o'. unfold lutzObject.overlaps, share_position.
    rewrite existsb_exists. split.
    - intros (p & Hp & Hc). exists (lutzObject.position p). split.
      + by apply contains_position.
      + apply list_elem_of_fmap. exists p. by rewrite list_elem_of_In.
    - intros (q & Hq & Hq'). apply list_elem_of_fmap in Hq' as (p & -> & Hp).
      exists p. split; [by apply list_elem_of_In|]. by apply contains_position. }
  split; [apply Hiff|].
  destruct (lutzObject.overlaps a b) eqn:Hab, (lutzObject.overlaps b a) eqn:Hba; try done.
  - apply Hiff in Hab as (p & Hp & Hp').
    assert (lutzObject.overlaps b a = true) as Hc by (apply Hiff; by exists p).
    congruence.
  - apply Hiff in Hba as (p & Hp & Hp').
    assert (lutzObject.overlaps a b = true) as Hc by (apply Hiff; by exists p).
    congruence.
Qed.

(** ** Invariants of [append], [remove] and [clear] *)

Lemma positions_distinct_append (o : lutzObject.t) (p : lutzObject.pixData) :
  NoDup (lutzObject.positions o) → NoDup (lutzObject.positions (lutzObject.append o p)).
Proof.
  intros Ho. unfold lutzObject.append.
  destruct (lutzObject.contains o p) eqn:Hc; [done|].
  unfold lutzObject.positions in *. simpl. rewrite fmap_app. simpl.
  apply NoDup_app. split_and!; [done| |apply NoDup_singleton].
  intros q Hq ->%list_elem_of_singleton.
  apply contains_position in Hq. congruence.
Qed.

Lemma remove_Done (o o' : lutzObject.t) (index : Z) :
  lutzObject.remove o index = Done o' →
  lutzObject.m_pixInfo o' = delete (Z.to_nat index) (lutzObject.m_pixInfo o) ∧
  lutzObject.m_xmin o' = lutzObject.m_xmin o ∧ lutzObject.m_xmax o' = lutzObject.m_xmax o ∧
  lutzObject.m_ymin o' = lutzObject.m_ymin o ∧ lutzObject.m_ymax o' = lutzObject.m_ymax o.
Proof.
  unfold lutzObject.remove.
  destruct (at_ _ _) as [p| |]; [|done|done]. by intros [= <-].
Qed.

(** X12: whatever sequence of [append], [remove] and [clear] is applied to
    an empty object, no position is ever held twice. *)
Theorem positions_stay_distinct (ops : list object_op) (o' : lutzObject.t) :
  apply_ops lutzObject.clear ops = Done o' → NoDup (lutzObject.positions o').
Proof.
  assert (Hgen : ∀ o, NoDup (lutzObject.positions o) →
                      apply_ops o ops = Done o' → NoDup (lutzObject.positions o')).
  { induction ops as [|op ops IH]; intros o Ho H; simpl in H.
    - by injection H as <-.
    - destruct (apply_op o op) as [o1| |] eqn:E; [|done|done].
      rewrite bind_Done_l in H. apply (IH o1); [|done].
      destruct op as [p|i|]; simpl in E.
      + injection E as <-. by apply positions_distinct_append.
      + apply remove_Done in E as (Hpix & _).
        unfold lutzObject.positions in *. rewrite Hpix.
        rewrite list_fmap_delete. eapply sublist_NoDup; [exact Ho|apply sublist_delete].
      + injection E as <-. constructor. }
  apply Hgen. constructor.
Qed.

Lemma positions_stay_distinct_witness :
  ∃ o', apply_ops lutzObject.clear
          [op_append (lutzObject.pixData_new 2 3 1%float);
           op_append (lutzObject.pixData_new 2 3 5%float);
           op_append (lutzObject.pixData_new 4 3 1%float);
           op_remove 0;
           op_append (lutzObject.pixData_new 2 3 7%float)] = Done o' ∧
        NoDup (lutzObject.positions o').
Proof.
  eexists. split; [reflexivity|].
  apply (positions_stay_distinct
           [op_append (lutzObject.pixData_new 2 3 1%float);
            op_append (lutzObject.pixData_new 2 3 5%float);
            op_append (lutzObject.pixData_new 4 3 1%float);
            op_remove 0;
            op_append (lutzObject.pixData_new 2 3 7%float)]).
  reflexivity.
Defined.

Lemma Forall_submseteq {A} (P : A → Prop) (l1 l2 : list A) :
  l1 ⊆+ l2 → Forall P l2 → Forall P l1.
Proof.
  intros Hl H. apply Forall_forall. intros x Hx.
  eapply Forall_forall in H; [done|]. by eapply elem_of_submseteq.
Qed.

Lemma box_encloses_append (o : lutzObject.t) (p : lutzObject.pixData) :
  box_encloses o → box_encloses (lutzObject.append o p).
Proof.
  intros Ho. unfold lutzObject.append.
  destruct (lutzObject.contains o p); [done|].
  unfold box_encloses in *. simpl.
  apply Forall_app. split.
  - eapply Forall_impl; [exact Ho|]. intros q Hq. simpl in Hq.
    repeat match goal with |- context [?a <? ?b] => destruct (Z.ltb_spec a b) end; lia.
  - apply Forall_singleton.
    repeat match goal with |- context [?a <? ?b] => destruct (Z.ltb_spec a b) end; lia.
Qed.

(** X13: whatever sequence of [append], [remove] and [clear] is applied to
    an empty object, and whatever the coordinates are, the bounds enclose
    every pixel that the object holds. *)
Theorem bounds_enclose_pixels (ops : list object_op) (o' : lutzObject.t) :
  apply_ops lutzObject.clear ops = Done o' → box_encloses o'.
Proof.
  assert (Hgen : ∀ o, box_encloses o → apply_ops o ops = Done o' → box_encloses o').
  { induction ops as [|op ops IH]; intros o Ho H; simpl in H.
    - by injection H as <-.
    - destruct (apply_op o op) as [o1| |] eqn:E; [|done|done].
      rewrite bind_Done_l in H. apply (IH o1); [|done].
      destruct op as [p|i|]; simpl in E.
      + injection E as <-. by apply box_encloses_append.
      + apply remove_Done in E as (Hpix & Hx & Hx' & Hy & Hy').
        unfold box_encloses in *. rewrite Hpix, Hx, Hx', Hy, Hy'.
        eapply Forall_submseteq; [|exact Ho]. apply sublist_submseteq, sublist_delete.
      + injection E as <-. constructor. }
  apply Hgen. constructor.
Qed.

Lemma bounds_enclose_pixels_witness :
  ∃ o', apply_ops lutzObject.clear
          [op_append (lutzObject.pixData_new (-20000000) 3 1%float);
           op_append (lutzObject.pixData_new 5 30000000 2%float);
           op_remove 0] = Done o' ∧
        box_encloses o'.
Proof.
  eexists. split; [reflexivity|].
  apply (bounds_enclose_pixels
           [op_append (lutzObject.pixData_new (-20000000) 3 1%float);
            op_append (lutzObject.pixData_new 5 30000000 2%float);
            op_remove 0]).
  reflexivity.
Defined.

(** ** [pixData::swap] *)

Section Swap.
Context {M : Type} (get : lutzObject.pixData → M) (set : M → lutzObject.pixData → lutzObject.pixData)
  (op : M → M → outcome M).
Variables (v : list lutzObject.pixData) (this other : Z).
Hypothesis this_in : 0 <= this < Z.of_nat (length v).
Hypothesis other_in : 0 <= other < Z.of_nat (length v).

Lemma statement_other (p q : lutzObject.pixData) :
  this ≠ other →
  lutzObject.statement get set op other this other
    (<[Z.to_nat other := q]> (<[Z.to_nat this := p]> v)) =
  (r ← op (get q) (get p);
   Done (<[Z.to_nat other := set r q]> (<[Z.to_nat this := p]> v))).
Proof.
  intros Hne. unfold lutzObject.statement.
  rewrite at_insert_same by (rewrite length_insert; lia).
  rewrite bind_Done_l, at_insert_other, at_insert_same by lia.
  rewrite bind_Done_l. destruct (op (get q) (get p)) as [r| |]; [|done|done].
  rewrite !bind_Done_l, assign_inside by (rewrite !length_insert; lia).
  by rewrite list_insert_insert_eq.
Qed.

Lemma statement_this (p q : lutzObject.pixData) :
  this ≠ other →
  lutzObject.statement get set op this this other
    (<[Z.to_nat other := q]> (<[Z.to_nat this := p]> v)) =
  (r ← op (get q) (get p);
   Done (<[Z.to_nat other := q]> (<[Z.to_nat this := set r p]> v))).
Proof.
  intros Hne. unfold lutzObject.statement.
  rewrite at_insert_same by (rewrite length_insert; lia).
  rewrite bind_Done_l, at_insert_other, at_insert_same by lia.
  rewrite bind_Done_l. destruct (op (get q) (get p)) as [r| |]; [|done|done].
  rewrite !bind_Done_l, assign_inside by (rewrite !length_insert; lia).
  rewrite list_insert_insert_ne by lia.
  by rewrite list_insert_insert_eq.
Qed.

Lemma statement_self (dst : Z) (p : lutzObject.pixData) :
  this = other → dst = this →
  lutzObject.statement get set op dst this other (<[Z.to_nat this := p]> v) =
  (r ← op (get p) (get p); Done (<[Z.to_nat this := set r p]> v)).
Proof.
  intros <- ->. unfold lutzObject.statement.
  rewrite at_insert_same by lia.
  rewrite !bind_Done_l. destruct (op (get p) (get p)) as [r| |]; [|done|done].
  rewrite !bind_Done_l, assign_inside by (rewrite !length_insert; lia).
  by rewrite list_insert_insert_eq.
Qed.

End Swap.

Lemma int_result_Done (z : Z) : INT_MIN <= z <= INT_MAX → int_result z = Done z.
Proof.
  intros Hz. unfold int_result.
  destruct (Z.leb_spec INT_MIN z); [|lia].
  destruct (Z.leb_spec z INT_MAX); [done|lia].
Qed.

(** X17: [swap] between two different pixels of a vector exchanges their
    positions, provided the two sums of coordinates are values of type
    [int]; with [value_only] the positions stay.  No other pixel of the
    vector changes. *)
Theorem swap_exchanges_positions (v : list lutzObject.pixData) (this other : Z)
    (p q : lutzObject.pixData) (value_only : bool) :
  0 <= this → 0 <= other → this ≠ other →
  v !! Z.to_nat this = Some p → v !! Z.to_nat other = Some q →
  int_position p → int_position q →
  INT_MIN <= lutzObject.m_xbin q + lutzObject.m_xbin p <= INT_MAX →
  INT_MIN <= lutzObject.m_ybin q + lutzObject.m_ybin p <= INT_MAX →
  ∃ p' q',
    lutzObject.swap this other value_only v =
      Done (<[Z.to_nat other := q']> (<[Z.to_nat this := p']> v)) ∧
    lutzObject.position p' = (if value_only then lutzObject.position p else lutzObject.position q) ∧
    lutzObject.position q' = (if value_only then lutzObject.position q else lutzObject.position p).
Proof.
  intros Ht Ho Hne Hp Hq [Hpx Hpy] [Hqx Hqy] Hx Hy.
  assert (Hti : 0 <= this < Z.of_nat (length v)).
  { apply lookup_lt_Some in Hp. lia. }
  assert (Hoi : 0 <= other < Z.of_nat (length v)).
  { apply lookup_lt_Some in Hq. lia. }
  assert (Hv : v = <[Z.to_nat other := q]> (<[Z.to_nat this := p]> v)).
  { rewrite (list_insert_id v (Z.to_nat this)) by done. by rewrite list_insert_id. }
  replace (lutzObject.swap this other value_only v)
    with (lutzObject.swap this other value_only
            (<[Z.to_nat other := q]> (<[Z.to_nat this := p]> v)))
    by (by rewrite <- Hv).
  clear Hv. unfold lutzObject.swap.
  destruct value_only; simpl negb; cbv iota.
  - rewrite bind_Done_l.
    repeat first
      [ rewrite (statement_other _ _ _ v this other Hti Hoi) by done
      | rewrite (statement_this _ _ _ v this other Hti Hoi) by done
      | rewrite bind_Done_l
      | progress unfold lutzObject.double_add, lutzObject.double_sub ].
    eexists _, _. split; [reflexivity|]. done.
  - repeat first
      [ rewrite (statement_other _ _ _ v this other Hti Hoi) by done
      | rewrite (statement_this _ _ _ v this other Hti Hoi) by done
      | rewrite bind_Done_l
      | progress unfold lutzObject.double_add, lutzObject.double_sub
      | progress (unfold lutzObject.int_add, lutzObject.int_sub; simpl lutzObject.m_xbin; simpl lutzObject.m_ybin)
      | rewrite int_result_Done by lia ].
    eexists _, _. split; [reflexivity|].
    unfold lutzObject.position. simpl. split; f_equal; lia.
Qed.

Lemma swap_exchanges_positions_witness :
  ∃ p' q',
    lutzObject.swap 0 1 false
      [lutzObject.pixData_new 1 2 3%float; lutzObject.pixData_new 4 5 6%float] =
      Done [p'; q'] ∧
    lutzObject.position p' = (4, 5) ∧ lutzObject.position q' = (1, 2).
Proof.
  apply (swap_exchanges_positions
           [lutzObject.pixData_new 1 2 3%float; lutzObject.pixData_new 4 5 6%float]
           0 1 (lutzObject.pixData_new 1 2 3%float) (lutzObject.pixData_new 4 5 6%float)
           false);
    try reflexivity; try lia; try (vm_compute; intuition discriminate).
Defined.

(** X18: [swap] of a pixel with itself does not leave it as it was: the
    pixel ends at position (0, 0). *)
Theorem swap_with_itself (v : list lutzObject.pixData) (this : Z) (p : lutzObject.pixData) :
  0 <= this → v !! Z.to_nat this = Some p →
  INT_MIN <= 2 * lutzObject.m_xbin p <= INT_MAX →
  INT_MIN <= 2 * lutzObject.m_ybin p <= INT_MAX →
  ∃ p', lutzObject.swap this this false v = Done (<[Z.to_nat this := p']> v) ∧
        lutzObject.position p' = (0, 0).
Proof.
  intros Ht Hp Hx Hy.
  assert (Hti : 0 <= this < Z.of_nat (length v)).
  { apply lookup_lt_Some in Hp. lia. }
  replace (lutzObject.swap this this false v)
    with (lutzObject.swap this this false (<[Z.to_nat this := p]> v))
    by (by rewrite list_insert_id).
  unfold lutzObject.swap. simpl negb. cbv iota.
  repeat first
    [ rewrite (statement_self _ _ _ v this this Hti) by done
    | rewrite bind_Done_l
    | progress unfold lutzObject.double_add, lutzObject.double_sub
    | progress (unfold lutzObject.int_add, lutzObject.int_sub; simpl lutzObject.m_xbin; simpl lutzObject.m_ybin)
    | rewrite int_result_Done by (unfold INT_MIN, INT_MAX in *; lia) ].
  eexists. split; [reflexivity|].
  unfold lutzObject.position. simpl. f_equal; lia.
Qed.

Lemma swap_with_itself_witness :
  ∃ p', lutzObject.swap 0 0 false [lutzObject.pixData_new 3 4 5%float] = Done [p'] ∧
        lutzObject.position p' = (0, 0).
Proof.
  apply (swap_with_itself [lutzObject.pixData_new 3 4 5%float] 0
           (lutzObject.pixData_new 3 4 5%float));
    try reflexivity; try lia; try (vm_compute; intuition discriminate).
Defined.

(** On two different pixels with the values 1e30 and 1, [swap] hands
    the value 1e30 over and leaves 0 where the value 1 should arrive: the
    sum 1e30 + 1 is rounded to 1e30.  Hence [swap] does not exchange the
    values of every pair of pixels. *)
Example swap_loses_small_value :
  ¬ ∀ p q : lutzObject.pixData,
      ∃ p' q', lutzObject.swap 0 1 true [p; q] = Done [p'; q'] ∧
               lutzObject.m_value p' = lutzObject.m_value q ∧
               lutzObject.m_value q' = lutzObject.m_value p.
Proof.
  intros H.
  destruct (H (lutzObject.pixData_new 0 0 1e30%float) (lutzObject.pixData_new 1 0 1%float))
    as (p' & q' & Hs & Hp & Hq).
  vm_compute in Hs. injection Hs as <- <-.
  vm_compute in Hp. discriminate Hp.
Qed.

(** ** [centroid] *)

(** X19: [centroid] fails to return exactly when its test on the sum of
    weights fails in the mode without bin weights, and, when called with
    bin weights, fails in that mode as well. *)
Theorem centroid_diverges_exactly (o : lutzObject.t) :
  (diverges o false ↔ PrimFloat.ltb 0%float (weight_sum o false) = false) ∧
  (diverges o true ↔ PrimFloat.ltb 0%float (weight_sum o true) = false ∧
                     PrimFloat.ltb 0%float (weight_sum o false) = false).
Proof.
  assert (Hfalse : diverges o false ↔ PrimFloat.ltb 0%float (weight_sum o false) = false).
  { split.
    - intros H. specialize (H 1%nat). rewrite centroid_unfold in H.
      by destruct (PrimFloat.ltb 0%float (weight_sum o false)).
    - intros H fuel. induction fuel as [|fuel IH]; [done|].
      by rewrite centroid_unfold, H. }
  split; [done|]. split.
  - intros H. pose proof (H 1%nat) as H1. rewrite centroid_unfold in H1.
    destruct (PrimFloat.ltb 0%float (weight_sum o true)) eqn:Hw; [done|].
    split; [done|]. apply Hfalse. intros fuel.
    specialize (H (S fuel)). by rewrite centroid_unfold, Hw in H.
  - intros [Hw Hw'] [|fuel]; [done|].
    rewrite centroid_unfold, Hw. by apply Hfalse.
Qed.

(** X20: on an object without pixels [centroid] never returns, with or
    without bin weights. *)
Theorem centroid_of_empty_object (o : lutzObject.t) (weight_bins : bool) :
  lutzObject.m_pixInfo o = [] → diverges o weight_bins.
Proof.
  intros Hempty.
  assert (Hw : ∀ b, PrimFloat.ltb 0%float (weight_sum o b) = false).
  { intros b. unfold weight_sum, lutzObject.centroid_sums. by rewrite Hempty. }
  intros fuel. revert weight_bins.
  induction fuel as [|fuel IH]; intros weight_bins; [done|].
  by rewrite centroid_unfold, Hw.
Qed.

Lemma centroid_of_empty_object_witness :
  diverges lutzObject.clear true ∧ diverges lutzObject.clear false.
Proof.
  split; apply (centroid_of_empty_object lutzObject.clear); reflexivity.
Defined.

(** ** Summary fields *)

(** X14: as long as [remove] is not used and the coordinates are strictly
    inside the sentinels of [clear], every sequence of [append] and [clear]
    on an empty object leaves the bounding box exact and the sum equal to
    the total of the stored values in storage order. *)
Theorem summary_exact_without_remove (ops : list object_op) :
  Forall keeps_summary ops →
  ∃ o', apply_ops lutzObject.clear ops = Done o' ∧
        bounding_box_exact o' ∧
        lutzObject.m_value_sum o' = value_total (lutzObject.m_pixInfo o').
Proof.
  intros Hops.
  destruct (summary_kept_without_remove ops lutzObject.clear Hops summary_kept_clear)
    as (o' & Ho' & _ & Hbox & Hsum & _).
  by exists o'.
Qed.

Lemma summary_exact_without_remove_witness :
  ∃ o', apply_ops lutzObject.clear
          [op_append (lutzObject.pixData_new 7 7 1%float); op_clear;
           op_append (lutzObject.pixData_new 2 3 1%float);
           op_append (lutzObject.pixData_new (-4) 9 2%float)] = Done o' ∧
        bounding_box_exact o' ∧
        lutzObject.m_value_sum o' = value_total (lutzObject.m_pixInfo o').
Proof.
  apply (summary_exact_without_remove
           [op_append (lutzObject.pixData_new 7 7 1%float); op_clear;
            op_append (lutzObject.pixData_new 2 3 1%float);
            op_append (lutzObject.pixData_new (-4) 9 2%float)]).
  repeat constructor; simpl; lia.
Defined.

(** * What [run] hands out *)

(** ** Every pixel held is a pixel of the image *)

Lemma at_Done_elem {A} (v : list A) (i : Z) (a : A) : at_ v i = Done a → a ∈ v.
Proof.
  unfold at_. destruct (i <? 0); [done|].
  destruct (v !! Z.to_nat i) as [b|] eqn:Hb; [|done].
  intros [= <-]. by eapply list_elem_of_lookup_2.
Qed.

Lemma assign_Done {A} (v v' : list A) (i : Z) (a : A) :
  assign v i a = Done v' → v' = <[Z.to_nat i := a]> v.
Proof. unfold assign. destruct (_ || _); [done|]. by intros [= <-]. Qed.

(** Splits a sequence of steps that returned into its steps; what a read
    returned is recorded as an element of the vector. *)
Ltac step_done H :=
  lazymatch type of H with
  | (?m ≫= _) = Done _ =>
      let a := fresh "a" in
      let E := fresh "E" in
      destruct m as [a| |] eqn:E;
      [ rewrite bind_Done_l in H; step_done E; step_done H
      | by (simpl in H) | by (simpl in H) ]
  | (if ?b then _ else _) = Done _ =>
      let Hb := fresh "Hb" in destruct b eqn:Hb; step_done H
  | (match ?x with [] => _ | _ :: _ => _ end) = Done _ =>
      let Hx := fresh "Hx" in destruct x eqn:Hx; step_done H
  | Done _ = Done _ => injection H as H; try subst
  | at_ _ _ = Done _ => apply at_Done_elem in H
  | assign _ _ _ = Done _ => apply assign_Done in H; try subst
  | _ => idtac
  end.

Lemma sound_ModPSSTACK o0 s s' action :
  sound o0 s → lutzOnePass.ModPSSTACK action s = Done s' → sound o0 s'.
Proof.
  intros Hs H. unfold lutzOnePass.ModPSSTACK in H.
  destruct action; step_done H; exact Hs.
Qed.

Lemma Forall_elem {A} (P : A → Prop) (v : list A) (a : A) :
  Forall P v → a ∈ v → P a.
Proof. intros Hv Ha. by eapply Forall_forall in Hv. Qed.

(** Goals about [sound] after the fields of the engine were written. *)
Ltac sound_auto :=
  unfold sound in *; simpl in *;
  repeat match goal with H : _ ∧ _ |- _ => destruct H end;
  repeat split; try done;
  repeat first [ apply Forall_insert | apply Forall_app_2 | apply Forall_nil_2 ];
  try done;
  try (eapply Forall_elem; [|eassumption]; done).

Lemma sound_ModOBSTACK o0 s s' action xbin :
  sound o0 s → lutzOnePass.ModOBSTACK action xbin s = Done s' → sound o0 s'.
Proof.
  intros Hs H. unfold lutzOnePass.ModOBSTACK in H.
  destruct action; step_done H.
  all: match goal with E : lutzOnePass.ModPSSTACK _ _ = Done _ |- _ =>
         eapply sound_ModPSSTACK in E; [|exact Hs] end.
  all: sound_auto.
Qed.

Lemma sound_WriteObject o0 s obj :
  sound o0 s → Forall (image_pixel o0) obj → sound o0 (lutzOnePass.WriteObject obj s).
Proof.
  intros Hs Hobj. unfold lutzOnePass.WriteObject.
  destruct (_ && _) eqn:Hb; [|done].
  sound_auto. apply Forall_singleton. exists obj. split_and!; try done.
  intros ->. done.
Qed.

Lemma sound_StartSegment o0 s s' xindx :
  sound o0 s → lutzOnePass.StartSegment xindx s = Done s' → sound o0 s'.
Proof.
  intros Hs H. unfold lutzOnePass.StartSegment in H.
  step_done H.
  all: try match goal with E : lutzOnePass.ModOBSTACK _ _ _ = Done _ |- _ =>
         eapply sound_ModOBSTACK in E; [|exact Hs] end.
  all: sound_auto.
Qed.

Lemma sound_EndSegment o0 s s' xindx :
  sound o0 s → lutzOnePass.EndSegment xindx s = Done s' → sound o0 s'.
Proof.
  intros Hs H. unfold lutzOnePass.EndSegment in H.
  step_done H.
  all: try match goal with E : lutzOnePass.ModOBSTACK _ _ _ = Done _ |- _ =>
         eapply sound_ModOBSTACK in E; [|exact Hs] end.
  all: sound_auto.
Qed.

Lemma sound_ProcessNewMarker o0 s s' prev_marker xindx :
  sound o0 s → lutzOnePass.ProcessNewMarker prev_marker xindx s = Done s' → sound o0 s'.
Proof.
  intros Hs H. unfold lutzOnePass.ProcessNewMarker in H.
  step_done H.
  all: try match goal with E : lutzOnePass.ModPSSTACK _ _ = Done _ |- _ =>
         eapply sound_ModPSSTACK in E; [|exact Hs] end.
  all: try (sound_auto; fail).
  match goal with |- context [lutzOnePass.WriteObject ?p ?st] =>
    assert (Hw : sound o0 (lutzOnePass.WriteObject p st))
      by (apply sound_WriteObject; sound_auto);
    clear E1; generalize dependent (lutzOnePass.WriteObject p st); intros
  end.
  sound_auto.
Qed.

Lemma sound_no_pixel o0 s s' prev_marker xindx :
  sound o0 s → lutzOnePass.no_pixel prev_marker xindx s = Done s' → sound o0 s'.
Proof.
  intros Hs H. unfold lutzOnePass.no_pixel in H.
  step_done H.
  all: try match goal with E : lutzOnePass.ProcessNewMarker _ _ _ = Done _ |- _ =>
         eapply sound_ProcessNewMarker in E; [|exact Hs] end.
  all: try match goal with E : lutzOnePass.EndSegment _ _ = Done _ |- _ =>
         eapply sound_EndSegment in E; [|eassumption] end.
  all: done.
Qed.


Lemma GetPixValue_configuration (o o' : lutzOnePass.t) (x y : Z) :
  configuration o = configuration o' →
  lutzOnePass.GetPixValue x y o = lutzOnePass.GetPixValue x y o'.
Proof.
  intros [= Hw _ _ Himg _]. unfold lutzOnePass.GetPixValue. by rewrite Hw, Himg.
Qed.

Lemma scanned_pixel_is_image_pixel o0 s marker x y val :
  0 <= x < lutzOnePass.m_xpix o0 → 0 <= y < lutzOnePass.m_ypix o0 →
  configuration s = configuration o0 →
  lutzOnePass.GetPixValue x y s = Done val →
  lutzOnePass.AssessPixel x y (lutzOnePass.with_MARKER marker s) = Done true →
  image_pixel o0 (lutzObject.set_value val (lutzObject.pixData_new x y 0)).
Proof.
  intros Hx Hy Hc Hval Hb. unfold image_pixel. simpl.
  rewrite <- (GetPixValue_configuration s o0) by done.
  split_and!; try done; try lia.
  unfold lutzOnePass.AssessPixel in Hb.
  change (lutzOnePass.GetPixValue x y (lutzOnePass.with_MARKER marker s))
    with (lutzOnePass.GetPixValue x y s) in Hb.
  rewrite Hval in Hb. simpl in Hb. injection Hb as Hb.
  injection Hc as _ _ _ _ Hthr. by rewrite <- Hthr.
Qed.

Lemma sound_scan_pixel o0 s s' yindx xindx :
  0 <= xindx < lutzOnePass.m_xpix o0 → 0 <= yindx < lutzOnePass.m_ypix o0 →
  sound o0 s → lutzOnePass.scan_pixel yindx xindx s = Done s' → sound o0 s'.
Proof.
  intros Hx Hy Hs H. unfold lutzOnePass.scan_pixel in H.
  step_done H.
  all: try match goal with
    | Hv : lutzOnePass.GetPixValue _ _ _ = Done _,
      Hb : lutzOnePass.AssessPixel _ _ _ = Done true |- _ =>
        pose proof (scanned_pixel_is_image_pixel o0 _ _ _ _ _ Hx Hy (proj1 Hs) Hv Hb) as Hpix;
        clear Hv Hb
    end.
  all: assert (Hm : sound o0 (lutzOnePass.with_MARKER (<[Z.to_nat xindx:=lutzOnePass.NUL]> (lutzOnePass.m_MARKER s)) s)) by exact Hs.
  all: try match goal with E : lutzOnePass.StartSegment _ _ = Done _ |- _ =>
         eapply sound_StartSegment in E; [|exact Hm] end.
  all: try match goal with E : lutzOnePass.ProcessNewMarker _ _ _ = Done _ |- _ =>
         eapply sound_ProcessNewMarker in E; [|eassumption] end.
  all: try match goal with E : lutzOnePass.no_pixel _ _ _ = Done _ |- _ =>
         eapply sound_no_pixel in E; [|exact Hm] end.
  all: try done.
  all: clear Hm; sound_auto.
  all: by apply Forall_singleton.
Qed.

Lemma sound_for {n from} (body : Z → lutzOnePass.t → outcome lutzOnePass.t) o0 s s' :
  (∀ i a a', from <= i < from + Z.of_nat n → sound o0 a → body i a = Done a' → sound o0 a') →
  sound o0 s → lutzOnePass.for_ n from body s = Done s' → sound o0 s'.
Proof.
  revert from s. induction n as [|n IH]; intros from s Hbody Hs H; simpl in H.
  - by injection H as <-.
  - destruct (body from s) as [a| |] eqn:E; [|done|done].
    rewrite bind_Done_l in H. eapply (IH (from + 1)); [| |exact H].
    + intros i b b' Hi. apply Hbody. lia.
    + eapply Hbody; [|exact Hs|exact E]. lia.
Qed.

Lemma sound_scan_row o0 s s' yindx :
  0 <= yindx < lutzOnePass.m_ypix o0 →
  sound o0 s → lutzOnePass.scan_row yindx s = Done s' → sound o0 s'.
Proof.
  intros Hy Hs H. unfold lutzOnePass.scan_row in H.
  step_done H.
  match goal with E : lutzOnePass.for_ _ _ _ _ = Done _ |- _ =>
    eapply (sound_for _ o0) in E; [| |exact Hs] end.
  2:{ intros i b b' Hi. apply sound_scan_pixel; [|done].
      change (lutzOnePass.m_xpix (lutzOnePass.with_CS lutzOnePass.NONOBJECT
               (lutzOnePass.with_PS lutzOnePass.COMPLETE s)))
        with (lutzOnePass.m_xpix s) in Hi.
      destruct Hs as [[= Hw _ _ _ _] _]. lia. }
  match goal with E : lutzOnePass.no_pixel _ _ _ = Done _ |- _ =>
    eapply sound_no_pixel in E; [done|] end.
  done.
Qed.

Lemma sound_StoreClearance o0 s :
  sound o0 s → sound o0 (lutzOnePass.StoreClearance s).
Proof.
  intros Hs. unfold lutzOnePass.StoreClearance.
  assert (Hall : Forall (Forall (image_pixel o0)) (lutzOnePass.m_STORE s)) by apply Hs.
  revert Hall. generalize (lutzOnePass.m_STORE s) at 1 3 as l.
  intros l Hl.
  assert (Hf : sound o0 (fold_left (λ o obj, lutzOnePass.WriteObject obj o) l s)).
  { revert s Hs. induction Hl as [|obj l Hobj _ IH]; intros s Hs; [done|].
    simpl. apply IH. by apply sound_WriteObject. }
  generalize dependent (fold_left (λ o obj, lutzOnePass.WriteObject obj o) l s).
  intros s2 Hs2. sound_auto.
  apply Forall_replicate. constructor.
Qed.


Lemma vector_n_Done {A} (n : Z) (x : A) (v : list A) :
  vector_n n x = Done v → v = replicate (Z.to_nat n) x.
Proof. unfold vector_n. destruct (n <? 0); [done|]. by intros [= <-]. Qed.

Lemma sound_init_members o o' : lutzOnePass.init_members o = Done o' → sound o o'.
Proof.
  intros H. unfold lutzOnePass.init_members in H. step_done H.
  repeat match goal with E : vector_n _ _ = Done _ |- _ =>
    apply vector_n_Done in E; subst end.
  sound_auto; apply Forall_replicate; constructor.
Qed.

Lemma sound_run o o' : lutzOnePass.run o = Done o' → sound o o'.
Proof.
  intros H. unfold lutzOnePass.run in H.
  step_done H.
  match goal with E : lutzOnePass.init_members _ = Done _ |- _ =>
    apply sound_init_members in E; rename E into Hinit end.
  apply sound_StoreClearance.
  match goal with E : lutzOnePass.for_ _ _ _ _ = Done _ |- _ =>
    eapply (sound_for _ o) in E; [done| |exact Hinit] end.
  intros i b b' Hi. apply sound_scan_row.
  destruct Hinit as [[= _ Hh _ _ _] _]. simpl in Hi. lia.
Qed.
(** ** Vectors without a repeated position *)

Lemma Forall_mono {A} (P Q : A → Prop) (l : list A) :
  Forall P l → (∀ a, P a → Q a) → Forall Q l.
Proof. intros H HPQ. by eapply Forall_impl. Qed.

Lemma append_all_distinct (pixels : list lutzObject.pixData) (o : lutzObject.t) :
  NoDup (lutzObject.positions o ++ (lutzObject.position <$> pixels)) →
  lutzObject.m_pixInfo (lutzObject.append_all o pixels) = lutzObject.m_pixInfo o ++ pixels.
Proof.
  revert o. induction pixels as [|p pixels IH]; intros o H; simpl.
  - by rewrite app_nil_r.
  - apply NoDup_app in H as (Ho & Hdisj & Hp).
    apply NoDup_cons in Hp as [Hp Hrest].
    assert (Hfresh : lutzObject.position p ∉ lutzObject.positions o).
    { intros Hin. apply (Hdisj _ Hin). left. }
    unfold lutzObject.append_all in *. rewrite IH.
    + rewrite append_fresh_pixels by done. by rewrite <- app_assoc.
    + unfold lutzObject.positions. rewrite append_fresh_pixels by done.
      rewrite fmap_app. simpl. rewrite <- app_assoc. simpl.
      apply NoDup_app. split_and!; [done| |by apply NoDup_cons].
      intros q Hq [->|Hq']%elem_of_cons; [done|]. by apply (Hdisj q); [|right].
Qed.

Lemma of_pixels_distinct (pixels : list lutzObject.pixData) :
  NoDup (lutzObject.position <$> pixels) →
  lutzObject.m_pixInfo (lutzObject.of_pixels pixels) = pixels.
Proof. intros H. unfold lutzObject.of_pixels. by rewrite append_all_distinct. Qed.

(** ** No position is held twice *)

Lemma bag_app l1 l2 : bag (l1 ++ l2) = bag l1 ⊎ bag l2.
Proof. unfold bag. by rewrite fmap_app, list_to_set_disj_app. Qed.

Lemma bag_nil : bag [] = ∅.
Proof. done. Qed.

Lemma bag_concat_cons l ls : bag (concat (l :: ls)) = bag l ⊎ bag (concat ls).
Proof. simpl. apply bag_app. Qed.

Lemma bag_insert (ls : list (list lutzObject.pixData)) (i : nat) old new :
  ls !! i = Some old →
  bag (concat (<[i := new]> ls)) ⊎ bag old = bag (concat ls) ⊎ bag new.
Proof.
  revert i. induction ls as [|l ls IH]; intros [|i] H; simplify_eq/=.
  - rewrite !bag_app. multiset_solver.
  - rewrite !bag_app. specialize (IH i H). multiset_solver.
Qed.

Lemma bag_take_S (ls : list (list lutzObject.pixData)) (n : nat) l :
  ls !! n = Some l → bag (concat (take (S n) ls)) = bag (concat (take n ls)) ⊎ bag l.
Proof.
  intros H. rewrite (take_S_r _ _ _ H), concat_app, bag_app. simpl.
  by rewrite app_nil_r.
Qed.

Lemma submseteq_bag (l1 l2 : list (Z * Z)) :
  (list_to_set_disj l1 : gmultiset (Z * Z)) ⊆ list_to_set_disj l2 → l1 ⊆+ l2.
Proof.
  revert l2. induction l1 as [|x l1 IH]; intros l2 H.
  - apply submseteq_nil_l.
  - rewrite list_to_set_disj_cons in H.
    assert (x ∈ l2) as Hx.
    { apply elem_of_list_to_set_disj. multiset_solver. }
    apply elem_of_Permutation in Hx as [l2' Hl2].
    rewrite Hl2. apply submseteq_skip, IH.
    rewrite Hl2, list_to_set_disj_cons in H. multiset_solver.
Qed.

Lemma NoDup_sub (l1 l2 : list (Z * Z)) : l1 ⊆+ l2 → NoDup l2 → NoDup l1.
Proof.
  intros (l & Hl & Hsub)%submseteq_sublist_r H.
  rewrite Hl. by eapply sublist_NoDup.
Qed.

(** Pixels may leave the pending slots, and no pixel joins: the state
    stays tidy. *)
Lemma tidy_fewer (y x : Z) (s s' : lutzOnePass.t) :
  tidy y x s →
  lutzOnePass.m_npixelmin s' = lutzOnePass.m_npixelmin s →
  lutzOnePass.m_Objects s' = lutzOnePass.m_Objects s →
  bag (pending s') ⊆ bag (pending s) →
  tidy y x s'.
Proof.
  intros (Hnd & Hb & Ho) Hmin Hobj Hsub.
  assert (Hheld : lutzObject.position <$> held s' ⊆+ lutzObject.position <$> held s).
  { apply submseteq_bag. fold (bag (held s')) (bag (held s)).
    unfold held, reported. rewrite !bag_app, Hobj. multiset_solver. }
  split_and!.
  - by eapply NoDup_sub.
  - by eapply Forall_submseteq.
  - by rewrite Hmin, Hobj.
Qed.

Lemma at_Done_lookup {A} (v : list A) (i : Z) (a : A) :
  at_ v i = Done a → 0 <= i ∧ v !! Z.to_nat i = Some a.
Proof.
  unfold at_. destruct (Z.ltb_spec i 0); [done|].
  destruct (v !! Z.to_nat i) as [b|]; [|done]. by intros [= <-].
Qed.

Lemma assign_Done_insert {A} (v v' : list A) (i : Z) (a : A) :
  assign v i a = Done v' → (0 <= i < Z.of_nat (length v)) ∧ v' = <[Z.to_nat i := a]> v.
Proof.
  unfold assign. destruct (Z.ltb_spec i 0); [done|].
  destruct (Z.leb_spec (Z.of_nat (length v)) i); [done|].
  intros [= <-]. split; [lia|done].
Qed.

(** Splits a sequence of steps that returned into its steps; what a read
    returned is recorded with the index that was read. *)
Ltac step_keep H :=
  lazymatch type of H with
  | (?m ≫= _) = Done _ =>
      let a := fresh "a" in
      let E := fresh "E" in
      destruct m as [a| |] eqn:E;
      [ rewrite bind_Done_l in H; step_keep E; step_keep H
      | by (simpl in H) | by (simpl in H) ]
  | (if ?b then _ else _) = Done _ =>
      let Hb := fresh "Hb" in destruct b eqn:Hb; step_keep H
  | (match ?x with [] => _ | _ :: _ => _ end) = Done _ =>
      let Hx := fresh "Hx" in destruct x eqn:Hx; step_keep H
  | Done _ = Done _ => injection H as H; try subst
  | at_ _ _ = Done _ =>
      let H1 := fresh "Hi" in apply at_Done_lookup in H as [H1 H]
  | assign _ _ _ = Done _ =>
      let H1 := fresh "Hi" in apply assign_Done_insert in H as [H1 H]; try subst
  | _ => idtac
  end.

Lemma bag_take_insert_lt (ls : list (list lutzObject.pixData)) (n i : nat) old new :
  (i < n)%nat → ls !! i = Some old →
  bag (concat (take n (<[i := new]> ls))) ⊎ bag old = bag (concat (take n ls)) ⊎ bag new.
Proof.
  intros Hi H. rewrite take_insert_lt by done.
  apply bag_insert. by rewrite lookup_take_lt.
Qed.

(** The slots 0 .. [c] of [m_INFO] when the top slot is written and the
    stack of objects grows, shrinks or stays. *)
Lemma slots_push (ls : list (list lutzObject.pixData)) (c : Z) new :
  0 <= c + 1 < Z.of_nat (length ls) →
  bag (concat (take (Z.to_nat (c + 1 + 1)) (<[Z.to_nat (c + 1) := new]> ls))) =
  bag (concat (take (Z.to_nat (c + 1)) ls)) ⊎ bag new.
Proof.
  intros Hc. replace (Z.to_nat (c + 1 + 1)) with (S (Z.to_nat (c + 1))) by lia.
  rewrite (bag_take_S _ _ new) by (apply list_lookup_insert_eq; lia).
  by rewrite take_insert_ge by lia.
Qed.

Lemma slots_update (ls : list (list lutzObject.pixData)) (c : Z) old new :
  0 <= c → ls !! Z.to_nat c = Some old →
  bag (concat (take (Z.to_nat (c + 1)) (<[Z.to_nat c := new]> ls))) ⊎ bag old =
  bag (concat (take (Z.to_nat (c + 1)) ls)) ⊎ bag new.
Proof. intros Hc H. apply bag_take_insert_lt; [lia|done]. Qed.

Lemma slots_pop (ls : list (list lutzObject.pixData)) (c : Z) old :
  0 <= c → ls !! Z.to_nat c = Some old →
  bag (concat (take (Z.to_nat (c - 1 + 1)) ls)) ⊎ bag old =
  bag (concat (take (Z.to_nat (c + 1)) ls)).
Proof.
  intros Hc H. replace (Z.to_nat (c + 1)) with (S (Z.to_nat c)) by lia.
  replace (Z.to_nat (c - 1 + 1)) with (Z.to_nat c) by lia.
  by rewrite (bag_take_S _ _ old).
Qed.

Lemma slots_pop_written (ls : list (list lutzObject.pixData)) (c : Z) new :
  0 <= c →
  take (Z.to_nat (c - 1 + 1)) (<[Z.to_nat c := new]> ls) =
  take (Z.to_nat (c - 1 + 1)) ls.
Proof. intros Hc. apply take_insert_ge. lia. Qed.

Lemma slots_shrink (ls : list (list lutzObject.pixData)) (c : Z) :
  bag (concat (take (Z.to_nat (c - 1 + 1)) ls)) ⊆ bag (concat (take (Z.to_nat (c + 1)) ls)).
Proof.
  destruct (decide (0 <= c)) as [Hc|Hc].
  - replace (Z.to_nat (c + 1)) with (Z.to_nat (c - 1 + 1) + 1)%nat by lia.
    rewrite <- take_take_drop, concat_app, bag_app. multiset_solver.
  - replace (Z.to_nat (c - 1 + 1)) with (Z.to_nat (c + 1)) by lia. done.
Qed.

(** What the slots and the buffer hold after the write that the goal
    mentions, taken from the reads recorded in the context. *)
Ltac pop_fact :=
  match goal with
  | Hc : 0 <= ?c, H : ?ls !! Z.to_nat ?c = Some ?old
    |- context [take (Z.to_nat (?c - 1 + 1)) ?ls] =>
      pose proof (slots_pop ls c old Hc H)
  end.

Ltac store_fact :=
  match goal with
  | H : ?ls !! ?i = Some ?old |- context [concat (<[?i := ?new]> ?ls)] =>
      pose proof (bag_insert ls i old new H)
  end.

Ltac store_range_fact :=
  match goal with
  | Hr : 0 <= ?i < Z.of_nat (length ?ls) |- context [concat (<[Z.to_nat ?i := ?new]> ?ls)] =>
      let Hlt := fresh in
      let old := fresh "old" in
      let Hold := fresh in
      assert (Hlt : (Z.to_nat i < length ls)%nat)
        by (unfold lutzOnePass.Object in *; lia);
      destruct (lookup_lt_is_Some_2 ls (Z.to_nat i) Hlt) as [old Hold];
      pose proof (bag_insert ls (Z.to_nat i) old new Hold)
  end.

Ltac update_fact :=
  match goal with
  | Hc : 0 <= ?c, H : ?ls !! Z.to_nat ?c = Some ?old
    |- context [take (Z.to_nat (?c + 1)) (<[Z.to_nat ?c := ?new]> ?ls)] =>
      pose proof (slots_update ls c old new Hc H)
  end.

(** The pending pixels after a step are among those before it. *)
Ltac fewer :=
  eapply tidy_fewer; [eassumption|done|done|];
  unfold pending, lutzOnePass.Object in *; simpl in *;
  rewrite ?bag_app;
  rewrite ?slots_push by done;
  rewrite ?slots_pop_written by done;
  try pop_fact; try update_fact; try first [store_fact | store_range_fact];
  try match goal with |- context [take (Z.to_nat (?c - 1 + 1)) ?ls] =>
        pose proof (slots_shrink ls c) end;
  rewrite ?bag_app, ?bag_nil in *;
  multiset_solver.

Lemma tidy_ModPSSTACK y x s s' action :
  tidy y x s → lutzOnePass.ModPSSTACK action s = Done s' → tidy y x s'.
Proof.
  intros Hs H. unfold lutzOnePass.ModPSSTACK in H.
  destruct action; step_keep H; exact Hs.
Qed.

Lemma tidy_ModOBSTACK y x s s' action xbin :
  tidy y x s → lutzOnePass.ModOBSTACK action xbin s = Done s' → tidy y x s'.
Proof.
  intros Hs H. unfold lutzOnePass.ModOBSTACK in H.
  destruct action; step_keep H.
  all: match goal with E : lutzOnePass.ModPSSTACK _ _ = Done _ |- _ =>
         eapply tidy_ModPSSTACK in E; [|exact Hs] end.
  all: eapply tidy_fewer; [eassumption|done|done|].
  all: unfold pending, lutzOnePass.Object in *; simpl in *.
  all: rewrite !bag_app.
  - rewrite slots_push by done. rewrite bag_nil. multiset_solver.
  - rewrite slots_pop_written by done. pop_fact. multiset_solver.
  - rewrite slots_pop_written by done. pop_fact. store_fact.
    rewrite ?bag_app in *. multiset_solver.
Qed.

Lemma WriteObject_fields (pixels : lutzOnePass.Object) (s : lutzOnePass.t) :
  lutzOnePass.m_INFO (lutzOnePass.WriteObject pixels s) = lutzOnePass.m_INFO s ∧
  lutzOnePass.m_STORE (lutzOnePass.WriteObject pixels s) = lutzOnePass.m_STORE s ∧
  lutzOnePass.co (lutzOnePass.WriteObject pixels s) = lutzOnePass.co s ∧
  lutzOnePass.pstop (lutzOnePass.WriteObject pixels s) = lutzOnePass.pstop s ∧
  lutzOnePass.m_PSSTACK (lutzOnePass.WriteObject pixels s) = lutzOnePass.m_PSSTACK s ∧
  lutzOnePass.m_npixelmin (lutzOnePass.WriteObject pixels s) = lutzOnePass.m_npixelmin s.
Proof. unfold lutzOnePass.WriteObject. by destruct (_ && _). Qed.

(** The pixels of a pending vector move to the result list, or are
    dropped by the size filter. *)
Lemma tidy_written (y x : Z) (s s' : lutzOnePass.t) (pixels : lutzOnePass.Object) :
  tidy y x s →
  lutzOnePass.m_npixelmin s' = lutzOnePass.m_npixelmin s →
  lutzOnePass.m_Objects s' = lutzOnePass.m_Objects (lutzOnePass.WriteObject pixels s) →
  bag (pending s') ⊎ bag pixels ⊆ bag (pending s) →
  tidy y x s'.
Proof.
  intros (Hnd & Hb & Ho) Hmin Hobj Hsub.
  assert (Hpix : NoDup (lutzObject.position <$> pixels)).
  { eapply NoDup_sub; [|exact Hnd]. apply submseteq_bag.
    fold (bag pixels) (bag (held s)). unfold held. rewrite bag_app. multiset_solver. }
  rewrite WriteObject_kept in Hobj.
  destruct (kept (lutzOnePass.m_npixelmin s) pixels) eqn:Hk.
  - simpl in Hobj.
    assert (Hrep : reported s' = reported s ++ pixels).
    { unfold reported. rewrite Hobj, fmap_app, concat_app. simpl.
      by rewrite app_nil_r, of_pixels_distinct. }
    assert (Hheld : lutzObject.position <$> held s' ⊆+ lutzObject.position <$> held s).
    { apply submseteq_bag. fold (bag (held s')) (bag (held s)).
      unfold held. rewrite Hrep, !bag_app. multiset_solver. }
    split_and!.
    + by eapply NoDup_sub.
    + by eapply Forall_submseteq.
    + rewrite Hmin, Hobj. apply Forall_app. split; [done|].
      apply Forall_singleton. by rewrite of_pixels_distinct.
  - apply (tidy_fewer y x s); [done|done|done|]. multiset_solver.
Qed.

Lemma tidy_StartSegment y x s s' xindx :
  tidy y x s → lutzOnePass.StartSegment xindx s = Done s' → tidy y x s'.
Proof.
  intros Hs H. unfold lutzOnePass.StartSegment in H.
  step_keep H.
  all: try match goal with E : lutzOnePass.ModOBSTACK _ _ _ = Done _ |- _ =>
         eapply tidy_ModOBSTACK in E; [|exact Hs] end.
  all: done.
Qed.

Lemma tidy_EndSegment y x s s' xindx :
  tidy y x s → lutzOnePass.EndSegment xindx s = Done s' → tidy y x s'.
Proof.
  intros Hs H. unfold lutzOnePass.EndSegment in H.
  step_keep H.
  all: try match goal with E : lutzOnePass.ModOBSTACK _ _ _ = Done _ |- _ =>
         eapply tidy_ModOBSTACK in E; [|exact Hs] end.
  all: done.
Qed.

Lemma tidy_ProcessNewMarker y x s s' prev_marker xindx :
  tidy y x s → lutzOnePass.ProcessNewMarker prev_marker xindx s = Done s' → tidy y x s'.
Proof.
  intros Hs H. unfold lutzOnePass.ProcessNewMarker in H.
  step_keep H.
  all: try match goal with E : lutzOnePass.ModPSSTACK _ _ = Done _ |- _ =>
         eapply tidy_ModPSSTACK in E; [|exact Hs] end.
  all: try done.
  all: unfold lutzOnePass.Object in *; simpl in *.
  - fewer.
  - fewer.
  - fewer.
  - fewer.
  - fewer.
  - destruct (WriteObject_fields a2 (lutzOnePass.with_PS a
                (lutzOnePass.with_pstop (lutzOnePass.pstop s - 1) s)))
      as (HI & HS & Hc & Hp & Hk & Hm).
    simpl in *.
    eapply (tidy_written y x (lutzOnePass.with_PS a
              (lutzOnePass.with_pstop (lutzOnePass.pstop s - 1) s)) _ a2); [exact Hs| | |].
    + simpl. by rewrite Hm.
    + simpl. reflexivity.
    + unfold pending, lutzOnePass.Object; simpl. rewrite HI, HS, Hc. rewrite !bag_app.
      rewrite slots_pop_written by done. pop_fact.
      multiset_solver.
  - fewer.
Qed.

Lemma tidy_no_pixel y x s s' prev_marker xindx :
  tidy y x s → lutzOnePass.no_pixel prev_marker xindx s = Done s' → tidy y x s'.
Proof.
  intros Hs H. unfold lutzOnePass.no_pixel in H.
  step_keep H.
  all: try match goal with E : lutzOnePass.ProcessNewMarker _ _ _ = Done _ |- _ =>
         eapply tidy_ProcessNewMarker in E; [|exact Hs] end.
  all: try match goal with E : lutzOnePass.EndSegment _ _ = Done _ |- _ =>
         eapply tidy_EndSegment in E; [|eassumption] end.
  all: done.
Qed.

Lemma scanned_before_next (y x : Z) (p : Z * Z) :
  scanned_before y x p → scanned_before y (x + 1) p.
Proof. unfold scanned_before. lia. Qed.

(** A pixel at the scan position joins the top slot. *)
Lemma tidy_more (y x : Z) (s s' : lutzOnePass.t) (pixel : lutzObject.pixData) :
  tidy y x s →
  lutzObject.position pixel = (x, y) →
  lutzOnePass.m_npixelmin s' = lutzOnePass.m_npixelmin s →
  lutzOnePass.m_Objects s' = lutzOnePass.m_Objects s →
  bag (pending s') ⊆ bag (pending s) ⊎ bag [pixel] →
  tidy y (x + 1) s'.
Proof.
  intros (Hnd & Hb & Ho) Hpos Hmin Hobj Hsub.
  assert (Hheld : lutzObject.position <$> held s' ⊆+
                  (x, y) :: (lutzObject.position <$> held s)).
  { apply submseteq_bag. rewrite list_to_set_disj_cons.
    fold (bag (held s')) (bag (held s)).
    unfold held, reported. rewrite !bag_app, Hobj.
    assert (Hone : bag [pixel] = {[+ (x, y) +]}).
    { unfold bag. rewrite fmap_cons, Hpos, list_to_set_disj_cons. multiset_solver. }
    rewrite Hone in Hsub. multiset_solver. }
  split_and!.
  - eapply NoDup_sub; [exact Hheld|]. apply NoDup_cons_2; [|done].
    intros Hin. apply (Forall_elem _ _ _ Hb) in Hin.
    unfold scanned_before in Hin. simpl in Hin. lia.
  - eapply Forall_submseteq; [exact Hheld|]. constructor.
    + unfold scanned_before. simpl. lia.
    + eapply Forall_mono; [exact Hb|]. apply scanned_before_next.
  - by rewrite Hmin, Hobj.
Qed.

Lemma tidy_next (y x : Z) (s : lutzOnePass.t) : tidy y x s → tidy y (x + 1) s.
Proof.
  intros (Hnd & Hb & Ho). split_and!; [done| |done].
  eapply Forall_mono; [exact Hb|]. apply scanned_before_next.
Qed.

Lemma tidy_scan_pixel s s' yindx xindx :
  tidy yindx xindx s → lutzOnePass.scan_pixel yindx xindx s = Done s' →
  tidy yindx (xindx + 1) s'.
Proof.
  intros Hs H. unfold lutzOnePass.scan_pixel in H.
  step_keep H.
  all: assert (Hm : tidy yindx xindx (lutzOnePass.with_MARKER (<[Z.to_nat xindx:=lutzOnePass.NUL]> (lutzOnePass.m_MARKER s)) s)) by exact Hs.
  all: try match goal with E : lutzOnePass.StartSegment _ _ = Done _ |- _ =>
         eapply tidy_StartSegment in E; [|exact Hm] end.
  all: try match goal with E : lutzOnePass.ProcessNewMarker _ _ _ = Done _ |- _ =>
         eapply tidy_ProcessNewMarker in E; [|eassumption] end.
  all: try match goal with E : lutzOnePass.no_pixel _ _ _ = Done _ |- _ =>
         eapply tidy_no_pixel in E; [|exact Hm] end.
  all: try (by apply tidy_next).
  all: clear Hm.
  all: match goal with |- context [_ ++ [?pix]] =>
         eapply (tidy_more _ _ _ _ pix); [eassumption|reflexivity|done|done|] end.
  all: unfold pending, lutzOnePass.Object in *; simpl in *.
  all: rewrite ?bag_app.
  all: update_fact; rewrite ?bag_app in *; multiset_solver.
Qed.

Lemma tidy_next_row (y x : Z) (s : lutzOnePass.t) : tidy y x s → tidy (y + 1) 0 s.
Proof.
  intros (Hnd & Hb & Ho). split_and!; [done| |done].
  eapply Forall_mono; [exact Hb|]. unfold scanned_before. lia.
Qed.

Lemma for_indexed {St} (P : Z → St → Prop) (n : nat) (from : Z)
    (body : Z → St → outcome St) (s s' : St) :
  (∀ i a a', from <= i < from + Z.of_nat n → P i a → body i a = Done a' → P (i + 1) a') →
  P from s → lutzOnePass.for_ n from body s = Done s' → P (from + Z.of_nat n) s'.
Proof.
  revert from s. induction n as [|n IH]; intros from s Hbody Hs H; simpl in H.
  - injection H as <-. by rewrite Z.add_0_r.
  - destruct (body from s) as [a| |] eqn:E; [|done|done].
    rewrite bind_Done_l in H.
    replace (from + Z.of_nat (S n)) with (from + 1 + Z.of_nat n) by lia.
    eapply (IH (from + 1)); [| |exact H].
    + intros i b b' Hi. apply Hbody. lia.
    + eapply Hbody; [|exact Hs|exact E]. lia.
Qed.

Lemma tidy_scan_row s s' yindx :
  tidy yindx 0 s → lutzOnePass.scan_row yindx s = Done s' → tidy (yindx + 1) 0 s'.
Proof.
  intros Hs H. unfold lutzOnePass.scan_row in H.
  step_keep H.
  match goal with E : lutzOnePass.for_ _ _ _ _ = Done _ |- _ =>
    eapply (for_indexed (tidy yindx)) in E; [| |exact Hs] end.
  2:{ intros i b b' _. apply tidy_scan_pixel. }
  match goal with E : lutzOnePass.no_pixel _ _ _ = Done _ |- _ =>
    eapply tidy_no_pixel in E; [|eassumption] end.
  by eapply tidy_next_row.
Qed.

Lemma concat_replicate_nil {A} (n : nat) : concat (replicate n ([] : list A)) = [].
Proof. induction n as [|n IH]; [done|]. simpl. exact IH. Qed.

Lemma tidy_init_members o o' :
  lutzOnePass.init_members o = Done o' →
  tidy 0 0 (lutzOnePass.with_joins 0 (lutzOnePass.with_pstop 0 (lutzOnePass.with_co 0 o'))).
Proof.
  intros H. unfold lutzOnePass.init_members in H. step_keep H.
  repeat match goal with E : vector_n _ _ = Done _ |- _ =>
    apply vector_n_Done in E; subst end.
  unfold tidy, held, reported, pending. simpl.
  unfold lutzOnePass.Object. rewrite take_replicate, !concat_replicate_nil. simpl.
  split_and!; constructor.
Qed.

(** What [StoreClearance] writes keeps the result list free of repeated
    positions. *)
Lemma flush_minimum (l : list lutzOnePass.Object) (s : lutzOnePass.t) :
  lutzOnePass.m_npixelmin (fold_left (fun o obj => lutzOnePass.WriteObject obj o) l s) =
  lutzOnePass.m_npixelmin s.
Proof.
  revert s. induction l as [|obj l IH]; intros s; [done|].
  simpl. rewrite IH. apply WriteObject_fields.
Qed.

Lemma flush_distinct (l : list lutzOnePass.Object) (s : lutzOnePass.t) :
  NoDup (lutzObject.position <$> (reported s ++ concat l)) →
  Forall (fun obj => kept (lutzOnePass.m_npixelmin s) (lutzObject.m_pixInfo obj) = true)
         (lutzOnePass.m_Objects s) →
  let s' := fold_left (fun o obj => lutzOnePass.WriteObject obj o) l s in
  NoDup (lutzObject.position <$> reported s') ∧
  Forall (fun obj => kept (lutzOnePass.m_npixelmin s) (lutzObject.m_pixInfo obj) = true)
         (lutzOnePass.m_Objects s').
Proof.
  revert s. induction l as [|obj l IH]; intros s Hnd Ho; simpl.
  - by rewrite app_nil_r in Hnd.
  - simpl in Hnd.
    assert (Hobj : NoDup (lutzObject.position <$> obj)).
    { eapply NoDup_sub; [|exact Hnd]. apply submseteq_bag.
      rewrite !fmap_app, !list_to_set_disj_app. multiset_solver. }
    rewrite WriteObject_kept.
    destruct (kept (lutzOnePass.m_npixelmin s) obj) eqn:Hk.
    + apply (IH (lutzOnePass.with_Objects _ s)).
      * unfold reported. simpl. rewrite (fmap_app lutzObject.m_pixInfo), concat_app. simpl.
        rewrite app_nil_r, of_pixels_distinct by done.
        by rewrite <- app_assoc.
      * simpl. apply Forall_app. split; [done|].
        apply Forall_singleton. by rewrite of_pixels_distinct.
    + apply IH; [|done].
      eapply NoDup_sub; [|exact Hnd]. apply submseteq_bag.
      rewrite !fmap_app, !list_to_set_disj_app. multiset_solver.
Qed.

Lemma run_distinct (o o' : lutzOnePass.t) :
  lutzOnePass.run o = Done o' →
  NoDup (lutzObject.position <$> reported o') ∧
  Forall (fun obj => kept (lutzOnePass.m_npixelmin o) (lutzObject.m_pixInfo obj) = true)
         (lutzOnePass.m_Objects o').
Proof.
  intros H. pose proof (sound_run _ _ H) as [[= _ _ Hmin _ _] _].
  unfold lutzOnePass.run in H. step_keep H.
  match goal with E : lutzOnePass.init_members _ = Done _ |- _ =>
    apply tidy_init_members in E; rename E into Hinit end.
  match goal with E : lutzOnePass.for_ _ _ _ _ = Done _ |- _ =>
    eapply (for_indexed (fun y => tidy y 0)) in E; [| |exact Hinit] end.
  2:{ intros i b b' _. apply tidy_scan_row. }
  match goal with E : tidy _ _ ?a |- _ => destruct E as (Hnd & _ & Hk); rename a into s end.
  unfold lutzOnePass.StoreClearance in *. simpl in Hmin.
  destruct (flush_distinct (lutzOnePass.m_STORE s) s) as [H1 H2]; [|done|].
  { eapply NoDup_sub; [|exact Hnd]. apply submseteq_bag.
    unfold held, pending. rewrite !fmap_app, !list_to_set_disj_app. multiset_solver. }
  split; [exact H1|]. simpl. rewrite flush_minimum in Hmin. by rewrite <- Hmin.
Qed.

(** ** What the caller gets *)

Lemma append_all_pixels (pixels : list lutzObject.pixData) (o : lutzObject.t) (p : lutzObject.pixData) :
  p ∈ lutzObject.m_pixInfo (lutzObject.append_all o pixels) →
  p ∈ lutzObject.m_pixInfo o ∨ p ∈ pixels.
Proof.
  revert o. induction pixels as [|q pixels IH]; intros o Hp; simpl in Hp; [by left|].
  apply IH in Hp as [Hp|Hp]; [|right; by right].
  unfold lutzObject.append in Hp.
  destruct (lutzObject.contains o q); [by left|].
  simpl in Hp. apply elem_of_app in Hp as [Hp|Hp]; [by left|].
  apply list_elem_of_singleton in Hp as ->. right. left.
Qed.

(** X23: [run] changes neither the size, nor the image, nor the threshold,
    nor the minimum size of the engine. *)
Theorem run_keeps_configuration (o o' : lutzOnePass.t) :
  lutzOnePass.run o = Done o' → configuration o' = configuration o.
Proof. intros H. by apply sound_run in H as [Hc _]. Qed.

Lemma run_keeps_configuration_witness :
  lutzOnePass.run two_blobs = Done two_blobs_scanned ∧
  configuration two_blobs_scanned = configuration two_blobs.
Proof.
  assert (H : lutzOnePass.run two_blobs = Done two_blobs_scanned)
    by (vm_compute; reflexivity).
  split; [exact H|]. exact (run_keeps_configuration two_blobs two_blobs_scanned H).
Defined.

Lemma emitted_pixels (o : lutzOnePass.t) (obj : lutzObject.t) :
  emitted_from o obj → Forall (image_pixel o) (lutzObject.m_pixInfo obj).
Proof.
  intros (pixels & _ & Hpix & ->). apply Forall_forall. intros p Hp.
  apply append_all_pixels in Hp as [Hp|Hp]; [by apply elem_of_nil in Hp|].
  by eapply Forall_elem.
Qed.

(** X1: every pixel of every object that [run] hands out is a pixel of the
    image: it lies in the grid, its value is the value of the image at its
    position and is above the threshold, and its scale is 1. *)
Theorem run_reports_image_pixels (o o' : lutzOnePass.t) :
  lutzOnePass.run o = Done o' →
  Forall (fun obj => Forall (image_pixel o) (lutzObject.m_pixInfo obj))
         (lutzOnePass.GetObjects o').
Proof.
  intros H. apply sound_run in H as (_ & _ & _ & Hobj).
  eapply Forall_mono; [exact Hobj|]. apply emitted_pixels.
Qed.

Lemma run_reports_image_pixels_witness :
  lutzOnePass.run two_blobs = Done two_blobs_scanned ∧
  Forall (fun obj => Forall (image_pixel two_blobs) (lutzObject.m_pixInfo obj))
         (lutzOnePass.GetObjects two_blobs_scanned).
Proof.
  assert (H : lutzOnePass.run two_blobs = Done two_blobs_scanned)
    by (vm_compute; reflexivity).
  split; [exact H|]. exact (run_reports_image_pixels two_blobs two_blobs_scanned H).
Defined.

Lemma positions_reported (objs : list lutzObject.t) :
  concat (lutzObject.positions <$> objs) =
  lutzObject.position <$> concat (lutzObject.m_pixInfo <$> objs).
Proof.
  induction objs as [|obj objs IH]; [done|].
  rewrite !fmap_cons, !concat_cons, fmap_app, IH. done.
Qed.

(** X2: no position is handed out twice by [run], neither within one
    object nor by two objects. *)
Theorem run_reports_no_position_twice (o o' : lutzOnePass.t) :
  lutzOnePass.run o = Done o' →
  NoDup (concat (lutzObject.positions <$> lutzOnePass.GetObjects o')).
Proof.
  intros H. apply run_distinct in H as [H _].
  by rewrite positions_reported.
Qed.

Lemma run_reports_no_position_twice_witness :
  lutzOnePass.run two_blobs = Done two_blobs_scanned ∧
  NoDup (concat (lutzObject.positions <$> lutzOnePass.GetObjects two_blobs_scanned)).
Proof.
  assert (H : lutzOnePass.run two_blobs = Done two_blobs_scanned)
    by (vm_compute; reflexivity).
  split; [exact H|]. exact (run_reports_no_position_twice two_blobs two_blobs_scanned H).
Defined.

(** X3: with a minimum size that is not negative, every object that [run]
    hands out holds at least one pixel and at least as many pixels as the
    minimum asks for. *)
Theorem run_respects_minimum_size (o o' : lutzOnePass.t) :
  0 <= lutzOnePass.m_npixelmin o <= INT_MAX →
  lutzOnePass.run o = Done o' →
  Forall (fun obj => 0 < lutzObject.size obj ∧
                     lutzOnePass.m_npixelmin o <= lutzObject.size obj)
         (lutzOnePass.GetObjects o').
Proof.
  intros Hmin H. apply run_distinct in H as [_ H].
  eapply Forall_mono; [exact H|].
  intros obj Hk. apply kept_spec in Hk as [Hne Hlen].
  - unfold lutzObject.size. split; [|done].
    destruct (lutzObject.m_pixInfo obj); [done|]. simpl. lia.
  - unfold INT_MAX in Hmin. lia.
Qed.

Lemma run_respects_minimum_size_witness :
  lutzOnePass.run (two_blobs_of_size 3) = Done two_blobs_of_size_3_scanned ∧
  Forall (fun obj => 0 < lutzObject.size obj ∧ 3 <= lutzObject.size obj)
         (lutzOnePass.GetObjects two_blobs_of_size_3_scanned).
Proof.
  assert (H : lutzOnePass.run (two_blobs_of_size 3) = Done two_blobs_of_size_3_scanned)
    by (vm_compute; reflexivity).
  split; [exact H|].
  apply (run_respects_minimum_size (two_blobs_of_size 3) two_blobs_of_size_3_scanned);
    [vm_compute; intuition discriminate | exact H].
Defined.

Lemma NoDup_concat_part {A} (ls : list (list A)) (l : list A) :
  NoDup (concat ls) → l ∈ ls → NoDup l.
Proof.
  induction ls as [|k ls IH]; intros H Hl; [by apply elem_of_nil in Hl|].
  simpl in H. apply NoDup_app in H as (Hk & _ & Hls).
  apply elem_of_cons in Hl as [->|Hl]; [done|]. by apply IH.
Qed.

(** Positions of a grid, none of them twice, are at most as many as the
    grid has positions. *)
Lemma grid_bound (w h : Z) (l : list (Z * Z)) :
  NoDup l → Forall (fun p => 0 <= p.1 < w ∧ 0 <= p.2 < h) l →
  (length l <= Z.to_nat (w * h))%nat.
Proof.
  intros Hnd Hin.
  rewrite <- (length_fmap (fun p : Z * Z => p.2 * w + p.1) l), <- (length_seqZ 0 (w * h)).
  apply submseteq_length, NoDup_submseteq.
  - apply NoDup_fmap_2_strong; [|done].
    intros [x y] [x' y'] Hp Hp' Heq. simpl in Heq.
    apply (Forall_elem _ _ _ Hin) in Hp, Hp'. simpl in Hp, Hp'.
    assert (y = y') as -> by nia. f_equal. lia.
  - intros k ([x y] & -> & Hp)%list_elem_of_fmap.
    apply (Forall_elem _ _ _ Hin) in Hp. simpl in *.
    apply elem_of_seqZ. nia.
Qed.

(** X4: with a negative minimum size [run] hands out no object at all: the
    comparison with the size of a vector converts the minimum to an
    unsigned number that no vector of grid pixels reaches. *)
Theorem run_negative_minimum_reports_nothing (o o' : lutzOnePass.t) :
  INT_MIN <= lutzOnePass.m_npixelmin o < 0 →
  lutzOnePass.m_xpix o <= INT_MAX → lutzOnePass.m_ypix o <= INT_MAX →
  lutzOnePass.run o = Done o' →
  lutzOnePass.GetObjects o' = [].
Proof.
  intros Hmin Hw Hh H.
  pose proof (sound_run _ _ H) as (_ & _ & _ & Hpix).
  apply run_distinct in H as [Hnd Hk].
  unfold reported in Hnd. rewrite <- positions_reported in Hnd.
  unfold lutzOnePass.GetObjects in *.
  destruct (lutzOnePass.m_Objects o') as [|obj objs]; [done|]. exfalso.
  apply Forall_cons in Hk as [Hk _]. apply Forall_cons in Hpix as [Hpix _].
  apply emitted_pixels in Hpix.
  apply (NoDup_concat_part _ (lutzObject.positions obj)) in Hnd; [|left].
  assert (Hlen : (length (lutzObject.positions obj) <=
                  Z.to_nat (lutzOnePass.m_xpix o * lutzOnePass.m_ypix o))%nat).
  { apply grid_bound; [done|]. unfold lutzObject.positions.
    apply Forall_fmap. eapply Forall_mono; [exact Hpix|].
    intros p (Hx & Hy & _). done. }
  unfold lutzObject.positions in Hlen. rewrite length_fmap in Hlen.
  unfold kept in Hk. apply andb_true_iff in Hk as [Hne Hk].
  apply Z.leb_le in Hk. apply negb_true_iff, Nat.eqb_neq in Hne.
  destruct (lutzObject.m_pixInfo obj) as [|p l] eqn:Hl; [done|].
  apply Forall_cons in Hpix as [(Hx & Hy & _) _].
  unfold to_size_t in Hk.
  assert (Hmod : lutzOnePass.m_npixelmin o mod 2 ^ 64 = lutzOnePass.m_npixelmin o + 2 ^ 64).
  { symmetry. apply Z.mod_unique_pos with (q := -1); unfold INT_MIN in *; lia. }
  unfold INT_MIN, INT_MAX in *. nia.
Qed.

Lemma run_negative_minimum_reports_nothing_witness :
  lutzOnePass.run (two_blobs_of_size (-1)) = Done two_blobs_of_size_minus_1_scanned ∧
  lutzOnePass.GetObjects two_blobs_of_size_minus_1_scanned = [].
Proof.
  assert (H : lutzOnePass.run (two_blobs_of_size (-1)) = Done two_blobs_of_size_minus_1_scanned)
    by (vm_compute; reflexivity).
  split; [exact H|].
  apply (run_negative_minimum_reports_nothing
           (two_blobs_of_size (-1)) two_blobs_of_size_minus_1_scanned);
    [vm_compute; intuition discriminate | vm_compute; discriminate
    | vm_compute; discriminate | exact H].
Defined.

Lemma summary_kept_append_all (pixels : list lutzObject.pixData) (o : lutzObject.t) :
  Forall in_sentinels pixels → summary_kept o →
  summary_kept (lutzObject.append_all o pixels).
Proof.
  intros Hpix. revert o. induction Hpix as [|p pixels Hp _ IH]; intros o Ho; [done|].
  simpl. apply IH. by apply summary_kept_append.
Qed.

(** X5: for an image of at most 10^7 columns and rows, every object that
    [run] hands out has an exact bounding box, and its sum is the total of
    the values of its pixels in storage order. *)
Theorem run_reports_exact_summaries (o o' : lutzOnePass.t) :
  lutzOnePass.m_xpix o <= 10000000 → lutzOnePass.m_ypix o <= 10000000 →
  lutzOnePass.run o = Done o' →
  Forall (fun obj => bounding_box_exact obj ∧
                     lutzObject.m_value_sum obj = value_total (lutzObject.m_pixInfo obj))
         (lutzOnePass.GetObjects o').
Proof.
  intros Hw Hh H. apply sound_run in H as (_ & _ & _ & Hobj).
  eapply Forall_mono; [exact Hobj|].
  intros obj (pixels & _ & Hpix & ->).
  destruct (summary_kept_append_all pixels lutzObject.clear) as (_ & Hbox & Hsum & _);
    [|apply summary_kept_clear|done].
  eapply Forall_mono; [exact Hpix|].
  intros p (Hx & Hy & _). unfold in_sentinels. lia.
Qed.

Lemma run_reports_exact_summaries_witness :
  lutzOnePass.run two_blobs = Done two_blobs_scanned ∧
  Forall (fun obj => bounding_box_exact obj ∧
                     lutzObject.m_value_sum obj = value_total (lutzObject.m_pixInfo obj))
         (lutzOnePass.GetObjects two_blobs_scanned).
Proof.
  assert (H : lutzOnePass.run two_blobs = Done two_blobs_scanned)
    by (vm_compute; reflexivity).
  split; [exact H|].
  apply (run_reports_exact_summaries two_blobs two_blobs_scanned);
    [vm_compute; discriminate | vm_compute; discriminate | exact H].
Defined.

(** ** The result depends on the configuration only *)

Lemma for_rows_status (n : nat) (from : Z) (s : lutzOnePass.t)
    (ps cs : lutzOnePass.LUTZSTATUS) :
  n ≠ O →
  lutzOnePass.for_ n from lutzOnePass.scan_row (lutzOnePass.with_CS cs (lutzOnePass.with_PS ps s)) =
  lutzOnePass.for_ n from lutzOnePass.scan_row s.
Proof. destruct n as [|n]; [done|]. intros _. reflexivity. Qed.

Lemma objects_after_clearance (s : lutzOnePass.t) (ps cs : lutzOnePass.LUTZSTATUS) :
  lutzOnePass.GetObjects (lutzOnePass.StoreClearance (lutzOnePass.with_CS cs (lutzOnePass.with_PS ps s))) =
  lutzOnePass.GetObjects (lutzOnePass.StoreClearance s).
Proof.
  unfold lutzOnePass.GetObjects.
  by rewrite !(proj1 (StoreClearance_flushes _)).
Qed.

Lemma found_by_configuration (o1 o2 : lutzOnePass.t) :
  configuration o1 = configuration o2 → objects_found o1 = objects_found o2.
Proof.
  destruct o1 as [w h m img thr pd1 mk1 ob1 st1 pk1 sa1 en1 in1 ps1 cs1 co1 pt1 j1].
  destruct o2 as [w2 h2 m2 img2 thr2 pd2 mk2 ob2 st2 pk2 sa2 en2 in2 ps2 cs2 co2 pt2 j2].
  intros [= <- <- <- <- <-].
  unfold objects_found, lutzOnePass.run, lutzOnePass.init_members. simpl.
  destruct (int_result (w + 1)) as [n| |]; [|done|done]. simpl.
  destruct (vector_n n lutzOnePass.NUL) as [marker| |]; [|done|done]. simpl.
  destruct (vector_n w lutzOnePass.COMPLETE) as [psstack| |]; [|done|done]. simpl.
  destruct (vector_n w (-1)) as [start| |]; [|done|done]. simpl.
  destruct (vector_n w ([] : lutzOnePass.Object)) as [info| |]; [|done|done]. simpl.
  set (s1 := lutzOnePass.with_joins _ _).
  set (s2 := lutzOnePass.with_joins _ _).
  assert (Hs : s1 = lutzOnePass.with_CS cs1 (lutzOnePass.with_PS ps1 s2)) by reflexivity.
  rewrite Hs. clear Hs s1.
  destruct (Z.to_nat h) as [|k] eqn:Hk.
  - exact (f_equal Done (objects_after_clearance s2 ps1 cs1)).
  - by rewrite for_rows_status.
Qed.

(** X6: what [run] hands out, or how it fails, depends only on the size,
    the image, the threshold and the minimum size of the engine, not on
    anything else the engine holds, such as the results of an earlier
    [run]. *)
Theorem objects_found_by_configuration (o1 o2 : lutzOnePass.t) :
  configuration o1 = configuration o2 → objects_found o1 = objects_found o2.
Proof. apply found_by_configuration. Qed.

Lemma objects_found_by_configuration_witness :
  objects_found (lutzOnePass.with_co 7 (lutzOnePass.with_PS lutzOnePass.OBJECT two_blobs)) =
  objects_found two_blobs.
Proof.
  apply (objects_found_by_configuration
           (lutzOnePass.with_co 7 (lutzOnePass.with_PS lutzOnePass.OBJECT two_blobs)) two_blobs).
  reflexivity.
Defined.

(** X7: when [run] has returned, a second [run] on the same engine returns
    as well and hands out the same objects: the results of the first call
    are replaced, not added to. *)
Theorem run_again_same_objects (o o1 : lutzOnePass.t) :
  lutzOnePass.run o = Done o1 →
  ∃ o2, lutzOnePass.run o1 = Done o2 ∧
        lutzOnePass.GetObjects o2 = lutzOnePass.GetObjects o1.
Proof.
  intros H. pose proof (sound_run _ _ H) as [Hc _].
  apply found_by_configuration in Hc.
  unfold objects_found in Hc. rewrite H in Hc. simpl in Hc.
  destruct (lutzOnePass.run o1) as [o2| |]; [|done|done].
  exists o2. split; [done|]. simpl in Hc. by injection Hc.
Qed.

Lemma run_again_same_objects_witness :
  lutzOnePass.run two_blobs = Done two_blobs_scanned ∧
  ∃ o2, lutzOnePass.run two_blobs_scanned = Done o2 ∧
        lutzOnePass.GetObjects o2 = lutzOnePass.GetObjects two_blobs_scanned.
Proof.
  assert (H : lutzOnePass.run two_blobs = Done two_blobs_scanned)
    by (vm_compute; reflexivity).
  split; [exact H|]. exact (run_again_same_objects two_blobs two_blobs_scanned H).
Defined.

(** X21: an engine set up through the five setters, whatever it held
    before, finds what an engine constructed with the same image, size,
    threshold and minimum size finds, and fails as that one fails: an
    engine can be used again for another image. *)
Theorem setters_as_constructor (o : lutzOnePass.t) (image : option (list float))
    (xpixels ypixels : Z) (threshold : float) (npixelmin : Z) :
  objects_found
    (lutzOnePass.SetNPixelMin npixelmin
       (lutzOnePass.SetThreshold threshold
          (lutzOnePass.SetYpixels ypixels
             (lutzOnePass.SetXpixels xpixels (lutzOnePass.SetImage image o))))) =
  objects_found (lutzOnePass.create image xpixels ypixels threshold npixelmin).
Proof. apply found_by_configuration. reflexivity. Qed.

(** ** An image without foreground *)

Section Background.
Variable o : lutzOnePass.t.
Hypothesis width_is_int : 0 <= lutzOnePass.m_xpix o < INT_MAX.
Hypothesis background : ∀ x y,
  0 <= x < lutzOnePass.m_xpix o → 0 <= y < lutzOnePass.m_ypix o →
  lutzOnePass.AssessPixel x y o = Done false.

Lemma scan_pixel_background (s : lutzOnePass.t) (x y : Z) :
  quiet o s → 0 <= x < lutzOnePass.m_xpix o → 0 <= y < lutzOnePass.m_ypix o →
  lutzOnePass.scan_pixel y x s = Done s.
Proof.
  intros (Hc & Hm & Hcs) Hx Hy.
  pose proof (background x y Hx Hy) as Hb.
  rewrite <- (AssessPixel_configuration s o) in Hb by (injection Hc; congruence).
  destruct s as [w h m img thr pd mk ob st pk sa en inf ps cs c pt j].
  simpl in Hm, Hcs. subst mk cs.
  unfold lutzOnePass.scan_pixel.
  unfold lutzOnePass.AssessPixel in Hb.
  destruct (lutzOnePass.GetPixValue x y _) as [v| |] eqn:Hv; [|done|done].
  simpl in Hb. injection Hb as Hb.
  rewrite bind_Done_l. simpl lutzOnePass.m_MARKER.
  rewrite at_replicate by lia. rewrite bind_Done_l.
  rewrite assign_inside by (rewrite length_replicate; lia).
  rewrite insert_replicate_same, bind_Done_l.
  unfold lutzOnePass.AssessPixel.
  change (lutzOnePass.GetPixValue x y (lutzOnePass.with_MARKER _ ?s))
    with (lutzOnePass.GetPixValue x y s).
  rewrite Hv. simpl. rewrite Hb. reflexivity.
Qed.

Lemma scan_pixels_background (n : nat) (from y : Z) (s : lutzOnePass.t) :
  quiet o s → 0 <= from → from + Z.of_nat n <= lutzOnePass.m_xpix o →
  0 <= y < lutzOnePass.m_ypix o →
  lutzOnePass.for_ n from (lutzOnePass.scan_pixel y) s = Done s.
Proof.
  intros Hq. revert from. induction n as [|n IH]; intros from Hfrom Hto Hy; [done|].
  simpl. rewrite scan_pixel_background by (done || lia).
  rewrite bind_Done_l. apply IH; lia.
Qed.

Lemma scan_row_background (y : Z) (s : lutzOnePass.t) :
  quiet o s → 0 <= y < lutzOnePass.m_ypix o →
  ∃ s', lutzOnePass.scan_row y s = Done s' ∧ quiet o s' ∧
        lutzOnePass.m_Objects s' = lutzOnePass.m_Objects s ∧
        lutzOnePass.m_STORE s' = lutzOnePass.m_STORE s ∧
        lutzOnePass.m_npixelmin s' = lutzOnePass.m_npixelmin s.
Proof.
  intros Hq Hy.
  assert (Hq' : quiet o (lutzOnePass.with_CS lutzOnePass.NONOBJECT
                           (lutzOnePass.with_PS lutzOnePass.COMPLETE s))).
  { destruct Hq as (Hc & Hm & _). by split_and!. }
  assert (Hw : lutzOnePass.m_xpix s = lutzOnePass.m_xpix o).
  { destruct Hq as (Hc & _). by injection Hc. }
  unfold lutzOnePass.scan_row. simpl lutzOnePass.m_xpix. rewrite Hw.
  rewrite scan_pixels_background by (done || lia).
  rewrite bind_Done_l. destruct Hq as (Hc & Hm & _).
  simpl lutzOnePass.m_MARKER. rewrite Hm.
  unfold back. rewrite length_replicate, at_replicate by lia.
  rewrite bind_Done_l, assign_inside by (rewrite length_replicate; lia).
  rewrite insert_replicate_same, bind_Done_l.
  eexists. split; [reflexivity|]. by split_and!.
Qed.

Lemma rows_background (n : nat) (from : Z) (s : lutzOnePass.t) :
  quiet o s → 0 <= from → from + Z.of_nat n <= lutzOnePass.m_ypix o →
  ∃ s', lutzOnePass.for_ n from lutzOnePass.scan_row s = Done s' ∧
        lutzOnePass.m_Objects s' = lutzOnePass.m_Objects s ∧
        lutzOnePass.m_STORE s' = lutzOnePass.m_STORE s ∧
        lutzOnePass.m_npixelmin s' = lutzOnePass.m_npixelmin s.
Proof.
  revert from s. induction n as [|n IH]; intros from s Hq Hfrom Hto.
  - by exists s.
  - simpl. destruct (scan_row_background from s Hq) as (s1 & -> & Hq1 & Ho1 & Hs1 & Hm1); [lia|].
    rewrite bind_Done_l.
    destruct (IH (from + 1) s1 Hq1) as (s' & -> & Ho & Hs & Hm); [lia|lia|].
    exists s'. split; [done|]. split_and!; congruence.
Qed.

End Background.

Lemma nothing_kept (npixelmin : Z) (n : nat) :
  List.filter (kept npixelmin) (replicate n []) = [].
Proof. induction n as [|n IH]; [done|]. simpl. exact IH. Qed.

(** X8: on an image without a pixel above the threshold [run] returns and
    hands out no object, whatever the minimum size and the size of the
    image are, an image of one column included. *)
Theorem run_on_background (o : lutzOnePass.t) :
  0 <= lutzOnePass.m_xpix o < INT_MAX →
  (∀ x y, 0 <= x < lutzOnePass.m_xpix o → 0 <= y < lutzOnePass.m_ypix o →
          lutzOnePass.AssessPixel x y o = Done false) →
  ∃ o', lutzOnePass.run o = Done o' ∧ lutzOnePass.GetObjects o' = [].
Proof.
  intros Hw Hbg. rewrite init_members_Done by done.
  set (s := lutzOnePass.with_CS lutzOnePass.NONOBJECT
              (lutzOnePass.with_PS lutzOnePass.COMPLETE (initialised o))).
  assert (Hq : quiet o s) by (by split_and!).
  destruct (Z.to_nat (lutzOnePass.m_ypix o)) as [|k] eqn:Hk.
  - simpl. eexists. split; [reflexivity|].
    unfold lutzOnePass.GetObjects.
    rewrite (proj1 (StoreClearance_flushes _)). simpl.
    by rewrite nothing_kept.
  - rewrite <- (for_rows_status (S k) 0 (initialised o) lutzOnePass.COMPLETE lutzOnePass.NONOBJECT)
      by done.
    fold s.
    destruct (rows_background o Hw Hbg (S k) 0 s Hq) as (s' & -> & Ho & Hs & Hm); [lia|lia|].
    rewrite bind_Done_l. eexists. split; [reflexivity|].
    unfold lutzOnePass.GetObjects.
    rewrite (proj1 (StoreClearance_flushes _)), Ho, Hs. simpl.
    by rewrite nothing_kept.
Qed.

Lemma run_on_background_witness :
  ∃ o', lutzOnePass.run (scene 1 3 ["."; "."; "."]%string 0) = Done o' ∧
        lutzOnePass.GetObjects o' = [].
Proof.
  apply (run_on_background (scene 1 3 ["."; "."; "."]%string 0)).
  - vm_compute. intuition discriminate.
  - intros x y Hx Hy. simpl in Hx, Hy.
    assert (x = 0) as -> by lia.
    assert (y = 0 ∨ y = 1 ∨ y = 2) as [->|[->| ->]] by lia; reflexivity.
Defined.

(** ** A filled rectangle *)

Lemma in_block_spec (a b t u : Z) (p : Z * Z) :
  in_block a b t u p = true ↔ a <= p.1 <= b ∧ t <= p.2 <= u.
Proof. unfold in_block. rewrite !andb_true_iff, !Z.leb_le. lia. Qed.

Lemma in_block_false (a b t u : Z) (p : Z * Z) :
  ¬ (a <= p.1 <= b ∧ t <= p.2 <= u) → in_block a b t u p = false.
Proof.
  intros Hn. destruct (in_block a b t u p) eqn:H; [|done].
  by apply in_block_spec in H.
Qed.

Lemma block_pixels_none (image : list float) (w a b t : Z) :
  block_pixels image w a b t 0 = [].
Proof. done. Qed.

Lemma block_pixels_snoc (image : list float) (w a b t n : Z) :
  0 <= n →
  block_pixels image w a b t (n + 1) =
  block_pixels image w a b t n ++ row_pixels image w (t + n) a (b + 1 - a).
Proof.
  intros Hn. unfold block_pixels.
  rewrite seqZ_app by lia. rewrite bind_app. f_equal.
  change (seqZ (t + n) 1) with [t + n]. by rewrite bind_singleton.
Qed.

Lemma block_pixels_positions (image : list float) (w a b t n : Z) (p : Z * Z) :
  p ∈ lutzObject.position <$> block_pixels image w a b t n ↔
  a <= p.1 <= b ∧ t <= p.2 < t + n.
Proof.
  unfold block_pixels. rewrite list_elem_of_fmap. split.
  - intros (q & -> & (y & Hq & Hy)%list_elem_of_bind).
    apply elem_of_seqZ in Hy.
    assert (Hp : lutzObject.position q ∈ lutzObject.position <$> row_pixels image w y a (b + 1 - a))
      by (apply list_elem_of_fmap; by exists q).
    apply row_pixels_positions in Hp. lia.
  - intros [Hx Hy].
    assert (Hp : p ∈ lutzObject.position <$> row_pixels image w p.2 a (b + 1 - a))
      by (apply row_pixels_positions; lia).
    apply list_elem_of_fmap in Hp as (q & -> & Hq).
    exists q. split; [done|]. apply list_elem_of_bind.
    exists (lutzObject.position q).2. split; [done|]. apply elem_of_seqZ. lia.
Qed.

Lemma block_pixels_not_empty (image : list float) (w a b t n : Z) :
  a <= b → 0 < n → block_pixels image w a b t n ≠ [].
Proof.
  intros Hab Hn Hnil.
  assert (Hp : (a, t) ∈ lutzObject.position <$> block_pixels image w a b t n)
    by (apply block_pixels_positions; simpl; lia).
  rewrite Hnil in Hp. by apply elem_of_nil in Hp.
Qed.

Lemma block_pixels_begins (image : list float) (w a b t : Z) :
  a <= b →
  pixel_at image w a t :: row_pixels image w t (a + 1) (b + 1 - (a + 1)) =
  block_pixels image w a b t (t + 1 - t).
Proof.
  intros Hab. replace (t + 1 - t) with (0 + 1) by lia.
  rewrite block_pixels_snoc, block_pixels_none, Z.add_0_r by lia. simpl.
  rewrite (row_pixels_cons image w t a) by lia. do 2 f_equal. lia.
Qed.

Lemma block_pixels_grows (image : list float) (w a b t y : Z) :
  a <= b → t <= y - 1 →
  (block_pixels image w a b t (y - 1 + 1 - t) ++ [pixel_at image w a y])
  ++ row_pixels image w y (a + 1) (b + 1 - (a + 1)) =
  block_pixels image w a b t (y + 1 - t).
Proof.
  intros Hab Hy. replace (y + 1 - t) with (y - 1 + 1 - t + 1) by lia.
  rewrite block_pixels_snoc by lia. rewrite <- app_assoc. f_equal.
  replace (t + (y - 1 + 1 - t)) with y by lia.
  rewrite (row_pixels_cons image w y a) by lia. simpl. do 2 f_equal. lia.
Qed.

(** Goals about the markers and the buffer of a rectangle at an index. *)
Ltac block_cases :=
  unfold block_marker, block_store, block_objects, upd;
  repeat match goal with
         | |- context [Z.eqb ?i ?j] => destruct (Z.eqb_spec i j); try lia
         | |- context [Z.ltb ?i ?j] => destruct (Z.ltb_spec i j); try lia
         | |- context [Z.leb ?i ?j] => destruct (Z.leb_spec i j); try lia
         end;
  simpl; try done.

Section Block.
Variables (w h : Z) (image : list float) (threshold : float).
Variables (a b t u : Z).
Hypothesis width_three : 2 < w.
Hypothesis columns : 0 <= a <= b.
Hypothesis b_in : b < w.
Hypothesis rows : 0 <= t <= u.
Hypothesis u_in : u < h.
Hypothesis area_is_int : w * h <= INT_MAX.
Hypothesis image_covers : w * h <= Z.of_nat (length image).
Hypothesis shape :
  ∀ x y, 0 <= x < w → 0 <= y < h →
         PrimFloat.ltb threshold (sample image w x y) = in_block a b t u (x, y).

Local Abbreviation E := (engine w h 0 (Some image) threshold).
Local Abbreviation COMPLETE := lutzOnePass.COMPLETE.
Local Abbreviation OBJECT := lutzOnePass.OBJECT.
Local Abbreviation NONOBJECT := lutzOnePass.NONOBJECT.
Local Abbreviation NUL := lutzOnePass.NUL.
Local Abbreviation pix := (pixel_at image w).
Local Abbreviation above x y := (PrimFloat.ltb threshold (sample image w x y)).
Local Abbreviation idle fM objs fS :=
  (E fM objs fS (fun _ => COMPLETE) (fun _ => -1) (fun _ => -1) (fun _ => [])
     COMPLETE NONOBJECT 0 0).
Local Abbreviation opened fM objs fS k pixels ps cs pstop :=
  (E fM objs fS (fun _ => COMPLETE) (upd (fun _ => -1) 1 k) (fun _ => -1)
     (upd (fun _ => []) 1 pixels) ps cs 1 pstop).
Local Abbreviation marker_after := (block_marker a b t u).
Local Abbreviation store_after := (block_store image w a b t u).
Local Abbreviation objects_after := (block_objects image w a b t u).

Lemma above_block x y : 0 <= x < w → 0 <= y < h →
  a <= x <= b → t <= y <= u → above x y = true.
Proof. intros Hx Hy Hc Hr. rewrite shape by done. by apply in_block_spec. Qed.

Lemma below_block x y : 0 <= x < w → 0 <= y < h →
  ¬ (a <= x <= b ∧ t <= y <= u) → above x y = false.
Proof. intros Hx Hy Hn. rewrite shape by done. by apply in_block_false. Qed.

(** Pixels along a row inside the open segment, where the row above left
    no marker. *)
Lemma inside_row fM objs fS k pixels ps pstop y from to :
  0 <= y < h → 0 <= from → to <= w →
  (∀ x, from <= x < to → fM x = NUL ∧ above x y = true) →
  span w y from to (opened fM objs fS k pixels ps OBJECT pstop) =
  Done (opened fM objs fS k (pixels ++ row_pixels image w y from (to - from)) ps OBJECT pstop).
Proof.
  intros Hy Hfrom Hto Hin.
  destruct (decide (to <= from)) as [Hle|Hlt].
  { unfold span, row_pixels. replace (Z.to_nat (to - from)) with O by lia.
    rewrite seqZ_nil by lia. simpl. by rewrite app_nil_r. }
  assert (∃ n : nat, to = from + Z.of_nat n) as (n & ->)
    by (exists (Z.to_nat (to - from)); lia).
  clear Hlt. induction n as [|n IH].
  - rewrite Z.add_0_r, span_none, Z.sub_diag. unfold row_pixels. simpl.
    by rewrite app_nil_r.
  - rewrite (span_split w y from (from + Z.of_nat n) (from + Z.of_nat (S n))) by lia.
    rewrite IH by (try lia; intros x Hx; apply Hin; lia). rewrite bind_Done_l.
    replace (from + Z.of_nat (S n)) with (from + Z.of_nat n + 1) by lia.
    rewrite span_one.
    destruct (Hin (from + Z.of_nat n)) as [Hm Hfg]; [lia|].
    rewrite (inside_plain w h image threshold width_three) by (done || lia).
    replace (from + Z.of_nat n + 1 - from) with (from + Z.of_nat n - from + 1) by lia.
    rewrite row_pixels_snoc by lia.
    replace (from + (from + Z.of_nat n - from)) with (from + Z.of_nat n) by lia.
    by rewrite app_assoc.
Qed.

Ltac skip_rest :=
  rewrite (skip_span w h image threshold width_three)
    by (first [lia | intros x Hx; split; [block_cases | intros; apply below_block; lia]]).

Ltac states_agree :=
  unfold engine; apply (f_equal Done); f_equal;
  [ apply tab_ext; intros i Hi; block_cases
  | block_cases
  | apply tab_ext; intros i Hi; block_cases ].

(** A row that does not meet the rectangle and is not the row under it. *)
Lemma row_apart y :
  0 <= y < h → y < t ∨ u + 1 < y →
  span w y 0 (w + 1)
    (idle (marker_after (y - 1)) (objects_after (y - 1)) (store_after (y - 1))) =
  Done (idle (marker_after y) (objects_after y) (store_after y)).
Proof.
  intros Hy Hout. skip_rest. states_agree.
Qed.

(** The first row of the rectangle opens a segment that nothing above
    announces. *)
Lemma row_first :
  span w t 0 (w + 1)
    (idle (marker_after (t - 1)) (objects_after (t - 1)) (store_after (t - 1))) =
  Done (idle (marker_after t) (objects_after t) (store_after t)).
Proof.
  rewrite (span_split w t 0 a (w + 1)) by lia. skip_rest.
  rewrite bind_Done_l.
  rewrite (span_split w t a (a + 1) (w + 1)) by lia. rewrite span_one.
  rewrite (open_fresh w h image threshold width_three);
    [| lia | lia | lia | lia | apply above_block; lia | block_cases].
  rewrite bind_Done_l.
  rewrite (span_split w t (a + 1) (b + 1) (w + 1)) by lia.
  rewrite (inside_row _ _ _ _ _ _ _ t (a + 1) (b + 1));
    [| lia | lia | lia | intros x Hx; split; [block_cases | apply above_block; lia]].
  rewrite bind_Done_l.
  rewrite (span_split w t (b + 1) (b + 1 + 1) (w + 1)) by lia. rewrite span_one.
  rewrite (close_fresh w h image threshold width_three);
    [| lia | lia | lia | lia | intros; apply below_block; lia | block_cases | lia | side].
  rewrite bind_Done_l. skip_rest.
  states_agree. apply block_pixels_begins. lia.
Qed.

(** A further row of the rectangle continues the object of the row
    above. *)
Lemma row_next y :
  t < y <= u →
  span w y 0 (w + 1)
    (idle (marker_after (y - 1)) (objects_after (y - 1)) (store_after (y - 1))) =
  Done (idle (marker_after y) (objects_after y) (store_after y)).
Proof.
  intros Hy.
  rewrite (span_split w y 0 a (w + 1)) by lia. skip_rest.
  rewrite bind_Done_l.
  rewrite (span_split w y a (a + 1) (w + 1)) by lia. rewrite span_one.
  rewrite (open_under_S w h image threshold width_three);
    [| lia | lia | lia | lia | apply above_block; lia | block_cases].
  rewrite bind_Done_l.
  rewrite (span_split w y (a + 1) (b + 1) (w + 1)) by lia.
  rewrite (inside_row _ _ _ _ _ _ _ y (a + 1) (b + 1));
    [| lia | lia | lia | intros x Hx; split; [block_cases | apply above_block; lia]].
  rewrite bind_Done_l.
  rewrite (span_split w y (b + 1) (b + 1 + 1) (w + 1)) by lia. rewrite span_one.
  rewrite (close_under_F w h image threshold width_three);
    [| lia | lia | lia | lia | intros; apply below_block; lia | block_cases | lia | side].
  rewrite bind_Done_l. skip_rest.
  states_agree. apply block_pixels_grows; lia.
Qed.

(** The row under the rectangle: the object, which was not met again, is
    written to the result list. *)
Lemma row_under :
  u + 1 < h →
  span w (u + 1) 0 (w + 1)
    (idle (marker_after (u + 1 - 1)) (objects_after (u + 1 - 1)) (store_after (u + 1 - 1))) =
  Done (idle (marker_after (u + 1)) (objects_after (u + 1)) (store_after (u + 1))).
Proof.
  intros Hu.
  rewrite (span_split w (u + 1) 0 a (w + 1)) by lia. skip_rest.
  rewrite bind_Done_l.
  rewrite (span_split w (u + 1) a (a + 1) (w + 1)) by lia. rewrite span_one.
  rewrite (under_S w h image threshold width_three);
    [| lia | lia | lia | lia | apply below_block; lia | block_cases].
  rewrite bind_Done_l.
  rewrite (span_split w (u + 1) (a + 1) (b + 1) (w + 1)) by lia. skip_rest.
  rewrite bind_Done_l.
  rewrite (span_split w (u + 1) (b + 1) (b + 1 + 1) (w + 1)) by lia. rewrite span_one.
  rewrite (under_F w h image threshold width_three);
    [| lia | lia | lia | lia | intros; apply below_block; lia | block_cases | ].
  2:{ block_cases. apply block_pixels_not_empty; lia. }
  rewrite bind_Done_l. skip_rest.
  states_agree. do 3 f_equal. lia.
Qed.

(** Every row takes the engine from the state after the row above to the
    state after the row itself. *)
Lemma block_row_step y :
  0 <= y < h →
  span w y 0 (w + 1)
    (idle (marker_after (y - 1)) (objects_after (y - 1)) (store_after (y - 1))) =
  Done (idle (marker_after y) (objects_after y) (store_after y)).
Proof.
  intros Hy.
  destruct (decide (y < t ∨ u + 1 < y)) as [Hout|Hin]; [by apply row_apart|].
  destruct (decide (y = t)) as [->|Hne]; [apply row_first|].
  destruct (decide (y = u + 1)) as [->|Hne']; [apply row_under; lia|].
  apply row_next. lia.
Qed.


(** The state after the first [n] rows. *)
Lemma block_rows_scanned (n : nat) ps cs :
  (1 <= n)%nat → Z.of_nat n <= h →
  lutzOnePass.for_ n 0 lutzOnePass.scan_row
    (E (fun _ => NUL) [] (fun _ => []) (fun _ => COMPLETE) (fun _ => -1) (fun _ => -1)
       (fun _ => []) ps cs 0 0) =
  Done (idle (marker_after (Z.of_nat n - 1)) (objects_after (Z.of_nat n - 1))
             (store_after (Z.of_nat n - 1))).
Proof.
  intros Hn Hh. induction n as [|n IH]; [lia|].
  replace (S n) with (n + 1)%nat by lia. rewrite for_app.
  assert (Hrow : ∀ y fM objs fS,
             0 <= y < h → y = Z.of_nat (n + 1) - 1 →
             (∀ i, fM i = marker_after (y - 1) i) → objs = objects_after (y - 1) →
             (∀ i, fS i = store_after (y - 1) i) →
             lutzOnePass.scan_row y (idle fM objs fS) =
             Done (idle (marker_after (Z.of_nat (n + 1) - 1))
                        (objects_after (Z.of_nat (n + 1) - 1))
                        (store_after (Z.of_nat (n + 1) - 1)))).
  { intros y fM objs fS Hy -> HfM -> HfS. rewrite scan_row_span by lia.
    rewrite <- block_row_step by done.
    f_equal. unfold engine. f_equal; apply tab_ext; intros i Hi; [apply HfM | apply HfS]. }
  destruct n as [|n].
  - simpl lutzOnePass.for_. rewrite bind_Done_l, bind_Done_r.
    rewrite scan_row_span by lia.
    rewrite <- (scan_row_span w h image threshold _ _ _ _ _ _ _ COMPLETE NONOBJECT) by lia.
    apply Hrow; [lia | lia | intros i; block_cases | block_cases | intros i; block_cases].
  - rewrite IH by lia. rewrite bind_Done_l.
    simpl lutzOnePass.for_. rewrite bind_Done_r.
    apply Hrow; [lia | lia | intros i; f_equal; lia | f_equal; lia | intros i; f_equal; lia].
Qed.

(** The scan of a rectangle ends with the rectangle as the only object of
    the result list. *)
Lemma block_scan ps cs :
  ∃ o, (o' ← lutzOnePass.for_ (Z.to_nat h) 0 lutzOnePass.scan_row
              (E (fun _ => NUL) [] (fun _ => []) (fun _ => COMPLETE) (fun _ => -1)
                 (fun _ => -1) (fun _ => []) ps cs 0 0);
        Done (lutzOnePass.StoreClearance o')) = Done o ∧
       lutzOnePass.m_Objects o =
       [lutzObject.of_pixels (block_pixels image w a b t (u + 1 - t))].
Proof.
  rewrite block_rows_scanned by lia. rewrite bind_Done_l.
  eexists. split; [reflexivity|].
  unfold lutzOnePass.StoreClearance. engine_norm. simpl.
  replace (Z.of_nat (Z.to_nat h) - 1) with (h - 1) by lia.
  destruct (decide (h - 1 = u)) as [Hlast|Hlast].
  - rewrite (WriteObject_single _ _ a) by (first [lia | intros i Hi Hne; block_cases]).
    engine_fold. rewrite WriteObject_E by (block_cases; apply block_pixels_not_empty; lia).
    engine_norm. block_cases. do 3 f_equal. lia.
  - rewrite WriteObject_none by (intros i Hi; block_cases).
    block_cases.
Qed.

End Block.

Lemma row_pixels_distinct (image : list float) (w y x n : Z) :
  NoDup (lutzObject.position <$> row_pixels image w y x n).
Proof.
  unfold row_pixels. rewrite <- list_fmap_compose.
  apply NoDup_fmap_2_strong; [|apply NoDup_seqZ].
  intros x1 x2 _ _ H. by injection H.
Qed.

Lemma block_pixels_distinct (image : list float) (w a b t n : Z) :
  NoDup (lutzObject.position <$> block_pixels image w a b t n).
Proof.
  destruct (decide (0 <= n)) as [Hn|Hn].
  2:{ unfold block_pixels. rewrite seqZ_nil by lia. constructor. }
  assert (∃ k : nat, n = Z.of_nat k) as (k & ->) by (exists (Z.to_nat n); lia).
  clear Hn. induction k as [|k IH]; [constructor|].
  replace (Z.of_nat (S k)) with (Z.of_nat k + 1) by lia.
  rewrite block_pixels_snoc, fmap_app by lia.
  apply NoDup_app. split_and!; [done| |apply row_pixels_distinct].
  intros p Hp Hq. apply block_pixels_positions in Hp.
  apply row_pixels_positions in Hq. lia.
Qed.

(** X9: on an image whose foreground is one filled rectangle, in a grid of
    three columns or more and with minimum size 0, [run] hands out exactly
    one object, and this object holds exactly the pixels of the rectangle
    with the values of the image, row by row. *)
Theorem block_is_one_object (o : lutzOnePass.t) (image : list float) (a b t u : Z) :
  lutzOnePass.m_image o = Some image →
  lutzOnePass.m_npixelmin o = 0 →
  lutzOnePass.m_xpix o * lutzOnePass.m_ypix o < INT_MAX →
  lutzOnePass.m_xpix o * lutzOnePass.m_ypix o <= Z.of_nat (length image) →
  block_fits (lutzOnePass.m_xpix o) (lutzOnePass.m_ypix o) a b t u →
  (∀ x y, 0 <= x < lutzOnePass.m_xpix o → 0 <= y < lutzOnePass.m_ypix o →
          is_foreground o (x, y) = in_block a b t u (x, y)) →
  ∃ o' obj,
    lutzOnePass.run o = Done o' ∧
    lutzOnePass.GetObjects o' = [obj] ∧
    lutzObject.m_pixInfo obj =
      block_pixels image (lutzOnePass.m_xpix o) a b t (u + 1 - t) ∧
    (∀ p, p ∈ lutzObject.positions obj ↔ in_block a b t u p = true).
Proof.
  intros Himg Hmin Harea Hcover Hfits Hshape.
  pose proof Hfits as (Hw3 & Hab & Hb & Htu & Hu).
  set (w := lutzOnePass.m_xpix o) in *. set (h := lutzOnePass.m_ypix o) in *.
  assert (Hw : 0 <= w < INT_MAX) by nia.
  rewrite init_members_Done by done.
  rewrite (initialised_engine o image) by (done || lia). fold w h.
  assert (Habove : ∀ x y, 0 <= x < w → 0 <= y < h →
            PrimFloat.ltb (lutzOnePass.m_threshold o) (sample image w x y)
            = in_block a b t u (x, y)).
  { intros x y Hx Hy. rewrite <- Hshape by done. unfold is_foreground. simpl.
    rewrite (AssessPixel_configuration o
               (engine w h 0 (Some image) (lutzOnePass.m_threshold o)
                  (fun _ => lutzOnePass.NUL) [] (fun _ => []) (fun _ => lutzOnePass.COMPLETE)
                  (fun _ => -1) (fun _ => -1) (fun _ => [])
                  lutzOnePass.COMPLETE lutzOnePass.NONOBJECT 0 0)) by done.
    by rewrite AssessPixel_E by (done || lia). }
  destruct (block_scan w h image (lutzOnePass.m_threshold o) a b t u
              Hw3 Hab Hb Htu Hu (Z.lt_le_incl _ _ Harea) Hcover Habove
              (lutzOnePass.m_PS o) (lutzOnePass.m_CS o))
    as (o' & Hrun & Hobjs).
  exists o', (lutzObject.of_pixels (block_pixels image w a b t (u + 1 - t))).
  split; [done|]. split; [done|]. split.
  - apply of_pixels_distinct, block_pixels_distinct.
  - intros p. rewrite of_pixels_positions, block_pixels_positions, in_block_spec. lia.
Qed.

Lemma block_is_one_object_witness :
  ∃ o' obj,
    lutzOnePass.run (scene 4 3 [".XX."; ".XX."; "...."]%string 0) = Done o' ∧
    lutzOnePass.GetObjects o' = [obj] ∧
    lutzObject.m_pixInfo obj =
      block_pixels (picture [".XX."; ".XX."; "...."]%string) 4 1 2 0 2 ∧
    (∀ p, p ∈ lutzObject.positions obj ↔ in_block 1 2 0 1 p = true).
Proof.
  apply (block_is_one_object (scene 4 3 [".XX."; ".XX."; "...."]%string 0)
           (picture [".XX."; ".XX."; "...."]%string) 1 2 0 1).
  - reflexivity.
  - reflexivity.
  - reflexivity.
  - vm_compute. discriminate.
  - unfold block_fits. simpl. lia.
  - intros x y Hx Hy. simpl in Hx, Hy.
    assert (x = 0 ∨ x = 1 ∨ x = 2 ∨ x = 3) as [->|[->|[->| ->]]] by lia;
      (assert (y = 0 ∨ y = 1 ∨ y = 2) as [->|[->| ->]] by lia); reflexivity.
Defined.

(** ** Which failures are reported *)

Create HintDb no_throw.

Lemma at_no_throw {A} (v : list A) (i : Z) (e : exn) : at_ v i = Throws e → False.
Proof.
  unfold at_. destruct (i <? 0); [done|]. by destruct (v !! Z.to_nat i).
Qed.

Lemma assign_no_throw {A} (v : list A) (i : Z) (a : A) (e : exn) :
  assign v i a = Throws e → False.
Proof. unfold assign. by destruct (_ || _). Qed.

Lemma int_result_no_throw (z : Z) (e : exn) : int_result z = Throws e → False.
Proof. unfold int_result. by destruct (_ && _). Qed.

#[local] Hint Resolve at_no_throw assign_no_throw int_result_no_throw : no_throw.

(** Splits a sequence of steps that ends in an exception at the step that
    raised it. *)
Ltac thrown H :=
  lazymatch type of H with
  | (?m ≫= _) = Throws _ =>
      let a := fresh "a" in
      let E := fresh "E" in
      destruct m as [a| |] eqn:E;
      [ rewrite bind_Done_l in H; clear E; thrown H
      | thrown E
      | by (simpl in H) ]
  | (if ?b then _ else _) = Throws _ => destruct b; thrown H
  | (match ?x with [] => _ | _ :: _ => _ end) = Throws _ => destruct x; thrown H
  | (match ?x with Some _ => _ | None => _ end) = Throws _ => destruct x; thrown H
  | Done _ = Throws _ => discriminate H
  | Undefined _ = Throws _ => discriminate H
  | back _ = Throws _ => unfold back in H; thrown H
  | _ => try (exfalso; eauto with no_throw; fail)
  end.

Lemma GetPixValue_no_throw (x y : Z) (o : lutzOnePass.t) (e : exn) :
  lutzOnePass.GetPixValue x y o = Throws e → False.
Proof. intros H. unfold lutzOnePass.GetPixValue in H. thrown H. Qed.

#[local] Hint Resolve GetPixValue_no_throw : no_throw.

Lemma AssessPixel_no_throw (x y : Z) (o : lutzOnePass.t) (e : exn) :
  lutzOnePass.AssessPixel x y o = Throws e → False.
Proof. intros H. unfold lutzOnePass.AssessPixel in H. thrown H. Qed.

Lemma ModPSSTACK_no_throw action (o : lutzOnePass.t) (e : exn) :
  lutzOnePass.ModPSSTACK action o = Throws e → False.
Proof. intros H. unfold lutzOnePass.ModPSSTACK in H. destruct action; thrown H. Qed.

#[local] Hint Resolve AssessPixel_no_throw ModPSSTACK_no_throw : no_throw.

Lemma ModOBSTACK_no_throw action (x : Z) (o : lutzOnePass.t) (e : exn) :
  lutzOnePass.ModOBSTACK action x o = Throws e → False.
Proof. intros H. unfold lutzOnePass.ModOBSTACK in H. destruct action; thrown H. Qed.

#[local] Hint Resolve ModOBSTACK_no_throw : no_throw.

Lemma StartSegment_no_throw (x : Z) (o : lutzOnePass.t) (e : exn) :
  lutzOnePass.StartSegment x o = Throws e → False.
Proof. intros H. unfold lutzOnePass.StartSegment in H. thrown H. Qed.

Lemma EndSegment_no_throw (x : Z) (o : lutzOnePass.t) (e : exn) :
  lutzOnePass.EndSegment x o = Throws e → False.
Proof. intros H. unfold lutzOnePass.EndSegment in H. thrown H. Qed.

Lemma ProcessNewMarker_no_throw (m : ascii) (x : Z) (o : lutzOnePass.t) (e : exn) :
  lutzOnePass.ProcessNewMarker m x o = Throws e → False.
Proof. intros H. unfold lutzOnePass.ProcessNewMarker in H. thrown H. Qed.

#[local] Hint Resolve StartSegment_no_throw EndSegment_no_throw
  ProcessNewMarker_no_throw : no_throw.

Lemma no_pixel_no_throw (m : ascii) (x : Z) (o : lutzOnePass.t) (e : exn) :
  lutzOnePass.no_pixel m x o = Throws e → False.
Proof. intros H. unfold lutzOnePass.no_pixel in H. thrown H. Qed.

#[local] Hint Resolve no_pixel_no_throw : no_throw.

Lemma scan_pixel_no_throw (y x : Z) (o : lutzOnePass.t) (e : exn) :
  lutzOnePass.scan_pixel y x o = Throws e → False.
Proof. intros H. unfold lutzOnePass.scan_pixel in H. thrown H. Qed.

Lemma for_no_throw {St} (n : nat) (from : Z) (body : Z → St → outcome St) (s : St) (e : exn) :
  (∀ i a e, body i a = Throws e → False) →
  lutzOnePass.for_ n from body s = Throws e → False.
Proof.
  intros Hbody. revert from s. induction n as [|n IH]; intros from s H; [done|].
  simpl in H. destruct (body from s) as [a| |] eqn:E; [| |done].
  - rewrite bind_Done_l in H. by eapply IH.
  - by eapply Hbody.
Qed.

Lemma scan_row_no_throw (y : Z) (o : lutzOnePass.t) (e : exn) :
  lutzOnePass.scan_row y o = Throws e → False.
Proof.
  intros H. unfold lutzOnePass.scan_row in H. thrown H.
  eapply for_no_throw; [|eassumption]. apply scan_pixel_no_throw.
Qed.

(** X10: for a width below [INT_MAX], and memory taken as unbounded (an
    allocation fails only for its size, never for want of memory).  With a
    negative width [run] throws the [std::length_error] of the allocation
    in [init_members].  With a width that is not negative no statement of
    [run] throws: the call returns, or it leaves the defined behaviour (an
    access outside a vector, a null image, a signed overflow), and of such
    a call nothing more is said. *)
Theorem run_throws_exactly (o : lutzOnePass.t) :
  INT_MIN <= lutzOnePass.m_xpix o < INT_MAX →
  (lutzOnePass.m_xpix o < 0 → lutzOnePass.run o = Throws length_error) ∧
  (0 <= lutzOnePass.m_xpix o →
   (∃ o', lutzOnePass.run o = Done o') ∨ (∃ u, lutzOnePass.run o = Undefined u)).
Proof.
  intros Hint. split.
  - intros Hneg. apply init_members_Throws. lia.
  - intros Hpos. rewrite init_members_Done by lia.
    destruct (lutzOnePass.for_ (Z.to_nat (lutzOnePass.m_ypix o)) 0
                lutzOnePass.scan_row (initialised o)) as [o'|e|u] eqn:E.
    + left. by eexists.
    + exfalso. eapply for_no_throw; [|exact E]. apply scan_row_no_throw.
    + right. by eexists.
Qed.

Lemma run_throws_exactly_witness :
  lutzOnePass.run (scene (-1) 2 [] 0) = Throws length_error ∧
  ((∃ o', lutzOnePass.run two_blobs = Done o') ∨
   (∃ u, lutzOnePass.run two_blobs = Undefined u)) ∧
  ((∃ o', lutzOnePass.run single_pixel = Done o') ∨
   (∃ u, lutzOnePass.run single_pixel = Undefined u)).
Proof.
  split; [|split].
  - apply (run_throws_exactly (scene (-1) 2 [] 0)); [|reflexivity].
    vm_compute. split; [discriminate | reflexivity].
  - apply (run_throws_exactly two_blobs); [|discriminate].
    vm_compute. split; [discriminate | reflexivity].
  - apply (run_throws_exactly single_pixel); [|discriminate].
    vm_compute. split; [discriminate | reflexivity].
Defined.

(** ** Objects built from a vector *)

Lemma append_all_distinct_positions (pixels : list lutzObject.pixData) (o : lutzObject.t) :
  NoDup (lutzObject.positions o) →
  NoDup (lutzObject.positions (lutzObject.append_all o pixels)).
Proof.
  revert o. induction pixels as [|p pixels IH]; intros o Ho; [done|].
  simpl. apply IH. by apply positions_distinct_append.
Qed.

(** X15: the object built from a vector of pixels holds every position of
    the vector, each of them once and no other; when the vector itself
    holds no position twice, the object holds exactly the vector. *)
Theorem of_pixels_each_position_once (pixels : list lutzObject.pixData) :
  (∀ p, p ∈ lutzObject.positions (lutzObject.of_pixels pixels) ↔
        p ∈ lutzObject.position <$> pixels) ∧
  NoDup (lutzObject.positions (lutzObject.of_pixels pixels)) ∧
  (NoDup (lutzObject.position <$> pixels) →
   lutzObject.m_pixInfo (lutzObject.of_pixels pixels) = pixels).
Proof.
  split_and!.
  - intros p. apply of_pixels_positions.
  - apply append_all_distinct_positions. constructor.
  - apply of_pixels_distinct.
Qed.

(** X16: a pixel appended at a position that the object already holds is
    dropped, whatever value it carries: appending two pixels of one
    position leaves the object as the first one left it. *)
Theorem append_same_position_twice (o : lutzObject.t) (p q : lutzObject.pixData) :
  lutzObject.position q = lutzObject.position p →
  lutzObject.append (lutzObject.append o p) q = lutzObject.append o p.
Proof.
  intros Hpos. apply append_duplicate. rewrite Hpos. apply append_holds.
Qed.

Lemma append_same_position_twice_witness :
  lutzObject.append
    (lutzObject.append lutzObject.clear (lutzObject.pixData_new 2 3 1%float))
    (lutzObject.pixData_new 2 3 9%float) =
  lutzObject.append lutzObject.clear (lutzObject.pixData_new 2 3 1%float).
Proof.
  apply (append_same_position_twice lutzObject.clear
           (lutzObject.pixData_new 2 3 1%float) (lutzObject.pixData_new 2 3 9%float)).
  reflexivity.
Defined.

(** ** The minimum size only filters *)

Lemma bind_assoc_outcome {A B C} (m : outcome A) (f : A → outcome B) (k : B → outcome C) :
  ((m ≫= f) ≫= k) = (m ≫= fun a => f a ≫= k).
Proof. by destruct m. Qed.

(** A step that reads: both scans read the same value. *)
Lemma bind_read {A B C} (m1 m2 : outcome A) (f1 : A → outcome C) (f2 : A → outcome B)
    (k : B → outcome C) :
  m1 = m2 → (∀ a, m2 = Done a → f1 a = (f2 a ≫= k)) →
  (m1 ≫= f1) = ((m2 ≫= f2) ≫= k).
Proof.
  intros -> H. rewrite bind_assoc_outcome.
  destruct m2 as [a| |]; [|done|done]. rewrite !bind_Done_l. by apply H.
Qed.

(** A step that changes the engine: the two engines stay related. *)
Lemma bind_state {B C} (u : lutzOnePass.t → lutzOnePass.t)
    (m1 m2 : outcome lutzOnePass.t) (f1 : lutzOnePass.t → outcome C)
    (f2 : lutzOnePass.t → outcome B) (k : B → outcome C) :
  m1 = (m2 ≫= fun a => Done (u a)) →
  (∀ a, m2 = Done a → f1 (u a) = (f2 a ≫= k)) →
  (m1 ≫= f1) = ((m2 ≫= f2) ≫= k).
Proof.
  intros -> H. rewrite !bind_assoc_outcome.
  destruct m2 as [a| |]; [|done|done]. rewrite !bind_Done_l. by apply H.
Qed.

Lemma if_both {C B} (b1 b2 : bool) (x1 y1 : outcome C) (x2 y2 : outcome B)
    (k : B → outcome C) :
  b1 = b2 → (b2 = true → x1 = (x2 ≫= k)) → (b2 = false → y1 = (y2 ≫= k)) →
  (if b1 then x1 else y1) = ((if b2 then x2 else y2) ≫= k).
Proof. intros -> Hx Hy. destruct b2; [by apply Hx | by apply Hy]. Qed.

Lemma ModPSSTACK_minimum (m : Z) action (s_m s : lutzOnePass.t) :
  s_m = with_minimum m s →
  lutzOnePass.ModPSSTACK action s_m =
  (s' ← lutzOnePass.ModPSSTACK action s; Done (with_minimum m s')).
Proof.
  intros ->. unfold lutzOnePass.ModPSSTACK. destruct action.
  - apply bind_read; [reflexivity|]. intros stk _. reflexivity.
  - apply bind_read; [reflexivity|]. intros stk _.
    apply bind_read; [reflexivity|]. intros ps _. reflexivity.
Qed.

Lemma ModOBSTACK_minimum (m : Z) action (x : Z) (s_m s : lutzOnePass.t) :
  s_m = with_minimum m s →
  lutzOnePass.ModOBSTACK action x s_m =
  (s' ← lutzOnePass.ModOBSTACK action x s; Done (with_minimum m s')).
Proof.
  intros ->. unfold lutzOnePass.ModOBSTACK. destruct action.
  - apply (bind_state (with_minimum m)); [by apply ModPSSTACK_minimum|]. intros a _.
    cbv zeta.
    apply bind_read; [reflexivity|]. intros start _.
    apply bind_read; [reflexivity|]. intros info _. reflexivity.
  - apply (bind_state (with_minimum m)); [by apply ModPSSTACK_minimum|]. intros a _.
    apply bind_read; [reflexivity|]. intros pixels _.
    apply bind_read; [reflexivity|]. intros store _.
    apply bind_read; [reflexivity|]. intros info _.
    apply bind_read; [reflexivity|]. intros start _.
    apply bind_read; [reflexivity|]. intros end_ _. reflexivity.
Qed.

Lemma StartSegment_minimum (m : Z) (x : Z) (s_m s : lutzOnePass.t) :
  s_m = with_minimum m s →
  lutzOnePass.StartSegment x s_m =
  (s' ← lutzOnePass.StartSegment x s; Done (with_minimum m s')).
Proof.
  intros ->. unfold lutzOnePass.StartSegment. cbv zeta.
  apply if_both; [reflexivity| |]; intros _.
  - apply bind_read; [reflexivity|]. intros k _.
    apply if_both; [reflexivity| |]; intros _.
    + apply bind_read; [reflexivity|]. intros marker _.
      apply bind_read; [reflexivity|]. intros start _. reflexivity.
    + apply bind_read; [reflexivity|]. intros marker _. reflexivity.
  - apply (bind_state (with_minimum m)); [by apply ModOBSTACK_minimum|]. intros a _.
    apply bind_read; [reflexivity|]. intros marker _. reflexivity.
Qed.

Lemma EndSegment_minimum (m : Z) (x : Z) (s_m s : lutzOnePass.t) :
  s_m = with_minimum m s →
  lutzOnePass.EndSegment x s_m =
  (s' ← lutzOnePass.EndSegment x s; Done (with_minimum m s')).
Proof.
  intros ->. unfold lutzOnePass.EndSegment. cbv zeta.
  apply if_both; [reflexivity| |]; intros _.
  - apply bind_read; [reflexivity|]. intros marker _.
    apply bind_read; [reflexivity|]. intros end_ _. reflexivity.
  - apply (bind_state (with_minimum m)); [by apply ModOBSTACK_minimum|]. intros a _.
    apply bind_read; [reflexivity|]. intros marker _. reflexivity.
Qed.

Lemma filter_snoc {A} (f : A → bool) (l : list A) (a : A) :
  List.filter f (l ++ [a]) = List.filter f l ++ (if f a then [a] else []).
Proof.
  induction l as [|b l IH]; simpl; [by destruct (f a)|].
  rewrite IH. by destruct (f b).
Qed.

(** With pixels that hold no position twice, the size filter on the vector
    and the filter on the size of the object agree. *)
Lemma kept_at_least (m : Z) (pixels : lutzOnePass.Object) :
  0 <= m <= INT_MAX → NoDup (lutzObject.position <$> pixels) →
  kept m pixels = kept 0 pixels && at_least m (lutzObject.of_pixels pixels).
Proof.
  intros Hm Hnd. unfold kept, at_least, lutzObject.size, to_size_t.
  rewrite of_pixels_distinct by done.
  rewrite !Z.mod_small by (unfold INT_MAX in Hm; lia).
  destruct pixels as [|p pixels]; [done|]. simpl.
  destruct (Z.leb_spec 0 (Z.pos (Pos.of_succ_nat (length pixels)))); [|lia].
  by destruct (m <=? _).
Qed.

Lemma WriteObject_minimum (m : Z) (pixels : lutzOnePass.Object) (s_m s : lutzOnePass.t) :
  s_m = with_minimum m s → lutzOnePass.m_npixelmin s = 0 →
  0 <= m <= INT_MAX → NoDup (lutzObject.position <$> pixels) →
  lutzOnePass.WriteObject pixels s_m = with_minimum m (lutzOnePass.WriteObject pixels s).
Proof.
  intros -> Hmin Hm Hnd. rewrite !WriteObject_kept.
  change (lutzOnePass.m_npixelmin (with_minimum m s)) with m.
  rewrite Hmin, (kept_at_least m) by done.
  destruct (kept 0 pixels); [|done]. simpl.
  unfold with_minimum. simpl. rewrite filter_snoc.
  destruct (at_least m (lutzObject.of_pixels pixels)); [done|].
  by rewrite app_nil_r.
Qed.

(** The two scans run the same steps: reads give the same values, and the
    engines stay related through every step that changes them. *)
Ltac same_scan m :=
  repeat first
    [ reflexivity
    | apply bind_read; [reflexivity | intros ? ?]
    | apply if_both; [reflexivity | intros ? | intros ?]
    | apply (bind_state (with_minimum m));
        [ first [ by apply ModPSSTACK_minimum | by apply ModOBSTACK_minimum
                | by apply StartSegment_minimum | by apply EndSegment_minimum
                | idtac ]
        | intros ? ? ] ];
  cbv zeta.

(** The pixels of the top slot hold no position twice. *)
Lemma tidy_top_slot (y x : Z) (s : lutzOnePass.t) (pixels : lutzOnePass.Object) :
  tidy y x s →
  at_ (lutzOnePass.m_INFO s) (lutzOnePass.co s) = Done pixels →
  NoDup (lutzObject.position <$> pixels).
Proof.
  intros (Hnd & _) [Hc Hl]%at_Done_lookup.
  eapply NoDup_sub; [|exact Hnd]. apply submseteq_bag.
  fold (bag pixels) (bag (held s)). unfold held, pending. rewrite !bag_app.
  pose proof (slots_pop _ _ _ Hc Hl) as Hpop.
  unfold lutzOnePass.Object in *. multiset_solver.
Qed.

(** The pixels of a vector of the buffer hold no position twice. *)
Lemma tidy_store_slot (y x : Z) (s : lutzOnePass.t) (pixels : lutzOnePass.Object) :
  tidy y x s → pixels ∈ lutzOnePass.m_STORE s →
  NoDup (lutzObject.position <$> pixels).
Proof.
  intros (Hnd & _) [i Hi]%list_elem_of_lookup.
  eapply NoDup_sub; [|exact Hnd]. apply submseteq_bag.
  fold (bag pixels) (bag (held s)). unfold held, pending. rewrite !bag_app.
  pose proof (bag_insert _ _ _ [] Hi) as Hins. rewrite bag_nil in Hins.
  unfold lutzOnePass.Object in *. multiset_solver.
Qed.

Lemma ProcessNewMarker_minimum (m : Z) (y x : Z)
    (prev_marker : ascii) (xindx : Z) (s_m s : lutzOnePass.t) :
  s_m = with_minimum m s → 0 <= m <= INT_MAX →
  lutzOnePass.m_npixelmin s = 0 → tidy y x s →
  lutzOnePass.ProcessNewMarker prev_marker xindx s_m =
  (s' ← lutzOnePass.ProcessNewMarker prev_marker xindx s; Done (with_minimum m s')).
Proof.
  intros -> Hm Hmin Htidy. unfold lutzOnePass.ProcessNewMarker. cbv zeta.
  same_scan m.
  match goal with
  | Hread : at_ (lutzOnePass.m_INFO ?st) (lutzOnePass.co ?st) = Done ?pixels
    |- context [lutzOnePass.WriteObject ?pixels ?stm] =>
      change stm with (with_minimum m st);
      rewrite (WriteObject_minimum m pixels _ st eq_refl Hmin Hm
                 (tidy_top_slot y x st pixels Htidy Hread))
  end.
  same_scan m.
Qed.

Lemma no_pixel_minimum (m : Z) (y x : Z)
    (prev_marker : ascii) (xindx : Z) (s_m s : lutzOnePass.t) :
  s_m = with_minimum m s → 0 <= m <= INT_MAX →
  lutzOnePass.m_npixelmin s = 0 → tidy y x s →
  lutzOnePass.no_pixel prev_marker xindx s_m =
  (s' ← lutzOnePass.no_pixel prev_marker xindx s; Done (with_minimum m s')).
Proof.
  intros -> Hm Hmin Htidy. unfold lutzOnePass.no_pixel.
  apply (bind_state (with_minimum m)).
  - apply if_both; [reflexivity| |]; intros _; [reflexivity|].
    by apply (ProcessNewMarker_minimum m y x).
  - intros a _. same_scan m.
Qed.

Lemma sound_minimum (o0 s : lutzOnePass.t) :
  sound o0 s → lutzOnePass.m_npixelmin s = lutzOnePass.m_npixelmin o0.
Proof. intros [Hc _]. by injection Hc. Qed.

Lemma scan_pixel_minimum (m : Z) (o0 : lutzOnePass.t) (y x : Z) (s_m s : lutzOnePass.t) :
  s_m = with_minimum m s → 0 <= m <= INT_MAX →
  lutzOnePass.m_npixelmin o0 = 0 → sound o0 s → tidy y x s →
  lutzOnePass.scan_pixel y x s_m =
  (s' ← lutzOnePass.scan_pixel y x s; Done (with_minimum m s')).
Proof.
  intros -> Hm Hmin Hsound Htidy. unfold lutzOnePass.scan_pixel. cbv zeta.
  apply bind_read; [reflexivity|]. intros val _.
  apply bind_read; [reflexivity|]. intros prev_marker _.
  apply bind_read; [reflexivity|]. intros marker _.
  apply bind_read; [reflexivity|]. intros is_image_pixel _.
  apply if_both; [reflexivity| |]; intros _.
  - apply (bind_state (with_minimum m)).
    { apply if_both; [reflexivity| |]; intros _; [|reflexivity].
      by apply StartSegment_minimum. }
    intros a Ha.
    assert (Ha' : sound o0 a ∧ tidy y x a).
    { destruct (lutzOnePass.status_eqb _ _).
      - split; [eapply sound_StartSegment | eapply tidy_StartSegment]; by try exact Ha.
      - by injection Ha as <-. }
    destruct Ha' as [Hsa Hta].
    apply (bind_state (with_minimum m)).
    { apply if_both; [reflexivity| |]; intros _; [reflexivity|].
      apply (ProcessNewMarker_minimum m y x); try done.
      by rewrite (sound_minimum o0). }
    intros b _. same_scan m.
  - apply (no_pixel_minimum m y x); try done.
    by rewrite (sound_minimum o0).
Qed.

(** A loop whose rounds keep the two engines related. *)
Lemma for_minimum (m : Z) (P : Z → lutzOnePass.t → Prop) (n : nat) (from : Z)
    (body : Z → lutzOnePass.t → outcome lutzOnePass.t) (s : lutzOnePass.t) :
  (∀ i a, from <= i < from + Z.of_nat n → P i a →
          body i (with_minimum m a) = (a' ← body i a; Done (with_minimum m a'))) →
  (∀ i a a', from <= i < from + Z.of_nat n → P i a → body i a = Done a' → P (i + 1) a') →
  P from s →
  lutzOnePass.for_ n from body (with_minimum m s) =
  (s' ← lutzOnePass.for_ n from body s; Done (with_minimum m s')).
Proof.
  revert from s. induction n as [|n IH]; intros from s Hbody Hinv Hs; [done|].
  simpl. rewrite Hbody by (done || lia). rewrite !bind_assoc_outcome.
  destruct (body from s) as [a| |] eqn:E; [|done|done].
  rewrite !bind_Done_l. apply IH.
  - intros i b Hi. apply Hbody. lia.
  - intros i b b' Hi. apply Hinv. lia.
  - eapply Hinv; [|exact Hs|exact E]. lia.
Qed.

Lemma scan_row_minimum (m : Z) (o0 : lutzOnePass.t) (y : Z) (s_m s : lutzOnePass.t) :
  s_m = with_minimum m s → 0 <= m <= INT_MAX →
  lutzOnePass.m_npixelmin o0 = 0 → 0 <= y < lutzOnePass.m_ypix o0 →
  sound o0 s → tidy y 0 s →
  lutzOnePass.scan_row y s_m =
  (s' ← lutzOnePass.scan_row y s; Done (with_minimum m s')).
Proof.
  intros -> Hm Hmin Hy Hsound Htidy. unfold lutzOnePass.scan_row. cbv zeta.
  set (s0 := lutzOnePass.with_CS lutzOnePass.NONOBJECT
               (lutzOnePass.with_PS lutzOnePass.COMPLETE s)).
  assert (Hw : lutzOnePass.m_xpix s0 = lutzOnePass.m_xpix o0).
  { destruct Hsound as [Hc _]. by injection Hc. }
  apply (bind_state (with_minimum m)).
  { change (lutzOnePass.with_CS lutzOnePass.NONOBJECT
              (lutzOnePass.with_PS lutzOnePass.COMPLETE (with_minimum m s)))
      with (with_minimum m s0).
    change (lutzOnePass.m_xpix (with_minimum m s0)) with (lutzOnePass.m_xpix s0).
    apply (for_minimum m (fun x a => sound o0 a ∧ tidy y x a)).
    - intros i a Hi [Hsa Hta]. by apply (scan_pixel_minimum m o0).
    - intros i a a' Hi [Hsa Hta] E. split.
      + eapply (sound_scan_pixel o0 a a' y i); try done. lia.
      + by eapply tidy_scan_pixel.
    - by split. }
  intros a Ha.
  eapply (for_indexed (fun x a => sound o0 a ∧ tidy y x a)) in Ha.
  2:{ intros i b b' Hi [Hsb Htb] E. split.
      - eapply (sound_scan_pixel o0 b b' y i); try done. lia.
      - by eapply tidy_scan_pixel. }
  2:{ by split. }
  destruct Ha as [Hsa Hta].
  apply bind_read; [reflexivity|]. intros prev_marker _.
  apply bind_read; [reflexivity|]. intros marker _.
  eapply (no_pixel_minimum m y); try done.
  by rewrite (sound_minimum o0).
Qed.

Lemma init_members_minimum (m : Z) (o : lutzOnePass.t) :
  lutzOnePass.init_members (lutzOnePass.SetNPixelMin m o) =
  (s' ← lutzOnePass.init_members (lutzOnePass.SetNPixelMin 0 o); Done (with_minimum m s')).
Proof. unfold lutzOnePass.init_members. same_scan m. Qed.

Lemma flush_minimum_filter (m : Z) (l : list lutzOnePass.Object) :
  0 <= m <= INT_MAX →
  Forall (fun pixels => NoDup (lutzObject.position <$> pixels)) l →
  lutzObject.of_pixels <$> List.filter (kept m) l =
  List.filter (at_least m) (lutzObject.of_pixels <$> List.filter (kept 0) l).
Proof.
  intros Hm Hl. induction Hl as [|pixels l Hnd _ IH]; [done|].
  cbn [List.filter]. rewrite (kept_at_least m pixels) by done.
  destruct (kept 0 pixels); cbn [andb]; [|exact IH].
  rewrite fmap_cons. cbn [List.filter].
  destruct (at_least m (lutzObject.of_pixels pixels)); [|exact IH].
  by rewrite fmap_cons, IH.
Qed.

Lemma StoreClearance_minimum (m : Z) (y x : Z) (s : lutzOnePass.t) :
  0 <= m <= INT_MAX → lutzOnePass.m_npixelmin s = 0 → tidy y x s →
  lutzOnePass.GetObjects (lutzOnePass.StoreClearance (with_minimum m s)) =
  List.filter (at_least m) (lutzOnePass.GetObjects (lutzOnePass.StoreClearance s)).
Proof.
  intros Hm Hmin Htidy. unfold lutzOnePass.GetObjects.
  rewrite !(proj1 (StoreClearance_flushes _)), Hmin.
  change (lutzOnePass.m_npixelmin (with_minimum m s)) with m.
  change (lutzOnePass.m_STORE (with_minimum m s)) with (lutzOnePass.m_STORE s).
  change (lutzOnePass.m_Objects (with_minimum m s))
    with (List.filter (at_least m) (lutzOnePass.m_Objects s)).
  rewrite List.filter_app. f_equal.
  apply flush_minimum_filter; [done|].
  apply Forall_forall. intros pixels Hin. by eapply tidy_store_slot.
Qed.

(** X22: the minimum size only filters.  For a minimum between 0 and
    INT_MAX, [run] hands out exactly those objects, in the same order,
    that it hands out with minimum 0 and that hold at least that many
    pixels; and it fails exactly as the scan with minimum 0 fails. *)
Theorem minimum_size_only_filters (o : lutzOnePass.t) (npixelmin : Z) :
  0 <= npixelmin <= INT_MAX →
  objects_found (lutzOnePass.SetNPixelMin npixelmin o) =
  (objs ← objects_found (lutzOnePass.SetNPixelMin 0 o);
   Done (List.filter (at_least npixelmin) objs)).
Proof.
  intros Hm. unfold objects_found, lutzOnePass.run.
  rewrite init_members_minimum, !bind_assoc_outcome.
  destruct (lutzOnePass.init_members (lutzOnePass.SetNPixelMin 0 o)) as [a| |] eqn:Hinit;
    [|done|done].
  rewrite !bind_Done_l. cbv zeta.
  set (o_0 := lutzOnePass.SetNPixelMin 0 o) in *.
  pose proof (sound_init_members _ _ Hinit) as Hsound.
  pose proof (tidy_init_members _ _ Hinit) as Htidy.
  set (s := lutzOnePass.with_joins 0 (lutzOnePass.with_pstop 0 (lutzOnePass.with_co 0 a))) in *.
  change (lutzOnePass.with_joins 0
            (lutzOnePass.with_pstop 0 (lutzOnePass.with_co 0 (with_minimum npixelmin a))))
    with (with_minimum npixelmin s).
  change (lutzOnePass.m_ypix (with_minimum npixelmin s)) with (lutzOnePass.m_ypix s).
  assert (Hh : lutzOnePass.m_ypix s = lutzOnePass.m_ypix o_0).
  { destruct Hsound as [Hc _]. by injection Hc. }
  assert (Hs : sound o_0 s) by exact Hsound.
  rewrite (for_minimum npixelmin (fun y a => sound o_0 a ∧ tidy y 0 a)).
  - rewrite !bind_assoc_outcome.
    destruct (lutzOnePass.for_ _ _ _ s) as [b| |] eqn:Hrows; [|done|done].
    rewrite !bind_Done_l. f_equal.
    eapply (for_indexed (fun y a => sound o_0 a ∧ tidy y 0 a)) in Hrows.
    + destruct Hrows as [Hsb Htb].
      eapply StoreClearance_minimum; [done| |exact Htb].
      by rewrite (sound_minimum o_0).
    + intros i c c' Hi [Hsc Htc] E. split.
      * eapply sound_scan_row; [|exact Hsc|exact E]. lia.
      * by eapply tidy_scan_row.
    + by split.
  - intros i c Hi [Hsc Htc]. apply (scan_row_minimum npixelmin o_0); try done. lia.
  - intros i c c' Hi [Hsc Htc] E. split.
    + eapply sound_scan_row; [|exact Hsc|exact E]. lia.
    + by eapply tidy_scan_row.
  - by split.
Qed.

Lemma minimum_size_only_filters_witness :
  objects_found (lutzOnePass.SetNPixelMin 3 two_blobs) =
  (objs ← objects_found (lutzOnePass.SetNPixelMin 0 two_blobs);
   Done (List.filter (at_least 3) objs)).
Proof.
  apply (minimum_size_only_filters two_blobs 3). vm_compute. intuition discriminate.
Defined.
